(** * msvc-wine: the command-file and precompiled-header path remappers

    A shallow embedding of [cmaketricks.cpp] and [cmdfileremap.cpp], the two
    helpers that rewrite the Unix paths found in [cl] command files (and, for
    [cmaketricks], in CMake's precompiled-header sources) into the DOS paths
    Wine maps them to.

    Both programs have the same three functions, [token], [remap] and
    [remapFile]; each program is a module here, so that the functions keep
    their names.  What the two share (characters, the regular expressions,
    the file model, the result monad) comes first.

    Out of the model: what is printed on the console (the messages that
    [g_Quiet] silences, the token echo of [g_Debug]).

    Where the model stops.  A stream delivers and takes bytes as they are,
    and holds what was written to it until it is closed or the process
    exits: that is a text-mode stream of the C runtime of Windows on a text
    without carriage return, line feed and Ctrl-Z, and it says nothing of
    the blocks that a real stream has already written when the process
    aborts or faults.  A capacity is an [int], and [capacity - 1] is exact,
    as it is in the source for every [int] above [INT_MIN]. *)

From Stdlib Require Import Ascii String ZArith Lia List Bool.
From stdpp Require Import base option list gmap strings.

Local Open Scope char_scope.
Local Open Scope list_scope.

(** ** Characters and C strings *)

(** A [char] buffer read up to its terminator.  The text of a C string is the
    list of its characters before the first ['\0']. *)
Definition chars : Type := list ascii.

Definition NUL : ascii := "000".
Definition TAB : ascii := "009".
Definition LF : ascii := "010".
Definition CR : ascii := "013".
Definition SPACE : ascii := " ".
Definition DQUOTE : ascii := Eval cbv in ascii_of_nat 34.

Definition cstr (s : string) : chars := list_ascii_of_string s.

(** [*p] for a pointer [p] at offset [i] of a buffer that holds [buf] followed
    by ['\0'] ([buffer[size] = '\0'] in [remapFile]). *)
Definition peek (buf : chars) (i : nat) : ascii := nth i buf NUL.

(** [while ( cond( *p ) ) p += 1;] started on the text [s]: the number of
    characters stepped over.  Every such loop of [token] has [*p != '\0'] in
    its condition, and the end of the list stands for that terminator. *)
Fixpoint span (cond : ascii -> bool) (s : chars) : nat :=
  match s with
  | [] => 0
  | c :: s' => if cond c then S (span cond s') else 0
  end.

Definition is_blank (c : ascii) : bool := Ascii.eqb c SPACE || Ascii.eqb c TAB.
Definition is_newline (c : ascii) : bool := Ascii.eqb c CR || Ascii.eqb c LF.
Definition is_nul (c : ascii) : bool := Ascii.eqb c NUL.

(** The conditions of the first two [while] loops of [token], the same in
    both programs, and where the first one leaves the pointer. *)
Definition blank_cond (c : ascii) : bool := is_blank c && negb (is_nul c).
Definition quoted_cond (c : ascii) : bool := negb (Ascii.eqb c DQUOTE) && negb (is_nul c).
Definition skip_blanks (buffer : chars) (p : nat) : nat :=
  p + span blank_cond (drop p buffer).

(** A text without carriage returns and line feeds, which [.] matches. *)
Definition no_newline (s : chars) : Prop := Forall (fun c => is_newline c = false) s.

(** [strchr( s, c )] as an offset; [None] is the null pointer. *)
Fixpoint strchr (s : chars) (c : ascii) : option nat :=
  match s with
  | [] => None
  | x :: s' => if Ascii.eqb x c then Some 0 else option_map S (strchr s' c)
  end.

(** ** Regular expressions

    [std::regex] in its default ECMAScript grammar, for the constructs the
    four patterns use.  [regex_match] asks for a match of the whole text, so
    for these patterns it is membership in the language, decided here with
    derivatives. *)

Inductive regex : Type :=
| Void
| Eps
| Sym (p : ascii -> bool)
| Cat (r s : regex)
| Alt (r s : regex)
| Star (r : regex).

Fixpoint nullable (r : regex) : bool :=
  match r with
  | Void => false
  | Eps => true
  | Sym _ => false
  | Cat r s => nullable r && nullable s
  | Alt r s => nullable r || nullable s
  | Star _ => true
  end.

Fixpoint deriv (c : ascii) (r : regex) : regex :=
  match r with
  | Void => Void
  | Eps => Void
  | Sym p => if p c then Eps else Void
  | Cat r s =>
      if nullable r then Alt (Cat (deriv c r) s) (deriv c s)
      else Cat (deriv c r) s
  | Alt r s => Alt (deriv c r) (deriv c s)
  | Star r => Cat (deriv c r) (Star r)
  end.

Fixpoint derivs (s : chars) (r : regex) : regex :=
  match s with
  | [] => r
  | c :: s' => derivs s' (deriv c r)
  end.

(** [std::regex_match( tok, r )] *)
Definition regex_match (tok : chars) (r : regex) : bool := nullable (derivs tok r).

(** The language of a pattern: what a whole-text match means. *)
Inductive lang : regex -> chars -> Prop :=
| lang_eps : lang Eps []
| lang_sym p c : p c = true -> lang (Sym p) [c]
| lang_cat r s u v : lang r u -> lang s v -> lang (Cat r s) (u ++ v)
| lang_alt_l r s u : lang r u -> lang (Alt r s) u
| lang_alt_r r s u : lang s u -> lang (Alt r s) u
| lang_star_nil r : lang (Star r) []
| lang_star_app r u v : lang r u -> lang (Star r) v -> lang (Star r) (u ++ v).

(** The atoms and quantifiers of the patterns. *)
Definition chr (c : ascii) : regex := Sym (Ascii.eqb c).
Definition dash_or_slash : regex :=                      (* [-\/] *)
  Sym (fun c => Ascii.eqb c "-" || Ascii.eqb c "/").
Definition is_alpha (c : ascii) : bool :=
  let n := nat_of_ascii c in
  ((65 <=? n) && (n <=? 90) || (97 <=? n) && (n <=? 122))%nat.
Definition alpha : regex := Sym is_alpha.                (* [A-Za-z] *)
Definition dot : regex := Sym (fun c => negb (is_newline c)).  (* . *)
Definition plus (r : regex) : regex := Cat r (Star r).   (* r+ *)
Fixpoint rep (n : nat) (r : regex) : regex :=            (* r{n} *)
  match n with
  | 0 => Eps
  | S n' => Cat r (rep n' r)
  end.
Definition rep_min (n : nat) (r : regex) : regex := Cat (rep n r) (Star r).  (* r{n,} *)

(** The four patterns, the same in both programs. *)
Definition JUS_PATH : regex :=     (* \/.+\/.+ *)
  Cat (chr "/") (Cat (plus dot) (Cat (chr "/") (plus dot))).
Definition ONE_PATH : regex :=     (* [-\/][A-Za-z]\/.* *)
  Cat dash_or_slash (Cat alpha (Cat (chr "/") (Star dot))).
Definition DUO_PATH : regex :=     (* [-\/][A-Za-z]{2}\/.* *)
  Cat dash_or_slash (Cat (rep 2 alpha) (Cat (chr "/") (Star dot))).
Definition TRI_PATH : regex :=     (* [-\/][A-Za-z]{3,}:\/.* *)
  Cat dash_or_slash (Cat (rep_min 3 alpha) (Cat (chr ":") (Cat (chr "/") (Star dot)))).

(** The branches of the [if]/[else if] chain over the patterns in
    [remapFile], named as the specification names them. *)
Inductive PatternClass : Type :=
| NONE
| BARE_PATH
| SINGLE_PREFIX_PATH
| DOUBLE_PREFIX_PATH
| COLON_PREFIX_PATH.

Global Instance PatternClass_eq_dec : EqDecision PatternClass.
Proof. solve_decision. Defined.

(** The chain itself, the same in both programs: the first pattern that
    matches decides. *)
Definition classify (tok : chars) : PatternClass :=
  if regex_match tok ONE_PATH then SINGLE_PREFIX_PATH
  else if regex_match tok DUO_PATH then DOUBLE_PREFIX_PATH
  else if regex_match tok TRI_PATH then COLON_PREFIX_PATH
  else if regex_match tok JUS_PATH then BARE_PATH
  else NONE.

(** ** The tokenizer's result *)

Inductive tok_result : Type :=
| TokAbort                          (* the [assert] failed *)
| TokEnd                            (* [return nullptr] *)
| Tok (t : chars) (next : nat).     (* [pToken] now holds [t]; the returned pointer *)

(** ** Files, streams and the ways a run can end *)

Inductive Mode : Type := PCH | CMD.   (* [enum class Mode] of cmaketricks *)

(** A ghost log of what a run asked of its collaborators: every call of
    [g_WineGetDosFilename] and every entry into [remapFile]. *)
Inductive event : Type :=
| Translate (pPath : chars)
| Enter (pFile : chars) (pMode : Mode).

(** The files by name, the output streams that are open (innermost first,
    each with the name it was opened on and everything written to it so far),
    and the log.  A stream's data reaches its file when the stream is closed
    or the process exits. *)
Record world : Type := World {
  files : gmap chars chars;
  streams : list (chars * chars);
  trace : list event
}.

Inductive outcome : Type :=
| Exit (code : Z)     (* [exit( code )] *)
| Abort               (* a failed [assert], an uncaught exception *)
| Fault               (* a null or wild pointer was dereferenced *)
| NoFuel.             (* the model's iteration bound was reached *)

(** [Stop o w]: the process ended with [o], in the world [w] it had reached. *)
Inductive result (A : Type) : Type :=
| Ret (a : A) (w : world)
| Stop (o : outcome) (w : world).
Arguments Ret {A} a w.
Arguments Stop {A} o w.

Definition M (A : Type) : Type := world -> result A.

Definition ret {A} (a : A) : M A := fun w => Ret a w.
Definition bind {A B} (m : M A) (k : A -> M B) : M B :=
  fun w => match m w with
           | Ret a w' => k a w'
           | Stop o w' => Stop o w'
           end.
Definition stop {A} (o : outcome) : M A := fun w => Stop o w.

(** stdpp's monad notations: [x ← m; k] and [m;; k]. *)
Global Instance M_ret : MRet M := @ret.
Global Instance M_bind : MBind M := fun A B k m => bind m k.

Definition outcome_of {A} (r : result A) : option outcome :=
  match r with
  | Ret _ _ => None
  | Stop o _ => Some o
  end.
Definition world_of {A} (r : result A) : world :=
  match r with
  | Ret _ w => w
  | Stop _ w => w
  end.

Definition log (e : event) : M unit :=
  fun w => Ret tt (World (files w) (streams w) (trace w ++ [e])).

(** [fopen( pFile, "r" )], the whole file read into [buffer], [fclose]: the
    contents, or [None] when the file cannot be opened.  The read is taken
    to deliver the file as it is, so that [assert( size == bufLen )] holds.
    In the text mode of the C runtime of Windows that is so of a file
    without a carriage return before a line feed and without Ctrl-Z; on any
    other file [fread] delivers fewer characters than [ftell] counted and
    the assertion stops the program, which this definition does not show. *)
Definition read_file (pFile : chars) : M (option chars) :=
  fun w => Ret (files w !! pFile) w.

(** Writing to the stream [file], the innermost open one.  The stream
    holds what is written until [fclose] or [exit]; the text goes out as it
    is, which in the text mode of the C runtime of Windows is so of a text
    without line feeds (one is written as carriage return and line feed).
    What a real stream has handed to the file system before the process
    aborts or faults is not in [files]. *)
Definition fputs (s : chars) : M unit :=
  fun w => match streams w with
           | [] => Ret tt w
           | (name, data) :: rest =>
               Ret tt (World (files w) ((name, data ++ s) :: rest) (trace w))
           end.
Definition fputc (c : ascii) : M unit := fputs [c].

(** [fflush( file ); fclose( file );] *)
Definition fclose : M unit :=
  fun w => match streams w with
           | [] => Ret tt w
           | (name, data) :: rest =>
               Ret tt (World (<[name := data]> (files w)) rest (trace w))
           end.

(** What [exit] does to the files: every open stream is flushed and closed.
    After [Abort] or [Fault] nothing is known to be flushed. *)
Definition at_exit (w : world) : world :=
  World (foldl (fun m s => <[s.1 := s.2]> m) (files w) (streams w)) [] (trace w).

Definition exit {A} (code : Z) : M A := stop (Exit code).

(** The process as seen from outside: its outcome and the world it leaves. *)
Definition run {A} (m : M A) (w : world) : option outcome * world :=
  match m w with
  | Ret _ w' => (None, w')
  | Stop (Exit c) w' => (Some (Exit c), at_exit w')
  | Stop o w' => (Some o, w')
  end.

(** The collaborators that are outside the two source files: Wine's
    [wine_get_dos_file_name] ([None] for a null result), the text that
    [WideCharToMultiByte( CP_UNIXCP, 0, winPath, -1, pPath, pLen, ... )]
    leaves at [pPath], and whether a file can be opened for writing. *)
Class Host : Type := {
  LPWSTR : Type;
  wine_get_dos_file_name : chars -> option LPWSTR;
  WideCharToMultiByte : LPWSTR -> Z -> chars;
  writable : chars -> bool
}.

(** [fopen( pFile, "w" )]: the file is created or cut to length zero, and a
    stream is opened on it. *)
Definition fopen_w `{Host} (pFile : chars) : M bool :=
  fun w => if writable pFile
           then Ret true (World (<[pFile := []]> (files w)) ((pFile, []) :: streams w) (trace w))
           else Ret false w.

(** [fprintf] with the formats the programs use. *)
Definition quoted (s : chars) : chars := DQUOTE :: s ++ [DQUOTE].
(** [%Ns]: a minimum field width, padded with spaces on the left. *)
Definition width (n : nat) (s : chars) : chars := replicate (n - length s) SPACE ++ s.

(** [void remap( char* pPath, int pLen )], the same in both programs: the
    text left at [pPath].  ([g_Quiet] only silences the message on [stderr],
    which is not modelled.) *)
Definition remap `{Host} (pPath : chars) (pLen : Z) : M chars :=
  log (Translate pPath);;
  match wine_get_dos_file_name pPath with
  | None => exit 4
  | Some winPath => mret (WideCharToMultiByte winPath pLen)
  end.

(** ** cmaketricks.cpp *)

Module cmaketricks.

(** The condition of the loop over a bare token. *)
Definition bare_cond (c : ascii) : bool :=
  negb (Ascii.eqb c SPACE) && negb (Ascii.eqb c TAB) && negb (is_nul c)
  && negb (Ascii.eqb c CR) && negb (Ascii.eqb c LF).

(** [const char* token( const char* pBuffer, char* pToken, int pTokenLen )].
    The pointer [pBuffer] is the offset [pBuffer] into [buffer].  [offset]
    is declared, left at 0 and added to the result, as in the source.
    [pTokenLen] stands for an [int]: [pTokenLen - 1] is the exact
    difference, as it is in the source for every [int] above [INT_MIN]
    (there the subtraction overflows); both programs pass 1024. *)
Definition token (buffer : chars) (pBuffer : nat) (pTokenLen : Z) : tok_result :=
  let pBuffer := skip_blanks buffer pBuffer in
  if is_newline (peek buffer pBuffer) then
    Tok [peek buffer pBuffer] (pBuffer + 1)
  else if is_nul (peek buffer pBuffer) then
    TokEnd
  else
    let offset := 0 in
    let '(start, pBuffer) :=
      if Ascii.eqb (peek buffer pBuffer) DQUOTE then       (* parse a quoted string *)
        let start := pBuffer + 1 in
        (start, start + span quoted_cond (drop start buffer))
      else                                                  (* parse a single token *)
        (pBuffer, pBuffer + span bare_cond (drop pBuffer buffer)) in
    let size := pBuffer - start in
    if (Z.of_nat size <? pTokenLen - 1)%Z then             (* the [assert] *)
      Tok (take size (drop start buffer)) (pBuffer + offset)
    else TokAbort.

Definition TOKEN_SIZE : Z := 1024.

Section Program.
Context `{Host}.
Variable g_Debug : bool.     (* [--debug]: write to [<file>.out] instead *)

Section Body.
Variable remapFile : chars -> Mode -> M unit.   (* the recursive call *)
Variable pMode : Mode.
Variable buffer : chars.

(** [ptr = token( ptr, tok, TOKEN_SIZE )]: the new [ptr] and [tok].  At
    the end of the buffer [tok] is left as it was. *)
Definition next_token (ptr : option nat) (tok : chars) : M (option nat * chars) :=
  match ptr with
  | None => stop Fault
  | Some p =>
      match token buffer p TOKEN_SIZE with
      | TokAbort => stop Abort
      | TokEnd => mret (None, tok)
      | Tok t p' => mret (Some p', t)
      end
  end.

(** One turn of the [while] body, entered with a token in [tok]: the
    [ptr] and [tok] it leaves. *)
Definition body (ptr : option nat) (tok : chars) : M (option nat * chars) :=
  if Ascii.eqb (hd NUL tok) SPACE then mret (ptr, tok)
  else if is_newline (hd NUL tok) then
    fputc (hd NUL tok);; mret (ptr, tok)
  else
    match pMode with
    | CMD =>
        match classify tok with
        | SINGLE_PREFIX_PATH =>
            path ← remap (drop 2 tok) TOKEN_SIZE;
            let tok := take 2 tok ++ path in
            fputs (quoted tok ++ [SPACE]);; mret (ptr, tok)
        | DOUBLE_PREFIX_PATH =>
            path ← remap (drop 3 tok) TOKEN_SIZE;
            let tok := take 3 tok ++ path in
            fputs (quoted tok ++ [SPACE]);;
            (if Ascii.eqb (nth 1 tok NUL) "F"
                && (Ascii.eqb (nth 2 tok NUL) "I" || Ascii.eqb (nth 2 tok NUL) "i")
             then remapFile (drop 3 tok) PCH
             else mret tt);;
            mret (ptr, tok)
        | COLON_PREFIX_PATH =>
            match strchr tok ":" with
            | None => stop Fault          (* [remap( NULL + 1, .. )] *)
            | Some colon =>
                path ← remap (drop (colon + 1) tok) TOKEN_SIZE;
                let tok := take (colon + 1) tok ++ path in
                fputs (quoted tok ++ [SPACE]);; mret (ptr, tok)
            end
        | BARE_PATH =>
            path ← remap tok TOKEN_SIZE;
            fputs (quoted path ++ [SPACE]);; mret (ptr, path)
        | NONE =>
            fputs (quoted tok ++ [SPACE]);; mret (ptr, tok)
        end
    | PCH =>
        if bool_decide (tok = cstr "#include") then
          fputs tok;;
          '(ptr, tok) ← next_token ptr tok;
          path ← remap tok TOKEN_SIZE;
          fputs (SPACE :: quoted path);; mret (ptr, path)
        else
          fputs (tok ++ [SPACE]);; mret (ptr, tok)
    end.

(** [while ( (ptr = token( ptr, tok, TOKEN_SIZE )) ) { ... }] *)
Fixpoint loop (fuel : nat) (ptr : option nat) (tok : chars) : M unit :=
  match fuel with
  | 0 => stop NoFuel
  | S fuel' =>
      '(ptr, tok) ← next_token ptr tok;
      match ptr with
      | None => mret tt
      | Some _ =>
          '(ptr, tok) ← body ptr tok;
          loop fuel' ptr tok
      end
  end.
End Body.

(** The name the output is written under. *)
Definition destination (pFile : chars) : chars :=
  if g_Debug then pFile ++ cstr ".out" else pFile.

(** [void remapFile( const char *pFile, Mode pMode )], with the recursive
    call as a parameter.  [tok] is not initialised by the program; it is
    written by the first [token] that finds one, before anything reads it. *)
Definition remapFile_body (remapFile : chars -> Mode -> M unit)
    (pFile : chars) (pMode : Mode) : M unit :=
  log (Enter pFile pMode);;
  file ← read_file pFile;
  match file with
  | None => exit 3
  | Some buffer =>
      opened ← fopen_w (destination pFile);
      if opened : bool then
        loop remapFile pMode buffer (S (length buffer)) (Some 0) [];;
        fclose
      else exit 3
  end.

(** The recursive call is made in [Mode::PCH] only, and a [Mode::PCH] pass
    makes none, so two levels are all the recursion there is. *)
Fixpoint remapFile_at (depth : nat) (pFile : chars) (pMode : Mode) : M unit :=
  match depth with
  | 0 => stop NoFuel
  | S depth' => remapFile_body (remapFile_at depth') pFile pMode
  end.

Definition remapFile : chars -> Mode -> M unit := remapFile_at 2.
End Program.

End cmaketricks.

(** ** cmdfileremap.cpp *)

Module cmdfileremap.

(** The condition of the loop over a bare token. *)
Definition bare_cond (c : ascii) : bool :=
  negb (Ascii.eqb c SPACE) && negb (Ascii.eqb c TAB) && negb (is_nul c).

(** [const char* token( const char* pBuffer, char* pToken, int pTokenLen )];
    [pTokenLen - 1] as in cmaketricks. *)
Definition token (buffer : chars) (pBuffer : nat) (pTokenLen : Z) : tok_result :=
  let pBuffer := skip_blanks buffer pBuffer in
  if is_nul (peek buffer pBuffer) then
    TokEnd
  else
    let offset := 0 in
    let '(start, pBuffer) :=
      if Ascii.eqb (peek buffer pBuffer) DQUOTE then       (* parse a quoted string *)
        let start := pBuffer + 1 in
        (start, start + span quoted_cond (drop start buffer))
      else                                                  (* parse a single token *)
        (pBuffer, pBuffer + span bare_cond (drop pBuffer buffer)) in
    let size := pBuffer - start in
    if (Z.of_nat size <? pTokenLen - 1)%Z then             (* the [assert] *)
      Tok (take size (drop start buffer)) (pBuffer + offset)
    else TokAbort.

Section Program.
Context `{Host}.

Section Body.
Variable buffer : chars.

Definition next_token (ptr : nat) : M (option (nat * chars)) :=
  match token buffer ptr 1024 with
  | TokAbort => stop Abort
  | TokEnd => mret None
  | Tok t p' => mret (Some (p', t))
  end.

(** The body of the [for] loop; [tok] as it leaves it. *)
Definition body (tok : chars) : M chars :=
  match classify tok with
  | SINGLE_PREFIX_PATH =>
      path ← remap (drop 2 tok) 1024;
      let tok := take 2 tok ++ path in
      fputs (quoted (width 2 tok ++ tok) ++ [SPACE]);; mret tok
  | DOUBLE_PREFIX_PATH =>
      path ← remap (drop 3 tok) 1024;
      let tok := take 3 tok ++ path in
      fputs (quoted (width 3 tok ++ tok) ++ [SPACE]);; mret tok
  | COLON_PREFIX_PATH =>
      match strchr tok ":" with
      | None => stop Fault
      | Some colon =>
          (* [len = tok - strchr( tok, ':' )], the operands swapped *)
          let len := (- Z.of_nat colon)%Z in
          if (len + 1 <? 0)%Z then
            stop Abort       (* [new char[len + 1]]: [std::bad_array_new_length] *)
          else
            stop Fault       (* [strncpy( x, tok, len - 1 )] with a count below zero *)
      end
  | BARE_PATH =>
      path ← remap tok 1024;
      fputs (quoted path ++ [SPACE]);; mret path
  | NONE =>
      fputs (quoted tok ++ [SPACE]);; mret tok
  end.

(** [for ( ptr = token( buffer, .. ); ptr; ptr = token( ptr, .. ) ) { ... }] *)
Fixpoint loop (fuel : nat) (ptr : nat) : M unit :=
  match fuel with
  | 0 => stop NoFuel
  | S fuel' =>
      r ← next_token ptr;
      match r with
      | None => mret tt
      | Some (ptr, tok) => body tok;; loop fuel' ptr
      end
  end.
End Body.

(** [void remapFile( const char *pFile )] *)
Definition remapFile (pFile : chars) : M unit :=
  log (Enter pFile CMD);;
  file ← read_file pFile;
  match file with
  | None => exit 3
  | Some buffer =>
      opened ← fopen_w pFile;
      if opened : bool then
        loop buffer (S (length buffer)) 0;;
        fclose
      else exit 3
  end.
End Program.

End cmdfileremap.


(** ** The tokenizer as the specification words it

    The run of characters one call consumes: after the leading spaces and
    tabs, nothing at the end of the buffer (nor, in cmaketricks, at a
    carriage return or line feed, which is a token of its own); after a
    double quote, the characters up to the next double quote; otherwise the
    characters up to the next space or tab (or, in cmaketricks, carriage
    return or line feed). *)

Inductive program : Type := Cmaketricks | Cmdfileremap.

Definition token_of (v : program) : chars -> nat -> Z -> tok_result :=
  match v with
  | Cmaketricks => cmaketricks.token
  | Cmdfileremap => cmdfileremap.token
  end.

Definition bare_cond_of (v : program) : ascii -> bool :=
  match v with
  | Cmaketricks => cmaketricks.bare_cond
  | Cmdfileremap => cmdfileremap.bare_cond
  end.

Fixpoint drop_blanks (s : chars) : chars :=
  match s with
  | [] => []
  | c :: s' => if is_blank c then drop_blanks s' else s
  end.

Fixpoint up_to (stop : ascii -> bool) (s : chars) : chars :=
  match s with
  | [] => []
  | c :: s' => if stop c || is_nul c then [] else c :: up_to stop s'
  end.

Definition splits_lines (v : program) : bool :=
  match v with
  | Cmaketricks => true
  | Cmdfileremap => false
  end.

Definition spec_consumed_run (v : program) (buffer : chars) (pos : nat) : option chars :=
  match drop_blanks (drop pos buffer) with
  | [] => None
  | c :: s =>
      if is_nul c then None
      else if splits_lines v && is_newline c then None
      else if Ascii.eqb c DQUOTE then Some (up_to (fun x => Ascii.eqb x DQUOTE) s)
      else Some (up_to (fun x => is_blank x || splits_lines v && is_newline x) (c :: s))
  end.

(** ** Specifications of computations

    What a computation guarantees of the world it returns in ([post]) and of
    the world it stops in ([fail]), both relative to the world it started
    in. *)

Record spec : Type := Spec {
  post : world -> world -> Prop;
  fail : world -> outcome -> world -> Prop
}.

Definition sat {A} (S : spec) (m : M A) : Prop :=
  forall w, match m w with
            | Ret _ w' => post S w w'
            | Stop o w' => fail S w o w'
            end.

(** The guarantees compose along a sequence of steps. *)
Class Lawful (S : spec) : Prop := {
  post_refl w : post S w w;
  post_trans w1 w2 w3 : post S w1 w2 -> post S w2 w3 -> post S w1 w3;
  post_fail w1 w2 o w3 : post S w1 w2 -> fail S w2 o w3 -> fail S w1 o w3
}.

(** The names the open streams were opened on, innermost first. *)
Definition names (w : world) : list chars := (streams w).*1.

Definition is_translate (e : event) : Prop :=
  match e with
  | Translate _ => True
  | Enter _ _ => False
  end.

(** A request to translate that was granted; entering a file always is. *)
Definition ok_event `{Host} (e : event) : Prop :=
  match e with
  | Translate p => wine_get_dos_file_name p <> None
  | Enter _ _ => True
  end.

(** A stretch of the log that ends in a refused request, the first one. *)
Definition failed_at `{Host} (new : list event) : Prop :=
  exists tr p, new = tr ++ [Translate p] /\ wine_get_dos_file_name p = None /\
               Forall ok_event tr.

(** What every piece of both programs keeps: it returns with the streams it
    found open, and stops with those still open below any it opened itself;
    it stops with [exit( 4 )] exactly when a translation was refused, then
    and there. *)
Definition run_spec `{Host} : spec := {|
  post := fun w w' =>
    names w' = names w /\
    exists new, trace w' = trace w ++ new /\ Forall ok_event new;
  fail := fun w o w' =>
    (exists st, names w' = st ++ names w) /\
    exists new, trace w' = trace w ++ new /\
      ((o = Exit 4 /\ failed_at new) \/ (o <> Exit 4 /\ Forall ok_event new))
|}.

(** A piece that only asks for translations. *)
Definition translate_spec : spec := {|
  post := fun w w' => exists new, trace w' = trace w ++ new /\ Forall is_translate new;
  fail := fun w _ w' => exists new, trace w' = trace w ++ new /\ Forall is_translate new
|}.

(** ** A host and files to run the programs on

    Wine maps every path to the same path on drive [Z:], except [/usr/c],
    which it refuses to translate; every file can be written. *)

Definition demo_host : Host := {|
  LPWSTR := chars;
  wine_get_dos_file_name := fun p =>
    if bool_decide (p = cstr "/usr/c") then None else Some (cstr "Z:" ++ p);
  WideCharToMultiByte := fun winPath _ => winPath;
  writable := fun _ => true
|}.

(** The same Wine with nothing refused. *)
Definition granting_host : Host := {|
  LPWSTR := chars;
  wine_get_dos_file_name := fun p => Some (cstr "Z:" ++ p);
  WideCharToMultiByte := fun winPath _ => winPath;
  writable := fun _ => true
|}.

Definition one_file (name contents : string) : world :=
  World {[ cstr name := cstr contents ]} [] [].

Definition two_files (name1 contents1 name2 contents2 : string) : world :=
  World (<[ cstr name2 := cstr contents2 ]> {[ cstr name1 := cstr contents1 ]}) [] [].

(** The text [s] between double quotes. *)
Definition in_quotes (s : string) : string :=
  String DQUOTE (s ++ String DQUOTE EmptyString).

(** ** The path inside a token, as the specification words it

    The number of characters of the token that come before its path: 2, 3,
    one more than the place of the first colon, or 0, by pattern class. *)
Definition path_offset (tok : chars) : option nat :=
  match classify tok with
  | NONE => None
  | BARE_PATH => Some 0
  | SINGLE_PREFIX_PATH => Some 2
  | DOUBLE_PREFIX_PATH => Some 3
  | COLON_PREFIX_PATH => option_map (fun colon => colon + 1) (strchr tok ":")
  end.

(** The forced-include test of cmaketricks. *)
Definition forced_include (tok : chars) : bool :=
  Ascii.eqb (nth 1 tok NUL) "F"
  && (Ascii.eqb (nth 2 tok NUL) "I" || Ascii.eqb (nth 2 tok NUL) "i").

(** A piece that does not run into the model's iteration bound. *)
Definition bounded_spec : spec := {|
  post := fun _ _ => True;
  fail := fun _ o _ => o <> NoFuel
|}.

(** ** Two hosts

    [grows w w']: the outermost open stream of [w], if there is one, is still
    the outermost in [w'], with more written to it. *)
Definition grows (w w' : world) : Prop :=
  forall d out, last (streams w) = Some (d, out) ->
    exists more, last (streams w') = Some (d, out ++ more).

(** Every piece of cmaketricks leaves the streams below its own alone and
    only adds to the outermost one. *)
Definition stack_spec : spec := {|
  post := fun w w' => names w' = names w /\ grows w w';
  fail := fun w _ w' => (exists st, names w' = st ++ names w) /\ grows w w'
|}.

(** [H'] grants what [H] grants, with the same result. *)
Definition grants_more (H H' : Host) : Prop :=
  (forall p, @writable H p = @writable H' p) /\
  forall p winPath, @wine_get_dos_file_name H p = Some winPath ->
    exists winPath', @wine_get_dos_file_name H' p = Some winPath' /\
      forall n, @WideCharToMultiByte H' winPath' n = @WideCharToMultiByte H winPath n.

(** Started with a stream open, [m'] does what [m] does, or goes on where
    [m] stopped on a refused translation. *)
Definition sim {A} (m m' : M A) : Prop :=
  forall w, streams w <> [] ->
    match m w with
    | Ret a w1 => m' w = Ret a w1 /\ names w1 = names w
    | Stop o w1 =>
        m' w = Stop o w1 \/ (o = Exit 4 /\ grows w1 (world_of (m' w)))
    end.

(** A text that begins with a slash and has no carriage return or line
    feed: what the patterns leave for the translation. *)
Definition slash_path (p : chars) : Prop :=
  exists rest, p = "/" :: rest /\ no_newline rest.

Definition asks_for_slash_paths (e : event) : Prop :=
  match e with
  | Translate p => slash_path p
  | Enter _ _ => True
  end.

(** ** What a run leaves alone

    [frame_spec g_Debug]: a piece returns with the streams it found open;
    the streams it leaves open on top when it stops were opened on
    destinations of files it entered; and a file that is not the
    destination of a file it entered holds what it held. *)
Definition untouched (g_Debug : bool) (new : list event) (w w' : world) : Prop :=
  forall p, (forall q m, Enter q m ∈ new -> p <> cmaketricks.destination g_Debug q) ->
            files w' !! p = files w !! p.

Definition frame_spec (g_Debug : bool) : spec := {|
  post := fun w w' =>
    names w' = names w /\
    exists new, trace w' = trace w ++ new /\ untouched g_Debug new w w';
  fail := fun w _ w' =>
    exists new st, trace w' = trace w ++ new /\ names w' = st ++ names w /\
      (forall d, d ∈ st -> exists q m, Enter q m ∈ new /\ d = cmaketricks.destination g_Debug q) /\
      untouched g_Debug new w w'
|}.

(** The exit codes of [remapFile]. *)
Definition exit_spec : spec := {|
  post := fun _ _ => True;
  fail := fun _ o _ => forall c, o = Exit c -> c = 3%Z \/ c = 4%Z
|}.

(** ** The entry points

    What the programs print on the console is not modelled, nor is
    [g_Quiet], which only silences it.  [loaded] says whether
    [GetProcAddress] found [wine_get_dos_file_name]. *)

(** [for ( int i = 1; i < argc; i += 1 ) { if ( argv[i][0] == '-' ) continue;
    remapFile( argv[i], .. ); }], over the arguments from [argv[1]] on. *)
Fixpoint process_files (remapFile : chars -> M unit) (args : list chars) : M unit :=
  match args with
  | [] => mret tt
  | arg :: rest =>
      (if Ascii.eqb (hd NUL arg) "-" then mret tt else remapFile arg);;
      process_files remapFile rest
  end.

(** A [char*]: where it points, and the text that is found there. *)
Record pointer : Type := Pointer { address : N; text : chars }.

Module cmaketricks_main.
Section Main.
Context `{Host}.
Variable literal : chars -> N.     (* where each string literal of the program is *)
Variable loaded : bool.

(** [std::find( argv, argv+argc, pOption ) != argv+argc]: the elements of
    [argv] are [char*] and [std::find] compares them to [pOption] with
    [==], as pointers. *)
Definition hasArgument (argv : list pointer) (pOption : string) : bool :=
  existsb (fun arg => N.eqb (address arg) (literal (cstr pOption))) argv.

(** [int main( int argc, char **argv )] *)
Definition main (argv : list pointer) : M unit :=
  if Nat.eqb (length argv) 1 then exit 1
  else if hasArgument argv "--help" || hasArgument argv "-h" then mret tt
  else
    let g_Debug := hasArgument argv "--debug" in
    let mode := if hasArgument argv "--pch" then PCH else CMD in
    if loaded
    then process_files (fun pFile => cmaketricks.remapFile g_Debug pFile mode)
                       (text <$> drop 1 argv)
    else exit 2.
End Main.
End cmaketricks_main.

Module cmdfileremap_main.
Section Main.
Context `{Host}.
Variable loaded : bool.

(** [int main( int argc, char **argv )].  With no element in [argv] the
    array ends before [argv[1]]. *)
Definition main (argv : list chars) : M unit :=
  if Nat.eqb (length argv) 1 then exit 1
  else
    match argv !! 1 with
    | None => stop Fault
    | Some arg =>
        if bool_decide (arg = cstr "--help") then mret tt     (* [strcmp] *)
        else if loaded then process_files cmdfileremap.remapFile (drop 1 argv)
        else exit 2
    end.
End Main.
End cmdfileremap_main.

(** The arguments that are taken for files. *)
Definition is_file_argument (arg : chars) : Prop := hd NUL arg <> "-"%char.

(** No element of [argv] points to a string literal of the program: the
    command line and the literals are different objects. *)
Definition apart (literal : chars -> N) (argv : list pointer) : Prop :=
  forall arg pOption, arg ∈ argv -> address arg <> literal pOption.

Global Instance is_file_argument_dec arg : Decision (is_file_argument arg).
Proof. unfold is_file_argument. apply _. Defined.

(** A piece that enters only files that [ok] holds of. *)
Definition enters (ok : chars -> Prop) (e : event) : Prop :=
  match e with
  | Enter pFile _ => ok pFile
  | Translate _ => True
  end.

Definition enters_spec (ok : chars -> Prop) : spec := {|
  post := fun w w' => exists new, trace w' = trace w ++ new /\ Forall (enters ok) new;
  fail := fun w _ w' => exists new, trace w' = trace w ++ new /\ Forall (enters ok) new
|}.

(** ** Command files as the programs write them *)




(** ** A header as a pass in [Mode::PCH] takes it apart *)

(** A run of characters other than space, tab, carriage return and line
    feed, or a carriage return or line feed. *)
Inductive item : Type :=
  | Word (w : chars)
  | Line (c : ascii).

Definition flush (cur : chars) : list item :=
  match cur with
  | [] => []
  | _ => [Word cur]
  end.

(** The words and line ends of a text, up to its terminator; [cur] is the
    word that is being read. *)
Fixpoint items (cur : chars) (s : chars) : list item :=
  match s with
  | [] => flush cur
  | c :: s' =>
      if is_nul c then flush cur
      else if is_blank c then flush cur ++ items [] s'
      else if is_newline c then flush cur ++ Line c :: items [] s'
      else items (cur ++ [c]) s'
  end.

(** A word with a space after it; a line end as it is. *)
Definition shown (it : item) : chars :=
  match it with
  | Word w => w ++ [SPACE]
  | Line c => [c]
  end.

Definition respaced (its : list item) : chars := concat (shown <$> its).

(** The words that a pass in [Mode::PCH] echoes: not the directive, not
    the beginning of a quoted token, and short enough for [tok]. *)
Definition echoed (it : item) : Prop :=
  match it with
  | Word w =>
      hd NUL w <> DQUOTE /\ w <> cstr "#include" /\ (Z.of_nat (length w) < 1023)%Z
  | Line _ => True
  end.

Definition well_formed (it : item) : Prop :=
  match it with
  | Word w => w <> [] /\ Forall (fun c => cmaketricks.bare_cond c = true) w
  | Line c => is_newline c = true
  end.

(** ** The range of [int]

    [pTokenLen] is an [int] in the source.  [pTokenLen - 1] is the exact
    difference for every [int] above [INT_MIN]; at [INT_MIN] the C++
    subtraction overflows and the source gives the program no behaviour. *)
Definition INT_MIN : Z := (- 2 ^ 31)%Z.
Definition INT_MAX : Z := (2 ^ 31 - 1)%Z.

(** ** Text that a text-mode stream leaves alone

    The programs open their files with the modes ["r"] and ["w"], which on
    the C runtime of Windows are text modes: a carriage return before a line
    feed is dropped on reading, one is added before every line feed on
    writing, and Ctrl-Z ends the input.  A text without these characters is
    read and written byte for byte, as [read_file] and [fputs] have it. *)
Definition CTRL_Z : ascii := "026".

Definition same_in_text_mode (c : ascii) : Prop :=
  c <> CR /\ c <> LF /\ c <> CTRL_Z.

(** * Properties *)

(** ** The matcher decides the language *)

Section Regex.
Implicit Types (r : regex) (s u v : chars) (c : ascii).

Lemma lang_cat_inv r1 r2 s :
  lang (Cat r1 r2) s -> exists u v, s = u ++ v /\ lang r1 u /\ lang r2 v.
Proof. inversion 1; subst; eauto. Qed.

Lemma lang_sym_inv p s : lang (Sym p) s -> exists c, s = [c] /\ p c = true.
Proof. inversion 1; subst; eauto. Qed.

Lemma lang_eps_inv s : lang Eps s -> s = [].
Proof. now inversion 1. Qed.

Lemma lang_alt_inv r1 r2 s : lang (Alt r1 r2) s -> lang r1 s \/ lang r2 s.
Proof. inversion 1; subst; auto. Qed.

Lemma nullable_lang r : nullable r = true <-> lang r [].
Proof.
  induction r as [| |p|r1 IH1 r2 IH2|r1 IH1 r2 IH2|r IH]; simpl.
  - split; [discriminate | inversion 1].
  - split; [constructor | reflexivity].
  - split; [discriminate | inversion 1].
  - rewrite andb_true_iff, IH1, IH2. split.
    + intros [H1 H2]. exact (lang_cat _ _ [] [] H1 H2).
    + intros H. apply lang_cat_inv in H as (u & v & E & Hu & Hv).
      symmetry in E. apply app_eq_nil in E as [-> ->]. auto.
  - rewrite orb_true_iff, IH1, IH2. split.
    + intros [H|H]; [apply lang_alt_l | apply lang_alt_r]; exact H.
    + apply lang_alt_inv.
  - split; [constructor | reflexivity].
Qed.

(** A non-empty text of [r*] starts with a non-empty text of [r]. *)
Lemma lang_star_cons_inv r c s :
  lang (Star r) (c :: s) ->
  exists u v, s = u ++ v /\ lang r (c :: u) /\ lang (Star r) v.
Proof.
  intros H. remember (Star r) as r' eqn:Er. remember (c :: s) as t eqn:Et.
  revert Er Et. induction H as [| | | | | |r0 u v Hu _ Hv IHv]; try discriminate.
  intros Er Et. injection Er as ->.
  destruct u as [|c' u'].
  - apply IHv; [reflexivity | exact Et].
  - simpl in Et. injection Et as -> <-. eauto.
Qed.

Lemma deriv_lang c r s : lang (deriv c r) s <-> lang r (c :: s).
Proof.
  revert s. induction r as [| |p|r1 IH1 r2 IH2|r1 IH1 r2 IH2|r IH]; intros s; simpl.
  - split; inversion 1.
  - split; inversion 1.
  - destruct (p c) eqn:Hp; split; intros H.
    + apply lang_eps_inv in H as ->. now constructor.
    + apply lang_sym_inv in H as (c' & E & _). injection E as _ ->. constructor.
    + inversion H.
    + apply lang_sym_inv in H as (c' & E & Hc). injection E as -> _. congruence.
  - assert (Hcat : lang (Cat (deriv c r1) r2) s ->  lang (Cat r1 r2) (c :: s)).
    { intros H. apply lang_cat_inv in H as (u & v & -> & Hu & Hv).
      apply IH1 in Hu. exact (lang_cat _ _ (c :: u) v Hu Hv). }
    assert (Hinv : lang (Cat r1 r2) (c :: s) ->
                   lang (Cat (deriv c r1) r2) s \/ (lang r1 [] /\ lang (deriv c r2) s)).
    { intros H. apply lang_cat_inv in H as (u & v & E & Hu & Hv).
      destruct u as [|c' u'].
      - simpl in E. subst v. right. split; [exact Hu | now apply IH2].
      - simpl in E. injection E as <- ->. left. apply lang_cat; [now apply IH1 | exact Hv]. }
    destruct (nullable r1) eqn:Hn.
    + split.
      * intros H. apply lang_alt_inv in H as [H|H]; [now apply Hcat |].
        apply IH2 in H. apply nullable_lang in Hn. exact (lang_cat _ _ [] _ Hn H).
      * intros H. apply Hinv in H as [H|[_ H]]; [now apply lang_alt_l | now apply lang_alt_r].
    + split; [exact Hcat |].
      intros H. apply Hinv in H as [H|[H _]]; [exact H |].
      apply nullable_lang in H. congruence.
  - split; intros H.
    + apply lang_alt_inv in H as [H|H]; [apply lang_alt_l, IH1 | apply lang_alt_r, IH2]; exact H.
    + apply lang_alt_inv in H as [H|H]; [apply lang_alt_l, IH1 | apply lang_alt_r, IH2]; exact H.
  - split; intros H.
    + apply lang_cat_inv in H as (u & v & -> & Hu & Hv).
      apply IH in Hu. exact (lang_star_app _ (c :: u) v Hu Hv).
    + apply lang_star_cons_inv in H as (u & v & -> & Hu & Hv).
      apply lang_cat; [now apply IH | exact Hv].
Qed.

Theorem regex_match_lang s r : regex_match s r = true <-> lang r s.
Proof.
  unfold regex_match. revert r. induction s as [|c s IH]; intros r; simpl.
  - apply nullable_lang.
  - rewrite IH. apply deriv_lang.
Qed.

Lemma lang_star_sym p s : lang (Star (Sym p)) s <-> Forall (fun c => p c = true) s.
Proof.
  split.
  - induction s as [|c s IH]; intros H; [constructor |].
    apply lang_star_cons_inv in H as (u & v & -> & Hu & Hv).
    apply lang_sym_inv in Hu as (c' & E & Hc). injection E as -> E.
    symmetry in E. subst u. constructor; [exact Hc | now apply IH].
  - induction 1 as [|c s Hc _ IH]; [constructor |].
    exact (lang_star_app _ [c] s (lang_sym _ _ Hc) IH).
Qed.
End Regex.

(** ** The shapes of the texts the patterns match *)

Ltac lang_inv :=
  repeat match goal with
    | H : lang (Cat _ _) _ |- _ => apply lang_cat_inv in H as (? & ? & -> & ? & ?)
    | H : lang (Sym _) _ |- _ => apply lang_sym_inv in H as (? & -> & ?)
    | H : lang Eps _ |- _ => apply lang_eps_inv in H as ->
    | H : lang (Star (Sym _)) _ |- _ => apply lang_star_sym in H
    end.

Section Shapes.
Implicit Types (tok rest : chars) (c : ascii).

Lemma dot_no_newline s :
  Forall (fun c => negb (is_newline c) = true) s -> no_newline s.
Proof.
  intros H. eapply Forall_impl; [exact H |].
  intros c. now rewrite negb_true_iff.
Qed.

Lemma dash_or_slash_inv c :
  (Ascii.eqb c "-" || Ascii.eqb c "/") = true -> c = "-" \/ c = "/".
Proof. rewrite orb_true_iff, !Ascii.eqb_eq. tauto. Qed.

Lemma ONE_PATH_shape tok :
  regex_match tok ONE_PATH = true ->
  exists c0 c1 rest,
    tok = c0 :: c1 :: "/" :: rest /\ (c0 = "-" \/ c0 = "/") /\
    is_alpha c1 = true /\ no_newline rest.
Proof.
  rewrite regex_match_lang. unfold ONE_PATH, dash_or_slash, alpha, chr, dot.
  intros H. lang_inv.
  match goal with H : Ascii.eqb _ _ = true |- _ => apply Ascii.eqb_eq in H; subst end.
  do 3 eexists. split; [reflexivity |].
  auto using dash_or_slash_inv, dot_no_newline.
Qed.

Lemma DUO_PATH_shape tok :
  regex_match tok DUO_PATH = true ->
  exists c0 c1 c2 rest,
    tok = c0 :: c1 :: c2 :: "/" :: rest /\ (c0 = "-" \/ c0 = "/") /\
    is_alpha c1 = true /\ is_alpha c2 = true /\ no_newline rest.
Proof.
  rewrite regex_match_lang. unfold DUO_PATH, dash_or_slash, alpha, chr, dot. simpl rep.
  intros H. lang_inv.
  match goal with H : Ascii.eqb _ _ = true |- _ => apply Ascii.eqb_eq in H; subst end.
  do 4 eexists. split; [reflexivity |].
  auto using dash_or_slash_inv, dot_no_newline.
Qed.

Lemma TRI_PATH_shape tok :
  regex_match tok TRI_PATH = true ->
  exists c0 letters rest,
    tok = c0 :: letters ++ ":" :: "/" :: rest /\ (c0 = "-" \/ c0 = "/") /\
    3 <= length letters /\ Forall (fun c => is_alpha c = true) letters /\
    no_newline rest.
Proof.
  rewrite regex_match_lang.
  unfold TRI_PATH, rep_min, dash_or_slash, alpha, chr, dot. simpl rep.
  intros H. lang_inv.
  repeat match goal with
    | H : Ascii.eqb _ _ = true |- _ => apply Ascii.eqb_eq in H; subst
    end.
  match goal with
  | |- context [[?a] ++ (([?b] ++ [?c] ++ [?d] ++ []) ++ ?l) ++ _] =>
      exists a, (b :: c :: d :: l)
  end.
  eexists. split; [simpl; rewrite <- ?app_assoc; reflexivity |].
  repeat split; auto using dash_or_slash_inv, dot_no_newline.
  simpl. lia.
Qed.

(** No letter, dash or slash is a colon, so the first colon of a
    [TRI_PATH] token is the one of the pattern. *)
Lemma strchr_skip (s t : chars) c :
  Forall (fun x => x <> c) s -> strchr (s ++ c :: t) c = Some (length s).
Proof.
  induction 1 as [|x s Hx _ IH]; simpl.
  - now rewrite Ascii.eqb_refl.
  - apply Ascii.eqb_neq in Hx. rewrite Hx, IH. reflexivity.
Qed.

Lemma TRI_PATH_colon tok :
  regex_match tok TRI_PATH = true ->
  exists colon rest,
    strchr tok ":" = Some colon /\ 4 <= colon /\
    drop (colon + 1) tok = "/" :: rest /\ no_newline rest /\
    nth colon tok NUL = ":".
Proof.
  intros H. apply TRI_PATH_shape in H as (c0 & ls & rest & -> & Hc0 & Hlen & Hls & Hrest).
  exists (S (length ls)), rest.
  assert (Hcolon : strchr (c0 :: ls ++ ":" :: "/" :: rest) ":" = Some (S (length ls))).
  { change (c0 :: ls ++ ":" :: "/" :: rest) with ((c0 :: ls) ++ ":" :: "/" :: rest).
    apply (strchr_skip (c0 :: ls)). constructor.
    - destruct Hc0 as [-> | ->]; discriminate.
    - eapply Forall_impl; [exact Hls |]. intros c Hc ->. discriminate. }
  repeat split; [exact Hcolon | lia | | exact Hrest |].
  - replace (S (length ls) + 1) with (length (c0 :: ls ++ [":"])).
    + change (c0 :: ls ++ ":" :: "/" :: rest) with ((c0 :: ls) ++ [":"] ++ "/" :: rest).
      rewrite (app_assoc (c0 :: ls)). apply drop_app_length.
    + simpl. rewrite length_app. simpl. lia.
  - simpl. rewrite app_nth2, Nat.sub_diag; [reflexivity | lia].
Qed.
End Shapes.

(** ** Scanning *)

Section Scanning.
Implicit Types (cond : ascii -> bool) (s buffer : chars) (p : nat).

Lemma span_le cond s : span cond s <= length s.
Proof. induction s as [|c s IH]; simpl; [lia |]. destruct (cond c); simpl; lia. Qed.

Lemma span_take cond s : Forall (fun c => cond c = true) (take (span cond s) s).
Proof.
  induction s as [|c s IH]; simpl; [constructor |].
  destruct (cond c) eqn:Hc; simpl; [now constructor | constructor].
Qed.

Lemma peek_drop buffer p k : peek buffer (p + k) = nth k (drop p buffer) NUL.
Proof.
  unfold peek. revert buffer. induction p as [|p IH]; intros [|c buffer]; simpl;
    try reflexivity.
  - now destruct k.
  - apply IH.
Qed.

Lemma peek_drop0 buffer p : peek buffer p = nth 0 (drop p buffer) NUL.
Proof. rewrite <- (Nat.add_0_r p) at 1. apply peek_drop. Qed.

(** The loop stops on a character that fails its condition. *)
Lemma span_stop cond s : cond NUL = false -> cond (nth (span cond s) s NUL) = false.
Proof.
  intros Hnul. induction s as [|c s IH]; simpl; [exact Hnul |].
  destruct (cond c) eqn:Hc; simpl; [exact IH | exact Hc].
Qed.

Lemma span_peek cond buffer p :
  cond NUL = false -> cond (peek buffer (p + span cond (drop p buffer))) = false.
Proof. intros Hnul. rewrite peek_drop. now apply span_stop. Qed.

Lemma span_pos cond s :
  cond NUL = false -> cond (nth 0 s NUL) = true -> 1 <= span cond s.
Proof.
  intros Hnul. destruct s as [|c s]; simpl.
  - congruence.
  - intros ->. lia.
Qed.


Lemma peek_lt buffer p : peek buffer p <> NUL -> p < length buffer.
Proof.
  unfold peek. intros H. destruct (Nat.lt_ge_cases p (length buffer)) as [Hlt|Hge];
    [exact Hlt |].
  now rewrite nth_overflow in H.
Qed.

Lemma span_drop_le cond buffer p :
  p <= length buffer -> p + span cond (drop p buffer) <= length buffer.
Proof.
  intros Hp. pose proof (span_le cond (drop p buffer)) as H.
  rewrite length_drop in H. lia.
Qed.


Lemma hd_take_drop buffer p n : hd NUL (take (S n) (drop p buffer)) = peek buffer p.
Proof.
  rewrite <- (Nat.add_0_r p) at 2. rewrite peek_drop.
  now destruct (drop p buffer).
Qed.
End Scanning.

(** ** The tokenizers, case by case *)

Section Token.
Implicit Types (buffer t : chars) (pos next : nat) (cap : Z).

Lemma skip_blanks_stop buffer pos : blank_cond (peek buffer (skip_blanks buffer pos)) = false.
Proof. apply span_peek. reflexivity. Qed.

Lemma skip_blanks_ge buffer pos : pos <= skip_blanks buffer pos.
Proof. unfold skip_blanks. lia. Qed.

Lemma skip_blanks_not_blank buffer pos :
  is_nul (peek buffer (skip_blanks buffer pos)) = false ->
  is_blank (peek buffer (skip_blanks buffer pos)) = false.
Proof.
  intros Hn. pose proof (skip_blanks_stop buffer pos) as H.
  unfold blank_cond in H. rewrite Hn in H. simpl in H.
  now rewrite andb_true_r in H.
Qed.

Lemma is_nul_false c : is_nul c = false -> c <> NUL.
Proof. unfold is_nul. now rewrite Ascii.eqb_neq. Qed.

(** [cmaketricks.token] *)

Lemma cm_token_newline buffer pos cap :
  is_newline (peek buffer (skip_blanks buffer pos)) = true ->
  cmaketricks.token buffer pos cap =
    Tok [peek buffer (skip_blanks buffer pos)] (skip_blanks buffer pos + 1).
Proof. unfold cmaketricks.token. now intros ->. Qed.

Lemma cm_token_quoted buffer pos cap :
  peek buffer (skip_blanks buffer pos) = DQUOTE ->
  let start := skip_blanks buffer pos + 1 in
  let size := span quoted_cond (drop start buffer) in
  cmaketricks.token buffer pos cap =
    if (Z.of_nat size <? cap - 1)%Z then Tok (take size (drop start buffer)) (start + size)
    else TokAbort.
Proof.
  intros Hq. unfold cmaketricks.token. rewrite Hq. simpl.
  rewrite Nat.add_0_r.
  now replace (skip_blanks buffer pos + 1 + _ - (skip_blanks buffer pos + 1))
    with (span quoted_cond (drop (skip_blanks buffer pos + 1) buffer)) by lia.
Qed.

Lemma cm_token_bare buffer pos cap :
  let p := skip_blanks buffer pos in
  is_newline (peek buffer p) = false -> is_nul (peek buffer p) = false ->
  peek buffer p <> DQUOTE ->
  let size := span cmaketricks.bare_cond (drop p buffer) in
  cmaketricks.token buffer pos cap =
    if (Z.of_nat size <? cap - 1)%Z then Tok (take size (drop p buffer)) (p + size)
    else TokAbort.
Proof.
  intros p Hnl Hn Hq size. unfold cmaketricks.token. fold p. rewrite Hnl, Hn.
  apply Ascii.eqb_neq in Hq. rewrite Hq. rewrite Nat.add_0_r.
  now replace (p + span cmaketricks.bare_cond (drop p buffer) - p) with size by (unfold size; lia).
Qed.

Lemma cm_bare_cond_first c :
  is_newline c = false -> is_nul c = false -> is_blank c = false ->
  cmaketricks.bare_cond c = true.
Proof.
  unfold is_newline, is_blank, cmaketricks.bare_cond.
  rewrite !orb_false_iff. intros [-> ->] -> [-> ->]. reflexivity.
Qed.

(** Every token moves the pointer forward and leaves it inside the buffer,
    so the loops of [remapFile] end. *)
Lemma cm_token_progress buffer pos cap t next :
  pos <= length buffer ->
  cmaketricks.token buffer pos cap = Tok t next -> pos < next <= length buffer.
Proof.
  intros Hpos. set (p := skip_blanks buffer pos).
  assert (Hp : pos <= p) by apply skip_blanks_ge.
  assert (Hple : p <= length buffer) by now apply span_drop_le.
  destruct (is_newline (peek buffer p)) eqn:Hnl.
  { rewrite cm_token_newline by exact Hnl. intros [= _ <-]. fold p.
    assert (p < length buffer); [| lia].
    apply peek_lt. intros E. rewrite E in Hnl. discriminate. }
  destruct (is_nul (peek buffer p)) eqn:Hn.
  { unfold cmaketricks.token. fold p. rewrite Hnl, Hn. discriminate. }
  assert (Hlt : p < length buffer) by now apply peek_lt, is_nul_false.
  destruct (ascii_dec (peek buffer p) DQUOTE) as [Hq|Hq].
  - rewrite cm_token_quoted by exact Hq. fold p.
    destruct (_ <? _)%Z; [| discriminate]. intros [= _ <-].
    pose proof (span_drop_le quoted_cond buffer (p + 1)). lia.
  - rewrite cm_token_bare by assumption. fold p.
    destruct (_ <? _)%Z; [| discriminate]. intros [= _ <-].
    pose proof (span_drop_le cmaketricks.bare_cond buffer p Hple).
    assert (1 <= span cmaketricks.bare_cond (drop p buffer)); [| lia].
    apply span_pos; [reflexivity |].
    rewrite <- peek_drop, Nat.add_0_r.
    apply cm_bare_cond_first; [exact Hnl | exact Hn |].
    now apply skip_blanks_not_blank.
Qed.

(** [cmdfileremap.token] *)

Lemma cf_token_quoted buffer pos cap :
  peek buffer (skip_blanks buffer pos) = DQUOTE ->
  let start := skip_blanks buffer pos + 1 in
  let size := span quoted_cond (drop start buffer) in
  cmdfileremap.token buffer pos cap =
    if (Z.of_nat size <? cap - 1)%Z then Tok (take size (drop start buffer)) (start + size)
    else TokAbort.
Proof.
  intros Hq. unfold cmdfileremap.token. rewrite Hq. simpl.
  rewrite Nat.add_0_r.
  now replace (skip_blanks buffer pos + 1 + _ - (skip_blanks buffer pos + 1))
    with (span quoted_cond (drop (skip_blanks buffer pos + 1) buffer)) by lia.
Qed.

Lemma cf_token_bare buffer pos cap :
  let p := skip_blanks buffer pos in
  is_nul (peek buffer p) = false -> peek buffer p <> DQUOTE ->
  let size := span cmdfileremap.bare_cond (drop p buffer) in
  cmdfileremap.token buffer pos cap =
    if (Z.of_nat size <? cap - 1)%Z then Tok (take size (drop p buffer)) (p + size)
    else TokAbort.
Proof.
  intros p Hn Hq size. unfold cmdfileremap.token. fold p. rewrite Hn.
  apply Ascii.eqb_neq in Hq. rewrite Hq. rewrite Nat.add_0_r.
  now replace (p + span cmdfileremap.bare_cond (drop p buffer) - p) with size by (unfold size; lia).
Qed.

Lemma cf_bare_cond_first c :
  is_nul c = false -> is_blank c = false -> cmdfileremap.bare_cond c = true.
Proof.
  unfold is_blank, cmdfileremap.bare_cond.
  rewrite !orb_false_iff. intros -> [-> ->]. reflexivity.
Qed.

Lemma cf_token_progress buffer pos cap t next :
  pos <= length buffer ->
  cmdfileremap.token buffer pos cap = Tok t next -> pos < next <= length buffer.
Proof.
  intros Hpos. set (p := skip_blanks buffer pos).
  assert (Hp : pos <= p) by apply skip_blanks_ge.
  assert (Hple : p <= length buffer) by now apply span_drop_le.
  destruct (is_nul (peek buffer p)) eqn:Hn.
  { unfold cmdfileremap.token. fold p. rewrite Hn. discriminate. }
  assert (Hlt : p < length buffer) by now apply peek_lt, is_nul_false.
  destruct (ascii_dec (peek buffer p) DQUOTE) as [Hq|Hq].
  - rewrite cf_token_quoted by exact Hq. fold p.
    destruct (_ <? _)%Z; [| discriminate]. intros [= _ <-].
    pose proof (span_drop_le quoted_cond buffer (p + 1)). lia.
  - rewrite cf_token_bare by assumption. fold p.
    destruct (_ <? _)%Z; [| discriminate]. intros [= _ <-].
    pose proof (span_drop_le cmdfileremap.bare_cond buffer p Hple).
    assert (1 <= span cmdfileremap.bare_cond (drop p buffer)); [| lia].
    apply span_pos; [reflexivity |].
    rewrite <- peek_drop, Nat.add_0_r.
    apply cf_bare_cond_first; [exact Hn |].
    now apply skip_blanks_not_blank.
Qed.
End Token.

(** ** The consumed run, and the capacity check *)

Section ConsumedRun.
Implicit Types (buffer s run : chars) (pos : nat) (cap : Z) (v : program).

Lemma drop_blanks_span s : drop_blanks s = drop (span blank_cond s) s.
Proof.
  induction s as [|c s IH]; simpl; [reflexivity |].
  unfold blank_cond at 1. destruct (is_blank c) eqn:Hb; simpl.
  - destruct (is_nul c) eqn:Hn; simpl; [| exact IH].
    apply Ascii.eqb_eq in Hn. subst c. discriminate.
  - reflexivity.
Qed.

Lemma drop_blanks_skip buffer pos :
  drop_blanks (drop pos buffer) = drop (skip_blanks buffer pos) buffer.
Proof. rewrite drop_blanks_span. unfold skip_blanks. apply drop_drop. Qed.

Lemma up_to_span stop cond s :
  (forall c, cond c = negb (stop c || is_nul c)) ->
  up_to stop s = take (span cond s) s.
Proof.
  intros Hc. induction s as [|c s IH]; simpl; [reflexivity |].
  rewrite Hc. destruct (stop c || is_nul c); simpl; [reflexivity | now rewrite IH].
Qed.

Lemma length_up_to stop cond s :
  (forall c, cond c = negb (stop c || is_nul c)) ->
  length (up_to stop s) = span cond s.
Proof.
  intros Hc. rewrite (up_to_span stop cond s Hc), length_take.
  pose proof (span_le cond s). lia.
Qed.

Lemma drop_cons_peek buffer p c s :
  drop p buffer = c :: s -> peek buffer p = c /\ drop (p + 1) buffer = s.
Proof.
  intros E. split.
  - rewrite <- (Nat.add_0_r p), peek_drop, E. reflexivity.
  - rewrite <- drop_drop, E. reflexivity.
Qed.

Lemma quoted_cond_spec c :
  quoted_cond c = negb (Ascii.eqb c DQUOTE || is_nul c).
Proof. unfold quoted_cond. now rewrite negb_orb. Qed.

Lemma cm_bare_cond_spec c :
  cmaketricks.bare_cond c = negb (is_blank c || true && is_newline c || is_nul c).
Proof.
  unfold cmaketricks.bare_cond, is_blank, is_newline. simpl.
  destruct (Ascii.eqb c SPACE), (Ascii.eqb c TAB), (is_nul c), (Ascii.eqb c CR),
    (Ascii.eqb c LF); reflexivity.
Qed.

Lemma cf_bare_cond_spec c :
  cmdfileremap.bare_cond c = negb (is_blank c || false && is_newline c || is_nul c).
Proof.
  unfold cmdfileremap.bare_cond, is_blank. simpl.
  destruct (Ascii.eqb c SPACE), (Ascii.eqb c TAB), (is_nul c); reflexivity.
Qed.

(** Both tokenizers compare the length of the consumed run with the
    capacity, and hand the run over whole when it fits. *)
Lemma token_of_run v buffer pos cap run :
  spec_consumed_run v buffer pos = Some run ->
  exists next,
    token_of v buffer pos cap =
      if (Z.of_nat (length run) <? cap - 1)%Z then Tok run next else TokAbort.
Proof.
  unfold spec_consumed_run. rewrite drop_blanks_skip.
  destruct (drop (skip_blanks buffer pos) buffer) as [|c s] eqn:E; [discriminate |].
  destruct (drop_cons_peek _ _ _ _ E) as [Hc Hs].
  destruct (is_nul c) eqn:Hn; [discriminate |].
  destruct (splits_lines v && is_newline c) eqn:Hnl; [discriminate |].
  destruct (Ascii.eqb c DQUOTE) eqn:Hq;
    match goal with |- Some ?u = _ -> _ => set (r := u); intros [= <-]; subst r end.
  - apply Ascii.eqb_eq in Hq. rewrite Hq in Hc.
    rewrite (length_up_to _ quoted_cond) by apply quoted_cond_spec.
    rewrite (up_to_span _ quoted_cond) by apply quoted_cond_spec.
    destruct v; simpl token_of.
    + rewrite cm_token_quoted by exact Hc. rewrite Hs. eauto.
    + rewrite cf_token_quoted by exact Hc. rewrite Hs. eauto.
  - apply Ascii.eqb_neq in Hq. rewrite <- Hc in Hn, Hnl, Hq.
    destruct v; simpl in Hnl; unfold token_of, splits_lines.
    + rewrite (length_up_to _ cmaketricks.bare_cond) by apply cm_bare_cond_spec.
      rewrite (up_to_span _ cmaketricks.bare_cond) by apply cm_bare_cond_spec.
      rewrite cm_token_bare by assumption. rewrite E. eauto.
    + rewrite (length_up_to _ cmdfileremap.bare_cond) by apply cf_bare_cond_spec.
      rewrite (up_to_span _ cmdfileremap.bare_cond) by apply cf_bare_cond_spec.
      rewrite cf_token_bare by assumption. rewrite E. eauto.
Qed.
End ConsumedRun.

(** ** Reasoning about computations *)

Ltac unfold_M :=
  unfold mbind, M_bind, mret, M_ret, bind, ret, exit, stop in *.

Section Sat.
Context (S : spec) `{!Lawful S}.

Lemma sat_ret {A} (a : A) : sat S (mret a).
Proof. intros w. apply post_refl. Qed.

Lemma sat_bind {A B} (m : M A) (k : A -> M B) :
  sat S m -> (forall a, sat S (k a)) -> sat S (m ≫= k).
Proof.
  intros Hm Hk w. unfold_M. specialize (Hm w).
  destruct (m w) as [a w1|o w1]; [| exact Hm].
  specialize (Hk a w1). destruct (k a w1) as [b w2|o w2].
  - eapply post_trans; eassumption.
  - eapply post_fail; eassumption.
Qed.

(** The loops of both programs are built from [fputs], [remap], the three
    abnormal ends and, in cmaketricks, the recursive call; what all of these
    guarantee, the loops guarantee. *)
Context `{Host}.
Hypothesis sat_fputs : forall s, sat S (fputs s).
Hypothesis sat_remap : forall p n, sat S (remap p n).
Hypothesis sat_stop : forall o w, o = Fault \/ o = Abort -> fail S w o w.

Lemma sat_stop_M {A} o : o = Fault \/ o = Abort -> sat S (@stop A o).
Proof. intros Ho w. now apply sat_stop. Qed.

Section Cmaketricks.
Variable remapFile : chars -> Mode -> M unit.
Hypothesis sat_remapFile : forall p, sat S (remapFile p PCH).
Variables (pMode : Mode) (buffer : chars).

Lemma sat_cm_next_token ptr tok : sat S (cmaketricks.next_token buffer ptr tok).
Proof.
  unfold cmaketricks.next_token. destruct ptr as [p|]; [| apply sat_stop_M; auto].
  destruct (cmaketricks.token buffer p cmaketricks.TOKEN_SIZE);
    [apply sat_stop_M; auto | apply sat_ret | apply sat_ret].
Qed.

Lemma sat_cm_body ptr tok : sat S (cmaketricks.body remapFile pMode buffer ptr tok).
Proof.
  unfold cmaketricks.body.
  destruct (Ascii.eqb (hd NUL tok) SPACE); [apply sat_ret |].
  destruct (is_newline (hd NUL tok)).
  { apply sat_bind; [apply sat_fputs | intros; apply sat_ret]. }
  destruct pMode.
  - destruct (bool_decide _).
    + apply sat_bind; [apply sat_fputs | intros _].
      apply sat_bind; [apply sat_cm_next_token | intros [ptr' tok']].
      apply sat_bind; [apply sat_remap | intros path].
      apply sat_bind; [apply sat_fputs | intros; apply sat_ret].
    + apply sat_bind; [apply sat_fputs | intros; apply sat_ret].
  - destruct (classify tok).
    + apply sat_bind; [apply sat_fputs | intros; apply sat_ret].
    + apply sat_bind; [apply sat_remap | intros path].
      apply sat_bind; [apply sat_fputs | intros; apply sat_ret].
    + apply sat_bind; [apply sat_remap | intros path].
      apply sat_bind; [apply sat_fputs | intros; apply sat_ret].
    + apply sat_bind; [apply sat_remap | intros path].
      apply sat_bind; [apply sat_fputs | intros _].
      apply sat_bind; [| intros; apply sat_ret].
      destruct (_ && _); [apply sat_remapFile | apply sat_ret].
    + destruct (strchr tok ":"); [| apply sat_stop_M; auto].
      apply sat_bind; [apply sat_remap | intros path].
      apply sat_bind; [apply sat_fputs | intros; apply sat_ret].
Qed.

Lemma sat_cm_loop fuel ptr tok :
  (forall w, fail S w NoFuel w) ->
  sat S (cmaketricks.loop remapFile pMode buffer fuel ptr tok).
Proof.
  intros Hfuel.
  revert ptr tok. induction fuel as [|fuel IH]; intros ptr tok; simpl.
  - exact Hfuel.
  - apply sat_bind; [apply sat_cm_next_token | intros [[p|] tok']]; [| apply sat_ret].
    apply sat_bind; [apply sat_cm_body | intros [ptr'' tok'']]. apply IH.
Qed.
End Cmaketricks.

Section Cmdfileremap.
Variable buffer : chars.

Lemma sat_cf_body tok : sat S (cmdfileremap.body tok).
Proof.
  unfold cmdfileremap.body. destruct (classify tok).
  - apply sat_bind; [apply sat_fputs | intros; apply sat_ret].
  - apply sat_bind; [apply sat_remap | intros path].
    apply sat_bind; [apply sat_fputs | intros; apply sat_ret].
  - apply sat_bind; [apply sat_remap | intros path].
    apply sat_bind; [apply sat_fputs | intros; apply sat_ret].
  - apply sat_bind; [apply sat_remap | intros path].
    apply sat_bind; [apply sat_fputs | intros; apply sat_ret].
  - destruct (strchr tok ":"); [| apply sat_stop_M; auto].
    destruct (_ <? _)%Z; apply sat_stop_M; auto.
Qed.

Lemma sat_cf_loop fuel ptr :
  (forall w, fail S w NoFuel w) ->
  sat S (cmdfileremap.loop buffer fuel ptr).
Proof.
  intros Hfuel.
  revert ptr. induction fuel as [|fuel IH]; intros ptr; simpl.
  - exact Hfuel.
  - apply sat_bind.
    + unfold cmdfileremap.next_token.
      destruct (cmdfileremap.token buffer ptr 1024);
        [apply sat_stop_M; auto | apply sat_ret | apply sat_ret].
    + intros [[p tok]|]; [| apply sat_ret].
      apply sat_bind; [apply sat_cf_body | intros _; apply IH].
Qed.
End Cmdfileremap.
End Sat.

(** ** What the programs keep *)

Section RunSpec.
Context `{Host}.

Global Instance run_spec_lawful : Lawful run_spec.
Proof.
  split; simpl.
  - intros w. split; [reflexivity |]. exists []. now rewrite app_nil_r.
  - intros w1 w2 w3 [N1 (n1 & T1 & F1)] [N2 (n2 & T2 & F2)].
    split; [congruence |]. exists (n1 ++ n2).
    rewrite T2, T1, app_assoc. split; [reflexivity | now apply Forall_app].
  - intros w1 w2 o w3 [N1 (n1 & T1 & F1)] [(st & N2) (n2 & T2 & F2)].
    split; [exists st; congruence |]. exists (n1 ++ n2).
    rewrite T2, T1, app_assoc. split; [reflexivity |].
    destruct F2 as [[-> (tr & p & -> & Hp & Htr)] | [Ho F2]].
    + left. split; [reflexivity |]. exists (n1 ++ tr), p.
      rewrite app_assoc. repeat split; [exact Hp | now apply Forall_app].
    + right. split; [exact Ho | now apply Forall_app].
Qed.

Lemma run_spec_fputs s : sat run_spec (fputs s).
Proof.
  intros w. unfold fputs, names. destruct (streams w) as [|[name data] rest] eqn:E; simpl.
  - split; [reflexivity |]. exists []. now rewrite app_nil_r.
  - split; [unfold names; simpl; now rewrite E |]. exists []. now rewrite app_nil_r.
Qed.

Lemma run_spec_remap p n : sat run_spec (remap p n).
Proof.
  intros w. unfold remap, log. unfold_M.
  destruct (wine_get_dos_file_name p) as [wp|] eqn:E; simpl.
  - split; [reflexivity |]. exists [Translate p]. split; [reflexivity |].
    constructor; [simpl; congruence | constructor].
  - split; [now exists [] |]. exists [Translate p]. split; [reflexivity |].
    left. split; [reflexivity |]. exists [], p. repeat split; [exact E | constructor].
Qed.

Lemma run_spec_stop o w : o <> Exit 4 -> fail run_spec w o w.
Proof.
  intros Ho. simpl. split; [now exists [] |]. exists [].
  rewrite app_nil_r. split; [reflexivity |]. right. split; [exact Ho | constructor].
Qed.

Lemma run_spec_abnormal o w : o = Fault \/ o = Abort -> fail run_spec w o w.
Proof. intros [-> | ->]; now apply run_spec_stop. Qed.

Lemma run_spec_nofuel w : fail run_spec w NoFuel w.
Proof. now apply run_spec_stop. Qed.

(** One pass over a file: as [run_spec] says, and moreover its own stream,
    opened on the destination, is still open when a translation is refused
    inside it. *)
Lemma cm_remapFile_body_cases g_Debug (remapFile : chars -> Mode -> M unit) pFile pMode w :
  (forall p, sat run_spec (remapFile p PCH)) ->
  match cmaketricks.remapFile_body g_Debug remapFile pFile pMode w with
  | Ret _ w' =>
      names w' = names w /\
      exists new, trace w' = trace w ++ Enter pFile pMode :: new /\ Forall ok_event new
  | Stop o w' =>
      exists new, trace w' = trace w ++ Enter pFile pMode :: new /\
        ((o = Exit 4 /\ failed_at new /\
          exists st, names w' = st ++ cmaketricks.destination g_Debug pFile :: names w)
         \/ (o <> Exit 4 /\ Forall ok_event new /\ exists st, names w' = st ++ names w))
  end.
Proof.
  intros Hrf. unfold cmaketricks.remapFile_body, log, read_file, fopen_w. unfold_M.
  cbn [files streams trace].
  destruct (files w !! pFile) as [buffer|].
  2:{ exists []. split; [reflexivity |]. right.
      repeat split; [discriminate | constructor | now exists []]. }
  destruct (writable _).
  2:{ exists []. split; [reflexivity |]. right.
      repeat split; [discriminate | constructor | now exists []]. }
  set (d := cmaketricks.destination g_Debug pFile).
  set (w2 := World _ ((d, []) :: _) _).
  pose proof (sat_cm_loop run_spec run_spec_fputs run_spec_remap run_spec_abnormal
                remapFile Hrf pMode buffer (Datatypes.S (length buffer)) (Some 0) []
                run_spec_nofuel w2) as Hl.
  destruct (cmaketricks.loop _ _ _ _ _ _ w2) as [[] w3|o w3].
  - destruct Hl as [N (new & T & F)].
    unfold fclose. unfold names in N. simpl in N.
    destruct (streams w3) as [|[name data] rest] eqn:E; simpl in N; [discriminate |].
    injection N as -> N. split; [unfold names; simpl; exact N |].
    simpl. exists new. simpl in T. rewrite T, <- app_assoc. now split.
  - destruct Hl as [(st & N) (new & T & F)]. simpl in T.
    exists new. rewrite T, <- app_assoc. split; [reflexivity |].
    destruct F as [[-> Hf] | [Ho F]].
    + left. repeat split; [exact Hf |]. exists st. exact N.
    + right. repeat split; [exact Ho | exact F |].
      exists (st ++ [d]). rewrite N. unfold names. simpl. now rewrite <- app_assoc.
Qed.

Lemma run_spec_cm_body g_Debug (remapFile : chars -> Mode -> M unit) pFile pMode :
  (forall p, sat run_spec (remapFile p PCH)) ->
  sat run_spec (cmaketricks.remapFile_body g_Debug remapFile pFile pMode).
Proof.
  intros Hrf w. pose proof (cm_remapFile_body_cases g_Debug remapFile pFile pMode w Hrf) as Hc.
  destruct (cmaketricks.remapFile_body _ _ _ _ w) as [[] w'|o w']; simpl.
  - destruct Hc as [N (new & T & F)]. split; [exact N |].
    exists (Enter pFile pMode :: new). split; [exact T | now constructor].
  - destruct Hc as (new & T & [(-> & (tr & p & -> & Hp & Htr) & (st & N)) | (Ho & F & (st & N))]).
    + split.
      * exists (st ++ [cmaketricks.destination g_Debug pFile]). now rewrite <- app_assoc.
      * exists (Enter pFile pMode :: tr ++ [Translate p]). split; [exact T |].
        left. split; [reflexivity |]. exists (Enter pFile pMode :: tr), p.
        repeat split; [exact Hp | now constructor].
    + split; [now exists st |].
      exists (Enter pFile pMode :: new). split; [exact T |].
      right. split; [exact Ho | now constructor].
Qed.

Lemma run_spec_cm_remapFile_at g_Debug depth pFile pMode :
  sat run_spec (cmaketricks.remapFile_at g_Debug depth pFile pMode).
Proof.
  revert pFile pMode. induction depth as [|depth IH]; intros pFile pMode; simpl.
  - intros w. now apply run_spec_stop.
  - apply run_spec_cm_body. intros p. apply IH.
Qed.
End RunSpec.

(** ** The files an exit leaves *)

Section Exit.
Lemma names_bottom w st d :
  names w = st ++ [d] -> exists inner out, streams w = inner ++ [(d, out)].
Proof.
  unfold names. intros E.
  destruct (streams w) as [|s ss _] using rev_ind.
  - destruct st; discriminate.
  - rewrite fmap_app in E. simpl in E. apply app_inj_tail in E as [_ E].
    destruct s as [d' out]. simpl in E. subst d'. eauto.
Qed.

Lemma at_exit_bottom w inner d out :
  streams w = inner ++ [(d, out)] -> files (at_exit w) !! d = Some out.
Proof.
  intros E. unfold at_exit. simpl. rewrite E, foldl_app. simpl.
  apply lookup_insert_eq.
Qed.
End Exit.

(** ** C3: where a quoted token leaves the pointer *)

Lemma skip_blanks_fixed buffer p :
  is_blank (peek buffer p) = false -> skip_blanks buffer p = p.
Proof.
  intros Hb. unfold skip_blanks.
  assert (E : span blank_cond (drop p buffer) = 0); [| lia].
  rewrite <- (Nat.add_0_r p), peek_drop in Hb.
  destruct (drop p buffer) as [|c s]; [reflexivity |].
  simpl in *. unfold blank_cond. now rewrite Hb.
Qed.

Lemma token_of_quoted v buffer pos cap :
  peek buffer (skip_blanks buffer pos) = DQUOTE ->
  let start := skip_blanks buffer pos + 1 in
  let size := span quoted_cond (drop start buffer) in
  token_of v buffer pos cap =
    if (Z.of_nat size <? cap - 1)%Z then Tok (take size (drop start buffer)) (start + size)
    else TokAbort.
Proof. destruct v; [apply cm_token_quoted | apply cf_token_quoted]. Qed.

(** C3 does not hold of either tokenizer: [offset] stays 0, so after a quoted
    token the returned pointer is where the scan stopped.  With a closing
    quote present that is the closing quote itself, and the next call takes
    it for an opening one. *)
Theorem C3_quoted_token_leaves_cursor_on_closing_quote
    (v : program) buffer pos cap t next :
  peek buffer (skip_blanks buffer pos) = DQUOTE ->
  token_of v buffer pos cap = Tok t next ->
  peek buffer next = DQUOTE ->
  next = skip_blanks buffer pos + 1 + length t /\
  forall cap',
    let size := span quoted_cond (drop (next + 1) buffer) in
    token_of v buffer next cap' =
      if (Z.of_nat size <? cap' - 1)%Z
      then Tok (take size (drop (next + 1) buffer)) (next + 1 + size)
      else TokAbort.
Proof.
  intros Hq Ht Hclose. rewrite token_of_quoted in Ht by exact Hq.
  destruct (_ <? _)%Z; [| discriminate]. injection Ht as <- <-.
  split.
  - rewrite length_take.
    pose proof (span_le quoted_cond (drop (skip_blanks buffer pos + 1) buffer)). lia.
  - intros cap'.
    set (next := skip_blanks buffer pos + 1 + _) in *.
    assert (Hfix : skip_blanks buffer next = next).
    { apply skip_blanks_fixed. now rewrite Hclose. }
    pose proof (token_of_quoted v buffer next cap') as Hn.
    rewrite Hfix in Hn. now apply Hn.
Qed.

Lemma C3_witness :
  let buffer := cstr (in_quotes "a" ++ " b") in
  (peek buffer (skip_blanks buffer 0) = DQUOTE /\
   token_of Cmaketricks buffer 0 1024 = Tok (cstr "a") 2 /\
   peek buffer 2 = DQUOTE) /\
  2 = skip_blanks buffer 0 + 1 + length (cstr "a") /\
  forall cap',
    let size := span quoted_cond (drop (2 + 1) buffer) in
    token_of Cmaketricks buffer 2 cap' =
      if (Z.of_nat size <? cap' - 1)%Z
      then Tok (take size (drop (2 + 1) buffer)) (2 + 1 + size)
      else TokAbort.
Proof.
  intros buffer. split; [repeat split |].
  apply (C3_quoted_token_leaves_cursor_on_closing_quote
           Cmaketricks buffer 0 1024 (cstr "a") 2); reflexivity.
Defined.

(** The two calls on a quoted token followed by a bare one: the second call
    starts on the closing quote and returns the bare token's text, with the
    space before it, as another quoted token. *)
Example quoted_then_bare :
  let buffer := cstr (in_quotes "a" ++ " b") in
  cmaketricks.token buffer 0 1024 = Tok (cstr "a") 2 /\
  cmaketricks.token buffer 2 1024 = Tok (cstr " b") 5 /\
  cmdfileremap.token buffer 0 1024 = Tok (cstr "a") 2 /\
  cmdfileremap.token buffer 2 1024 = Tok (cstr " b") 5.
Proof. repeat split. Qed.

(** ** C4: the two tokenizers *)






(** The two cases beyond the first: a line feed that stands alone, and a run
    that both programs find too long although they end it differently. *)
Example tokenizers_agree_beyond_newline_free_runs :
  cmdfileremap.token ["a"; SPACE; LF; SPACE; "b"] 1 1024 = Tok [LF] 3 /\
  cmaketricks.token ["a"; SPACE; LF; SPACE; "b"] 1 1024 = Tok [LF] 3 /\
  cmdfileremap.token ["a"; "b"; "c"; LF; "d"] 0 4 = TokAbort /\
  cmaketricks.token ["a"; "b"; "c"; LF; "d"] 0 4 = TokAbort.
Proof. repeat split. Qed.

(** ** One token in command-file mode *)

Section CommandToken.
Context `{Host}.
Implicit Types (tok : chars) (w : world).

Lemma JUS_PATH_hd tok : regex_match tok JUS_PATH = true -> hd NUL tok = "/".
Proof.
  rewrite regex_match_lang. unfold JUS_PATH, plus, chr, dot. intros Hl.
  apply lang_cat_inv in Hl as (u & v & -> & Hu & _).
  apply lang_sym_inv in Hu as (c & -> & Hc). apply Ascii.eqb_eq in Hc. now subst c.
Qed.

Lemma classify_hd tok :
  classify tok <> NONE -> hd NUL tok = "-" \/ hd NUL tok = "/".
Proof.
  unfold classify.
  destruct (regex_match tok ONE_PATH) eqn:H1.
  { apply ONE_PATH_shape in H1 as (c0 & c1 & rest & -> & Hc & _). now intros _. }
  destruct (regex_match tok DUO_PATH) eqn:H2.
  { apply DUO_PATH_shape in H2 as (c0 & c1 & c2 & rest & -> & Hc & _). now intros _. }
  destruct (regex_match tok TRI_PATH) eqn:H3.
  { apply TRI_PATH_shape in H3 as (c0 & ls & rest & -> & Hc & _). now intros _. }
  destruct (regex_match tok JUS_PATH) eqn:H4; [| congruence].
  intros _. right. now apply JUS_PATH_hd.
Qed.

Lemma option_prefix_not_skipped c :
  c = "-" \/ c = "/" -> Ascii.eqb c SPACE = false /\ is_newline c = false.
Proof. intros [-> | ->]; split; reflexivity. Qed.

Lemma classify_path_offset tok :
  classify tok <> NONE -> exists k, path_offset tok = Some k.
Proof.
  unfold path_offset. destruct (classify tok) eqn:Hc; try (intros _; eauto; fail).
  - congruence.
  - intros _. unfold classify in Hc.
    destruct (regex_match tok ONE_PATH); [discriminate |].
    destruct (regex_match tok DUO_PATH); [discriminate |].
    destruct (regex_match tok TRI_PATH) eqn:H3.
    + apply TRI_PATH_colon in H3 as (colon & rest & -> & _). simpl. eauto.
    + destruct (regex_match tok JUS_PATH); discriminate.
Qed.

(** In [Mode::CMD], a token of a pattern class has its path, from the
    class's offset on, translated in place, and is written once, whole,
    between double quotes and followed by one space.  The recursive call
    for a forced include comes after that. *)
Lemma cm_cmd_token (remapFile : chars -> Mode -> M unit) buffer ptr tok k winPath w d out rest :
  path_offset tok = Some k ->
  wine_get_dos_file_name (drop k tok) = Some winPath ->
  streams w = (d, out) :: rest ->
  let path := WideCharToMultiByte winPath cmaketricks.TOKEN_SIZE in
  let tok' := take k tok ++ path in
  let w1 := World (files w) ((d, out ++ quoted tok' ++ [SPACE]) :: rest)
                  (trace w ++ [Translate (drop k tok)]) in
  cmaketricks.body remapFile CMD buffer ptr tok w =
    ((if bool_decide (classify tok = DOUBLE_PREFIX_PATH) && forced_include tok'
      then remapFile (drop 3 tok') PCH else mret tt);;
     mret (ptr, tok')) w1.
Proof.
  intros Hk Hw Hs path tok' w1.
  assert (Hcl : classify tok <> NONE).
  { intros E. unfold path_offset in Hk. now rewrite E in Hk. }
  destruct (option_prefix_not_skipped _ (classify_hd tok Hcl)) as [Hsp Hnl].
  unfold cmaketricks.body. rewrite Hsp, Hnl.
  unfold path_offset in Hk. subst w1 tok' path.
  destruct (classify tok) eqn:Hc; simpl in Hk; try discriminate.
  - injection Hk as <-. rewrite drop_0 in Hw. rewrite drop_0.
    unfold remap, log, fputs. unfold_M. simpl. now rewrite Hw, Hs.
  - injection Hk as <-.
    unfold remap, log, fputs. unfold_M. simpl. now rewrite Hw, Hs.
  - injection Hk as <-.
    unfold remap, log, fputs, forced_include. unfold_M. cbn [files streams trace].
    rewrite Hw. cbn [files streams trace]. rewrite Hs.
    now destruct (_ && _).
  - destruct (strchr tok ":") as [colon|]; [| discriminate]. simpl in Hk.
    injection Hk as <-.
    unfold remap, log, fputs. unfold_M. simpl. now rewrite Hw, Hs.
Qed.
End CommandToken.

(** ** C8: the capacity check *)

(** C8 as stated fails at the end of a line in cmaketricks: a carriage
    return or line feed is returned as a token of one character from the
    branch that comes before the check, whatever the capacity, also a
    capacity of 2, for which the claim has the call fail, and of 1, which
    has no room for the character and its terminator. *)
Lemma C8_counterexample :
  cmaketricks.token [LF] 0 2 = Tok [LF] 1 /\
  cmaketricks.token [LF] 0 1 = Tok [LF] 1 /\
  (2 - 1 <= Z.of_nat (length [LF]))%Z /\
  ~ (forall v buffer pos cap t next,
       token_of v buffer pos cap = Tok t next -> (Z.of_nat (length t) < cap - 1)%Z).
Proof.
  split; [reflexivity | split; [reflexivity | split; [simpl; lia |]]].
  intros Hall. specialize (Hall Cmaketricks [LF] 0 2%Z [LF] 1 eq_refl).
  simpl in Hall. lia.
Qed.

(** C8, as the programs have it, for every buffer and every capacity for
    which [capacity - 1] is defined.  When the call consumes a run, quoted
    or bare, it stops the program if the run is at least [capacity - 1]
    characters long and hands over the whole run otherwise; in the loops of
    [remapFile] the stop comes before anything is written for that token:
    the world is as the previous tokens left it.  When it consumes none it
    reports the end of the buffer, or it is the call of cmaketricks on a
    carriage return or line feed, which returns that character without a
    check. *)
Theorem C8_overlong_run_is_fatal (v : program) buffer pos cap :
  (INT_MIN < cap <= INT_MAX)%Z ->
  let p := skip_blanks buffer pos in
  match spec_consumed_run v buffer pos with
  | Some run =>
      ((cap - 1 <= Z.of_nat (length run))%Z -> token_of v buffer pos cap = TokAbort) /\
      ((Z.of_nat (length run) < cap - 1)%Z ->
       exists next, token_of v buffer pos cap = Tok run next) /\
      ((cmaketricks.TOKEN_SIZE - 1 <= Z.of_nat (length run))%Z ->
       forall (H : Host) fuel w,
         match v with
         | Cmaketricks =>
             forall remapFile pMode tok,
               cmaketricks.loop remapFile pMode buffer (S fuel) (Some pos) tok w
               = Stop Abort w
         | Cmdfileremap =>
             cmdfileremap.loop buffer (S fuel) pos w = Stop Abort w
         end)
  | None =>
      token_of v buffer pos cap = TokEnd \/
      (v = Cmaketricks /\ is_newline (peek buffer p) = true /\
       token_of v buffer pos cap = Tok [peek buffer p] (p + 1))
  end.
Proof.
  intros _ p. destruct (spec_consumed_run v buffer pos) as [run|] eqn:Hrun.
  - assert (Habort : forall cap, (cap - 1 <= Z.of_nat (length run))%Z ->
                                 token_of v buffer pos cap = TokAbort).
    { intros c Hc. destruct (token_of_run v buffer pos c run Hrun) as (next & ->).
      destruct (Z.ltb_spec (Z.of_nat (length run)) (c - 1)); [lia | reflexivity]. }
    split; [apply Habort | split].
    + intros Hc. destruct (token_of_run v buffer pos cap run Hrun) as (next & ->).
      exists next.
      destruct (Z.ltb_spec (Z.of_nat (length run)) (cap - 1)); [reflexivity | lia].
    + intros Hc H fuel w. specialize (Habort _ Hc).
      destruct v; simpl in Habort.
      * intros remapFile pMode tok. simpl. unfold cmaketricks.next_token. unfold_M.
        now rewrite Habort.
      * simpl. unfold cmdfileremap.next_token. unfold_M.
        change 1024%Z with cmaketricks.TOKEN_SIZE. now rewrite Habort.
  - unfold spec_consumed_run in Hrun. rewrite drop_blanks_skip in Hrun. fold p in Hrun.
    assert (Hend : is_nul (peek buffer p) = true -> token_of v buffer pos cap = TokEnd).
    { intros Hn. apply Ascii.eqb_eq in Hn.
      destruct v; simpl; [unfold cmaketricks.token | unfold cmdfileremap.token];
        fold p; now rewrite Hn. }
    destruct (drop p buffer) as [|c s] eqn:Ed.
    { left. apply Hend. now rewrite peek_drop0, Ed. }
    destruct (drop_cons_peek _ _ _ _ Ed) as [Hc _].
    destruct (is_nul c) eqn:Hn; [left; apply Hend; now rewrite Hc |].
    destruct (splits_lines v && is_newline c) eqn:Hnl.
    + right. apply andb_true_iff in Hnl as [Hv Hl]. rewrite <- Hc in Hl.
      destruct v; [| discriminate]. split; [reflexivity |]. split; [exact Hl |].
      simpl. now apply cm_token_newline.
    + destruct (Ascii.eqb c DQUOTE); discriminate.
Qed.

Lemma C8_witness :
  (token_of Cmaketricks (cstr "  abcd efg") 0 5 = TokAbort /\
   exists next, token_of Cmaketricks (cstr "  abcd efg") 0 6 = Tok (cstr "abcd") next) /\
  (token_of Cmaketricks [SPACE; LF; "a"] 0 2 = TokEnd \/
   Cmaketricks = Cmaketricks /\ is_newline LF = true /\
   token_of Cmaketricks [SPACE; LF; "a"] 0 2 = Tok [LF] 2).
Proof.
  assert (H5 : (INT_MIN < 5 <= INT_MAX)%Z) by (unfold INT_MIN, INT_MAX; lia).
  assert (H6 : (INT_MIN < 6 <= INT_MAX)%Z) by (unfold INT_MIN, INT_MAX; lia).
  assert (H2 : (INT_MIN < 2 <= INT_MAX)%Z) by (unfold INT_MIN, INT_MAX; lia).
  split; [split |].
  - apply (C8_overlong_run_is_fatal Cmaketricks (cstr "  abcd efg") 0 5 H5).
    simpl. lia.
  - apply (C8_overlong_run_is_fatal Cmaketricks (cstr "  abcd efg") 0 6 H6).
    simpl. lia.
  - exact (C8_overlong_run_is_fatal Cmaketricks [SPACE; LF; "a"] 0 2 H2).
Defined.

(** ** C10: tokens that begin with a space *)

(** C10 as stated fails for the token after [#include]: it is fetched inside
    the loop body, past the test for a leading space, and is translated and
    written like any other. *)
Lemma C10_counterexample :
  let text := ("#include " ++ in_quotes " x")%string in
  let r := run (cmaketricks.remapFile (H := demo_host) false (cstr "f") PCH)
               (one_file "f" text) in
  cmaketricks.token (cstr text) 8 1024 = Tok (cstr " x") 12 /\
  r.1 = None /\
  trace r.2 = [Enter (cstr "f") PCH; Translate (cstr " x")] /\
  files r.2 !! cstr "f" = Some (cstr ("#include " ++ in_quotes "Z: x" ++ " ")).
Proof. vm_compute. repeat split. Qed.

(** C10, as the program has it.  A token that [token] hands to the loop
    condition and that begins with a space is passed over in both modes:
    nothing is written, nothing is translated, the world is unchanged.  Only
    a quoted token can begin with a space. *)
Theorem C10_leading_space_token_is_passed_over tok :
  hd NUL tok = SPACE ->
  (forall (H : Host) remapFile pMode buffer ptr w,
     cmaketricks.body remapFile pMode buffer ptr tok w = Ret (ptr, tok) w) /\
  (forall buffer pos cap next,
     cmaketricks.token buffer pos cap = Tok tok next ->
     peek buffer (skip_blanks buffer pos) = DQUOTE).
Proof.
  intros Hsp. split.
  - intros H remapFile pMode buffer ptr w. unfold cmaketricks.body. now rewrite Hsp.
  - intros buffer pos cap next. set (p := skip_blanks buffer pos).
    destruct (is_newline (peek buffer p)) eqn:Hnl.
    { rewrite cm_token_newline by exact Hnl. intros [= <- _]. simpl in Hsp.
      fold p in Hsp. rewrite Hsp in Hnl. discriminate. }
    destruct (is_nul (peek buffer p)) eqn:Hn.
    { unfold cmaketricks.token. fold p. rewrite Hnl, Hn. discriminate. }
    destruct (ascii_dec (peek buffer p) DQUOTE) as [Hq|Hq]; [now intros _ |].
    rewrite cm_token_bare by assumption. fold p.
    destruct (_ <? _)%Z; [| discriminate]. intros [= <- _]. exfalso.
    assert (Hb : is_blank (peek buffer p) = false) by now apply skip_blanks_not_blank.
    assert (Hpos : 1 <= span cmaketricks.bare_cond (drop p buffer)).
    { apply span_pos; [reflexivity |]. rewrite <- peek_drop0.
      now apply cm_bare_cond_first. }
    destruct (span cmaketricks.bare_cond (drop p buffer)) as [|n]; [lia |].
    rewrite hd_take_drop in Hsp. rewrite Hsp in Hb. discriminate.
Qed.

Lemma C10_witness :
  hd NUL (cstr " x") = SPACE /\
  (forall (H : Host) remapFile pMode buffer ptr w,
     cmaketricks.body remapFile pMode buffer ptr (cstr " x") w = Ret (ptr, cstr " x") w) /\
  (forall buffer pos cap next,
     cmaketricks.token buffer pos cap = Tok (cstr " x") next ->
     peek buffer (skip_blanks buffer pos) = DQUOTE).
Proof.
  split; [reflexivity |].
  apply (C10_leading_space_token_is_passed_over (cstr " x")). reflexivity.
Defined.

(** ** C6 and C9: [#include] in precompiled-header mode *)

Section Include.
Context `{Host}.
Variables (remapFile : chars -> Mode -> M unit) (buffer : chars).

(** The branch for [#include]: the directive is written as it is, then the
    next token is fetched and handed to [remap] whole. *)
Lemma cm_pch_include ptr w d out rest :
  streams w = (d, out) :: rest ->
  cmaketricks.body remapFile PCH buffer ptr (cstr "#include") w =
    ('(ptr', tok') ← cmaketricks.next_token buffer ptr (cstr "#include");
     path ← remap tok' cmaketricks.TOKEN_SIZE;
     fputs (SPACE :: quoted path);; mret (ptr', path))
      (World (files w) ((d, out ++ cstr "#include") :: rest) (trace w)).
Proof.
  intros Hs. unfold cmaketricks.body. change (hd NUL (cstr "#include")) with "#".
  change (Ascii.eqb "#" SPACE) with false. change (is_newline "#") with false.
  cbv iota. rewrite bool_decide_eq_true_2 by reflexivity.
  unfold mbind, M_bind. unfold bind at 1. unfold fputs at 1. now rewrite Hs.
Qed.

Lemma remap_fputs tok w d out rest ptr :
  streams w = (d, out) :: rest ->
  (path ← remap tok cmaketricks.TOKEN_SIZE;
   fputs (SPACE :: quoted path);; mret (ptr, path)) w =
    match wine_get_dos_file_name tok with
    | Some winPath =>
        let path := WideCharToMultiByte winPath cmaketricks.TOKEN_SIZE in
        Ret (ptr : option nat, path)
            (World (files w) ((d, out ++ SPACE :: quoted path) :: rest)
                   (trace w ++ [Translate tok]))
    | None => Stop (Exit 4) (World (files w) ((d, out) :: rest) (trace w ++ [Translate tok]))
    end.
Proof.
  intros Hs. unfold remap, log, fputs. unfold_M. cbn [files streams trace].
  destruct (wine_get_dos_file_name tok); cbn [files streams trace]; now rewrite Hs.
Qed.
End Include.

(** C6.  In [Mode::PCH] the token [#include] is written as it is, without
    quotes; the next token, whatever it is, is fetched, handed whole to the
    translation, and written after one space between double quotes, with
    nothing after the closing quote.  When the translation is refused the
    run stops with exit code 4 after the directive has been written. *)
Theorem C6_include_takes_the_next_token `{Host} remapFile buffer p tgt p' w d out rest :
  streams w = (d, out) :: rest ->
  cmaketricks.token buffer p cmaketricks.TOKEN_SIZE = Tok tgt p' ->
  cmaketricks.body remapFile PCH buffer (Some p) (cstr "#include") w =
    match wine_get_dos_file_name tgt with
    | Some winPath =>
        let path := WideCharToMultiByte winPath cmaketricks.TOKEN_SIZE in
        Ret (Some p', path)
            (World (files w)
                   ((d, (out ++ cstr "#include") ++ SPACE :: DQUOTE :: path ++ [DQUOTE]) :: rest)
                   (trace w ++ [Translate tgt]))
    | None =>
        Stop (Exit 4)
             (World (files w) ((d, out ++ cstr "#include") :: rest)
                    (trace w ++ [Translate tgt]))
    end.
Proof.
  intros Hs Ht. rewrite (cm_pch_include _ _ _ _ _ _ _ Hs).
  unfold cmaketricks.next_token. rewrite Ht.
  change (?m ≫= ?k) with (bind m k). unfold bind at 1. unfold mret at 1, M_ret, ret.
  now rewrite (remap_fputs tgt _ d (out ++ cstr "#include") rest).
Qed.

Lemma C6_witness :
  let buffer := cstr "#include /usr/include/foo.h" in
  let w := World ∅ [(cstr "f", [])] [] in
  (streams w = [(cstr "f", [])] /\
   cmaketricks.token buffer 8 cmaketricks.TOKEN_SIZE = Tok (cstr "/usr/include/foo.h") 27) /\
  cmaketricks.body (H := demo_host) (fun _ _ => mret tt) PCH buffer (Some 8) (cstr "#include") w =
    Ret (Some 27, cstr "Z:/usr/include/foo.h")
        (World ∅ [(cstr "f", cstr ("#include " ++ in_quotes "Z:/usr/include/foo.h"))]
               [Translate (cstr "/usr/include/foo.h")]).
Proof.
  intros buffer w. split; [split; reflexivity |].
  exact (C6_include_takes_the_next_token (H := demo_host) (fun _ _ => mret tt) buffer 8
           (cstr "/usr/include/foo.h") 27 w (cstr "f") [] [] eq_refl eq_refl).
Defined.

(** C9.  When [#include] is the last token of the file, the fetch of its
    target finds the end of the buffer and leaves [tok] as it was: the text
    handed to the translation is [#include] itself.  If that is translated,
    the result is written between quotes and the loop condition then calls
    [token] on the null pointer; if it is refused the run stops with exit
    code 4. *)
Theorem C9_include_as_last_token `{Host} remapFile buffer p p' fuel tok0 w d out rest :
  streams w = (d, out) :: rest ->
  cmaketricks.token buffer p cmaketricks.TOKEN_SIZE = Tok (cstr "#include") p' ->
  cmaketricks.token buffer p' cmaketricks.TOKEN_SIZE = TokEnd ->
  cmaketricks.loop remapFile PCH buffer (S (S fuel)) (Some p) tok0 w =
    match wine_get_dos_file_name (cstr "#include") with
    | Some winPath =>
        let path := WideCharToMultiByte winPath cmaketricks.TOKEN_SIZE in
        Stop Fault
             (World (files w)
                    ((d, (out ++ cstr "#include") ++ SPACE :: DQUOTE :: path ++ [DQUOTE]) :: rest)
                    (trace w ++ [Translate (cstr "#include")]))
    | None =>
        Stop (Exit 4)
             (World (files w) ((d, out ++ cstr "#include") :: rest)
                    (trace w ++ [Translate (cstr "#include")]))
    end.
Proof.
  intros Hs Ht Hend.
  change (cmaketricks.loop remapFile PCH buffer (S (S fuel)) (Some p) tok0 w)
    with (bind (cmaketricks.next_token buffer (Some p) tok0)
            (fun '(ptr, tok) =>
               match ptr with
               | None => mret tt
               | Some _ =>
                   bind (cmaketricks.body remapFile PCH buffer ptr tok)
                        (fun '(ptr, tok) => cmaketricks.loop remapFile PCH buffer (S fuel) ptr tok)
               end) w).
  unfold bind at 1. unfold cmaketricks.next_token at 1. rewrite Ht.
  unfold mret at 1, M_ret, ret. unfold bind at 1.
  rewrite (cm_pch_include _ _ _ _ _ _ _ Hs).
  unfold cmaketricks.next_token at 1. rewrite Hend.
  change (?m ≫= ?k) with (bind m k). unfold bind at 1. unfold mret at 1, M_ret, ret.
  rewrite (remap_fputs (cstr "#include") _ d (out ++ cstr "#include") rest) by reflexivity.
  destruct (wine_get_dos_file_name (cstr "#include")); reflexivity.
Qed.

Lemma C9_witness :
  let buffer := cstr "x #include" in
  let w := World ∅ [(cstr "f", cstr "x ")] [] in
  (streams w = [(cstr "f", cstr "x ")] /\
   cmaketricks.token buffer 1 cmaketricks.TOKEN_SIZE = Tok (cstr "#include") 10 /\
   cmaketricks.token buffer 10 cmaketricks.TOKEN_SIZE = TokEnd) /\
  cmaketricks.loop (H := demo_host) (fun _ _ => mret tt) PCH buffer 2 (Some 1) (cstr "x") w =
    Stop Fault (World ∅ [(cstr "f", cstr ("x #include " ++ in_quotes "Z:#include"))]
                      [Translate (cstr "#include")]).
Proof.
  intros buffer w. split; [repeat split |].
  exact (C9_include_as_last_token (H := demo_host) (fun _ _ => mret tt) buffer 1 10 0
           (cstr "x") w (cstr "f") (cstr "x ") [] eq_refl eq_refl eq_refl).
Defined.

(** The same on a whole file: the run ends in the fault, and nothing is
    known to have reached the file, which was emptied when it was opened. *)
Example include_alone_in_a_file :
  let r := run (cmaketricks.remapFile (H := demo_host) false (cstr "f") PCH)
               (one_file "f" "#include") in
  r.1 = Some Fault /\
  files r.2 !! cstr "f" = Some [] /\
  streams r.2 = [(cstr "f", cstr ("#include " ++ in_quotes "Z:#include"))].
Proof. vm_compute. repeat split. Qed.

(** ** C7: the order of the patterns *)

Lemma classify_ONE tok : regex_match tok ONE_PATH = true -> classify tok = SINGLE_PREFIX_PATH.
Proof. unfold classify. now intros ->. Qed.

(** The class of a token is that of the first pattern, in the order
    [ONE_PATH], [DUO_PATH], [TRI_PATH], [JUS_PATH], that matches it. *)
Lemma classify_first_match tok :
  match classify tok with
  | SINGLE_PREFIX_PATH => regex_match tok ONE_PATH = true
  | DOUBLE_PREFIX_PATH =>
      regex_match tok ONE_PATH = false /\ regex_match tok DUO_PATH = true
  | COLON_PREFIX_PATH =>
      regex_match tok ONE_PATH = false /\ regex_match tok DUO_PATH = false /\
      regex_match tok TRI_PATH = true
  | BARE_PATH =>
      regex_match tok ONE_PATH = false /\ regex_match tok DUO_PATH = false /\
      regex_match tok TRI_PATH = false /\ regex_match tok JUS_PATH = true
  | NONE =>
      regex_match tok ONE_PATH = false /\ regex_match tok DUO_PATH = false /\
      regex_match tok TRI_PATH = false /\ regex_match tok JUS_PATH = false
  end.
Proof.
  unfold classify.
  destruct (regex_match tok ONE_PATH); [reflexivity |].
  destruct (regex_match tok DUO_PATH); [now split |].
  destruct (regex_match tok TRI_PATH); [now repeat split |].
  destruct (regex_match tok JUS_PATH); now repeat split.
Qed.

(** C7.  The class of a token is that of the first of [ONE_PATH],
    [DUO_PATH], [TRI_PATH] and [JUS_PATH], in this order, that matches it,
    and a later pattern is asked only when the earlier ones have failed.  So
    a token that [ONE_PATH] matches is a single-letter option with its path
    at offset 2 and never a bare path, whatever else it holds or matches: a
    path from its third character on, as [-I/a/b] does, or all of
    [JUS_PATH], as [/I/a/b] does.  In both programs the text handed to the
    translation is then the token from its third character on, not the
    token. *)
Theorem C7_single_prefix_wins_over_bare tok :
  (classify tok = SINGLE_PREFIX_PATH <-> regex_match tok ONE_PATH = true) /\
  (classify tok = DOUBLE_PREFIX_PATH <->
   regex_match tok ONE_PATH = false /\ regex_match tok DUO_PATH = true) /\
  (classify tok = COLON_PREFIX_PATH <->
   regex_match tok ONE_PATH = false /\ regex_match tok DUO_PATH = false /\
   regex_match tok TRI_PATH = true) /\
  (classify tok = BARE_PATH <->
   regex_match tok ONE_PATH = false /\ regex_match tok DUO_PATH = false /\
   regex_match tok TRI_PATH = false /\ regex_match tok JUS_PATH = true) /\
  (classify tok = NONE <->
   regex_match tok ONE_PATH = false /\ regex_match tok DUO_PATH = false /\
   regex_match tok TRI_PATH = false /\ regex_match tok JUS_PATH = false) /\
  (regex_match tok ONE_PATH = true ->
   classify tok <> BARE_PATH /\
   path_offset tok = Some 2 /\
   (forall (H : Host) remapFile buffer ptr w,
      trace (world_of (cmaketricks.body remapFile CMD buffer ptr tok w))
      = trace w ++ [Translate (drop 2 tok)]) /\
   (forall (H : Host) w,
      trace (world_of (cmdfileremap.body tok w)) = trace w ++ [Translate (drop 2 tok)])).
Proof.
  pose proof (classify_first_match tok) as Hfirst.
  split; [| split; [| split; [| split; [| split]]]].
  - split; [intros E; now rewrite E in Hfirst | apply classify_ONE].
  - split; [intros E; now rewrite E in Hfirst |].
    intros [H1 H2]. unfold classify. now rewrite H1, H2.
  - split; [intros E; now rewrite E in Hfirst |].
    intros (H1 & H2 & H3). unfold classify. now rewrite H1, H2, H3.
  - split; [intros E; now rewrite E in Hfirst |].
    intros (H1 & H2 & H3 & H4). unfold classify. now rewrite H1, H2, H3, H4.
  - split; [intros E; now rewrite E in Hfirst |].
    intros (H1 & H2 & H3 & H4). unfold classify. now rewrite H1, H2, H3, H4.
  - intros H1. pose proof (classify_ONE tok H1) as Hc.
    split; [now rewrite Hc |]. split; [unfold path_offset; now rewrite Hc |].
    split.
    + intros H remapFile buffer ptr w.
      assert (Hcl : classify tok <> NONE) by now rewrite Hc.
      destruct (option_prefix_not_skipped _ (classify_hd tok Hcl)) as [Hsp Hnl].
      unfold cmaketricks.body. rewrite Hsp, Hnl, Hc.
      unfold remap, log, fputs. unfold_M. cbn [files streams trace].
      destruct (wine_get_dos_file_name (drop 2 tok)); [| reflexivity].
      cbn [files streams trace]. now destruct (streams w) as [|[name data] rest].
    + intros H w. unfold cmdfileremap.body. rewrite Hc.
      unfold remap, log, fputs. unfold_M. cbn [files streams trace].
      destruct (wine_get_dos_file_name (drop 2 tok)); [| reflexivity].
      cbn [files streams trace]. now destruct (streams w) as [|[name data] rest].
Qed.

(** The specification's example, [-I/a/b], which [JUS_PATH] matches from the
    third character on, and [/I/a/b], which it matches as a whole. *)
Lemma C7_witness :
  (regex_match (cstr "-I/a/b") ONE_PATH = true /\
   regex_match (drop 2 (cstr "-I/a/b")) JUS_PATH = true /\
   classify (cstr "-I/a/b") <> BARE_PATH /\
   path_offset (cstr "-I/a/b") = Some 2 /\
   (forall (H : Host) remapFile buffer ptr w,
      trace (world_of (cmaketricks.body remapFile CMD buffer ptr (cstr "-I/a/b") w))
      = trace w ++ [Translate (cstr "/a/b")]) /\
   (forall (H : Host) w,
      trace (world_of (cmdfileremap.body (cstr "-I/a/b") w))
      = trace w ++ [Translate (cstr "/a/b")])) /\
  (regex_match (cstr "/I/a/b") ONE_PATH = true /\
   regex_match (cstr "/I/a/b") JUS_PATH = true /\
   classify (cstr "/I/a/b") <> BARE_PATH /\
   path_offset (cstr "/I/a/b") = Some 2).
Proof.
  split.
  - split; [reflexivity | split; [reflexivity |]].
    apply (proj2 (proj2 (proj2 (proj2 (proj2
             (C7_single_prefix_wins_over_bare (cstr "-I/a/b"))))))).
    reflexivity.
  - split; [reflexivity | split; [reflexivity |]].
    pose proof (proj2 (proj2 (proj2 (proj2 (proj2
                  (C7_single_prefix_wins_over_bare (cstr "/I/a/b")))))) eq_refl)
      as (Hb & Ho & _).
    split; [exact Hb | exact Ho].
Defined.

(** A later pattern is reached when the earlier ones fail: the classes of
    tokens that one pattern matches and the earlier ones do not. *)
Example classes_in_order :
  classify (cstr "-I/a/b") = SINGLE_PREFIX_PATH /\
  classify (cstr "/Fo/a/b") = DOUBLE_PREFIX_PATH /\
  classify (cstr "/OUT:/a/b") = COLON_PREFIX_PATH /\
  classify (cstr "/usr/lib") = BARE_PATH /\
  classify (cstr "a/b") = NONE /\
  regex_match (cstr "/Fo/a/b") JUS_PATH = true /\
  regex_match (cstr "/OUT:/a/b") JUS_PATH = true.
Proof. repeat split. Qed.

(** ** C2: how a rewritten token is written *)

Lemma classify_SINGLE_length tok :
  classify tok = SINGLE_PREFIX_PATH -> length (take 2 tok) = 2.
Proof.
  unfold classify. destruct (regex_match tok ONE_PATH) eqn:H1.
  - apply ONE_PATH_shape in H1 as (c0 & c1 & rest & -> & _). reflexivity.
  - destruct (regex_match tok DUO_PATH); [discriminate |].
    destruct (regex_match tok TRI_PATH); [discriminate |].
    destruct (regex_match tok JUS_PATH); discriminate.
Qed.

Lemma width_id n s : n <= length s -> width n s = s.
Proof. intros Hn. unfold width. now replace (n - length s) with 0 by lia. Qed.

(** C2 does not hold of cmdfileremap.  Its format is [%2s%s] with the token
    passed twice; [%2s] is a minimum width, so a single-letter option is
    written as two copies of the whole rewritten token inside one pair of
    quotes.  (cmaketricks writes it once: [cm_cmd_token].) *)
Theorem C2_cmdfileremap_writes_the_token_twice `{Host} tok winPath w d out rest :
  classify tok = SINGLE_PREFIX_PATH ->
  wine_get_dos_file_name (drop 2 tok) = Some winPath ->
  streams w = (d, out) :: rest ->
  let tok' := take 2 tok ++ WideCharToMultiByte winPath 1024 in
  cmdfileremap.body tok w =
    Ret tok' (World (files w)
                    ((d, out ++ DQUOTE :: (tok' ++ tok') ++ [DQUOTE; SPACE]) :: rest)
                    (trace w ++ [Translate (drop 2 tok)])).
Proof.
  intros Hc Hw Hs tok'. unfold cmdfileremap.body. rewrite Hc.
  unfold remap, log, fputs. unfold_M. cbn [files streams trace].
  rewrite Hw. cbn [files streams trace]. rewrite Hs. fold tok'.
  rewrite width_id.
  - unfold quoted. simpl. now rewrite <- !app_assoc.
  - unfold tok'. rewrite length_app, (classify_SINGLE_length tok Hc). lia.
Qed.

Lemma C2_witness :
  let w := World ∅ [(cstr "f", [])] [] in
  (classify (cstr "-I/usr/include") = SINGLE_PREFIX_PATH /\
   wine_get_dos_file_name (Host := demo_host) (drop 2 (cstr "-I/usr/include"))
   = Some (cstr "Z:/usr/include") /\
   streams w = [(cstr "f", [])]) /\
  cmdfileremap.body (H := demo_host) (cstr "-I/usr/include") w =
    Ret (cstr "-IZ:/usr/include")
        (World ∅ [(cstr "f", cstr (in_quotes "-IZ:/usr/include-IZ:/usr/include" ++ " "))]
               [Translate (cstr "/usr/include")]).
Proof.
  intros w. split; [repeat split |].
  exact (C2_cmdfileremap_writes_the_token_twice (H := demo_host) (cstr "-I/usr/include")
           (cstr "Z:/usr/include") w (cstr "f") [] [] eq_refl eq_refl eq_refl).
Defined.

(** A colon-prefixed option stops cmdfileremap: [len] is computed with the
    operands of the subtraction swapped and is negative. *)
Example cmdfileremap_colon_option :
  let r := run (cmdfileremap.remapFile (H := demo_host) (cstr "f"))
               (one_file "f" "-MANIFESTINPUT:/x/y") in
  r.1 = Some Abort /\ files r.2 !! cstr "f" = Some [].
Proof. vm_compute. repeat split. Qed.

(** The same options through cmaketricks. *)
Example cmaketricks_command_file :
  let r := run (cmaketricks.remapFile (H := demo_host) false (cstr "f") CMD)
               (one_file "f" "-I/usr/include -MANIFESTINPUT:/x/y /usr/lib/a.lib /nologo") in
  r.1 = None /\
  files r.2 !! cstr "f" =
    Some (cstr (in_quotes "-IZ:/usr/include" ++ " " ++ in_quotes "-MANIFESTINPUT:Z:/x/y"
                ++ " " ++ in_quotes "Z:/usr/lib/a.lib" ++ " " ++ in_quotes "/nologo" ++ " ")).
Proof. vm_compute. repeat split. Qed.

(** ** A precompiled-header pass makes no recursive call *)

Section PchPass.
Context `{Host}.

(** The body's [Mode::PCH] branch does not mention the recursive call, so
    the two sides unfold to the same loop. *)
Lemma cm_loop_pch_any (rf rf' : chars -> Mode -> M unit) buffer fuel ptr tok :
  cmaketricks.loop rf PCH buffer fuel ptr tok
  = cmaketricks.loop rf' PCH buffer fuel ptr tok.
Proof. reflexivity. Qed.

Lemma cm_remapFile_pch_any g_Debug depth depth' pFile :
  cmaketricks.remapFile_at g_Debug (S depth) pFile PCH
  = cmaketricks.remapFile_at g_Debug (S depth') pFile PCH.
Proof. reflexivity. Qed.

Global Instance translate_spec_lawful : Lawful translate_spec.
Proof.
  split; simpl.
  - intros w. exists []. now rewrite app_nil_r.
  - intros w1 w2 w3 (n1 & T1 & F1) (n2 & T2 & F2). exists (n1 ++ n2).
    rewrite T2, T1, app_assoc. split; [reflexivity | now apply Forall_app].
  - intros w1 w2 o w3 (n1 & T1 & F1) (n2 & T2 & F2). exists (n1 ++ n2).
    rewrite T2, T1, app_assoc. split; [reflexivity | now apply Forall_app].
Qed.

Lemma translate_spec_same w w' : trace w' = trace w -> post translate_spec w w'.
Proof. intros E. exists []. now rewrite app_nil_r. Qed.

Lemma translate_spec_fputs s : sat translate_spec (fputs s).
Proof.
  intros w. unfold fputs. destruct (streams w) as [|[name data] rest];
    now apply translate_spec_same.
Qed.

Lemma translate_spec_remap p n : sat translate_spec (remap p n).
Proof.
  intros w. unfold remap, log. unfold_M.
  destruct (wine_get_dos_file_name p); simpl; exists [Translate p];
    (split; [reflexivity | now repeat constructor]).
Qed.

(** A pass in [Mode::PCH] logs its own entry and, after it, requests for
    translation only: no other file is entered. *)
Lemma cm_pch_pass_trace g_Debug depth pFile w :
  exists new,
    trace (world_of (cmaketricks.remapFile_at g_Debug (S depth) pFile PCH w))
    = trace w ++ Enter pFile PCH :: new /\ Forall is_translate new.
Proof.
  rewrite (cm_remapFile_pch_any g_Debug depth 0). simpl.
  unfold cmaketricks.remapFile_body, log, read_file, fopen_w. unfold_M.
  cbn [files streams trace].
  destruct (files w !! pFile) as [buffer|]; [| exists []; now split].
  destruct (writable _); [| exists []; now split].
  set (w2 := World _ _ _).
  assert (Hstop : forall o w, fail translate_spec w o w).
  { intros o w0. exists []. now rewrite app_nil_r. }
  pose proof (sat_cm_loop translate_spec translate_spec_fputs translate_spec_remap
                (fun o w _ => Hstop o w) (fun _ _ => stop NoFuel)
                (fun p w => Hstop NoFuel w) PCH buffer (S (length buffer)) (Some 0) []
                (Hstop NoFuel) w2) as Hl.
  destruct (cmaketricks.loop _ _ _ _ _ _ w2) as [[] w3|o w3]; simpl in Hl;
    destruct Hl as (new & T & F); exists new.
  - unfold fclose. destruct (streams w3) as [|[name data] rest]; simpl;
      rewrite T; simpl; now rewrite <- app_assoc.
  - simpl. rewrite T. simpl. now rewrite <- app_assoc.
Qed.
End PchPass.

(** ** C5: forced includes *)



(** A command file with a forced include: both files are rewritten. *)
Example forced_include_run :
  let r := run (cmaketricks.remapFile (H := demo_host) false (cstr "f") CMD)
               (two_files "f" "/FI/tmp/foo.h" "Z:/tmp/foo.h" "#include /usr/x.h") in
  r.1 = None /\
  files r.2 !! cstr "f" = Some (cstr (in_quotes "/FIZ:/tmp/foo.h" ++ " ")) /\
  files r.2 !! cstr "Z:/tmp/foo.h" = Some (cstr ("#include " ++ in_quotes "Z:/usr/x.h")) /\
  trace r.2 = [Enter (cstr "f") CMD; Translate (cstr "/tmp/foo.h");
               Enter (cstr "Z:/tmp/foo.h") PCH; Translate (cstr "/usr/x.h")].
Proof. vm_compute. repeat split. Qed.

(** ** The loops end

    The iteration bound [S (length buffer)] of the model is never reached:
    every token moves the pointer forward, and the pointer stays inside the
    buffer.  So every run ends as the program does: it returns, exits,
    aborts or faults. *)

Section Termination.
Context `{Host}.

Global Instance bounded_spec_lawful : Lawful bounded_spec.
Proof. split; simpl; auto. Qed.

Lemma bounded_fputs s : sat bounded_spec (fputs s).
Proof. intros w. unfold fputs. now destruct (streams w) as [|[name data] rest]. Qed.

Lemma bounded_remap p n : sat bounded_spec (remap p n).
Proof.
  intros w. unfold remap, log. unfold_M.
  now destruct (wine_get_dos_file_name p).
Qed.

Lemma bounded_stop o w : o = Fault \/ o = Abort -> fail bounded_spec w o w.
Proof. now intros [-> | ->]. Qed.

Lemma bounded_outcome {A} (m : M A) w :
  sat bounded_spec m -> outcome_of (m w) <> Some NoFuel.
Proof.
  intros Hm. specialize (Hm w). destruct (m w); simpl in *; congruence.
Qed.

Section Cmaketricks.
Variable remapFile : chars -> Mode -> M unit.
Hypothesis bounded_remapFile : forall q, sat bounded_spec (remapFile q PCH).
Variables (pMode : Mode) (buffer : chars).

(** The body hands back the pointer it was given or, after [#include],
    the one the second call of [token] returned. *)
Lemma cm_body_ptr p tok w ptr' tok' w' :
  p <= length buffer ->
  cmaketricks.body remapFile pMode buffer (Some p) tok w = Ret (ptr', tok') w' ->
  ptr' = None \/ exists q, ptr' = Some q /\ p <= q <= length buffer.
Proof.
  intros Hp.
  assert (Hsame : ptr' = Some p -> ptr' = None \/ exists q, ptr' = Some q /\ p <= q <= length buffer).
  { intros ->. right. exists p. split; [reflexivity | lia]. }
  unfold cmaketricks.body, cmaketricks.next_token, remap, log, fputc, fputs. unfold_M.
  intros Hb.
  repeat match goal with
    | H : context [match ?x with _ => _ end] |- _ => destruct x eqn:?; simplify_eq
    end;
    auto.
  all: right; eexists; (split; [reflexivity |]).
  all: match goal with
       | Ht : cmaketricks.token _ _ _ = Tok _ _ |- _ =>
           pose proof (cm_token_progress _ _ _ _ _ Hp Ht)
       end; lia.
Qed.

Lemma cm_loop_bounded fuel ptr tok w :
  match ptr with
  | Some p => p <= length buffer /\ length buffer - p < fuel
  | None => 0 < fuel
  end ->
  outcome_of (cmaketricks.loop remapFile pMode buffer fuel ptr tok w) <> Some NoFuel.
Proof.
  revert ptr tok w. induction fuel as [|fuel IH]; intros ptr tok w Hfuel.
  { destruct ptr; lia. }
  simpl. unfold_M. unfold cmaketricks.next_token.
  destruct ptr as [p|]; [| discriminate]. destruct Hfuel as [Hp Hfuel].
  destruct (cmaketricks.token buffer p cmaketricks.TOKEN_SIZE) as [| |t q] eqn:Ht;
    try discriminate.
  apply cm_token_progress in Ht as Hq; [| exact Hp].
  unfold mret, M_ret, ret. cbv beta iota.
  pose proof (sat_cm_body bounded_spec bounded_fputs bounded_remap bounded_stop
                remapFile bounded_remapFile pMode buffer (Some q) t w) as Hb.
  destruct (cmaketricks.body remapFile pMode buffer (Some q) t w)
    as [[ptr' tok'] w'|o w'] eqn:Eb; [| simpl; intros [= ->]; now apply Hb].
  apply IH. apply cm_body_ptr in Eb as [-> | (q' & -> & Hq')]; lia.
Qed.
End Cmaketricks.

Lemma cm_remapFile_body_bounded g_Debug (remapFile : chars -> Mode -> M unit) pFile pMode w :
  (forall q, sat bounded_spec (remapFile q PCH)) ->
  outcome_of (cmaketricks.remapFile_body g_Debug remapFile pFile pMode w) <> Some NoFuel.
Proof.
  intros Hrf. unfold cmaketricks.remapFile_body, log, read_file, fopen_w. unfold_M.
  cbn [files streams trace].
  destruct (files w !! pFile) as [buffer|]; [| discriminate].
  destruct (writable _); [| discriminate].
  set (w2 := World _ _ _).
  pose proof (cm_loop_bounded remapFile Hrf pMode buffer (S (length buffer)) (Some 0) [] w2)
    as Hl.
  destruct (cmaketricks.loop _ _ _ _ _ _ w2) as [[] w3|o w3].
  - unfold fclose. now destruct (streams w3) as [|[name data] rest].
  - apply Hl. lia.
Qed.

Theorem cm_remapFile_total g_Debug pFile pMode w :
  outcome_of (cmaketricks.remapFile g_Debug pFile pMode w) <> Some NoFuel.
Proof.
  apply cm_remapFile_body_bounded. intros q w1.
  change (cmaketricks.remapFile_at g_Debug 1 q PCH)
    with (cmaketricks.remapFile_body g_Debug (fun _ _ => mret tt) q PCH).
  pose proof (cm_remapFile_body_bounded g_Debug (fun _ _ => mret tt) q PCH w1) as Hb.
  destruct (cmaketricks.remapFile_body _ _ _ _ w1); simpl in *; [exact I |].
  intros ->. apply Hb; [| reflexivity]. intros ? ?. exact I.
Qed.

Lemma cf_loop_bounded buffer fuel ptr w :
  ptr <= length buffer -> length buffer - ptr < fuel ->
  outcome_of (cmdfileremap.loop buffer fuel ptr w) <> Some NoFuel.
Proof.
  revert ptr w. induction fuel as [|fuel IH]; intros ptr w Hp Hfuel; [lia |].
  simpl. unfold_M. unfold cmdfileremap.next_token.
  destruct (cmdfileremap.token buffer ptr 1024) as [| |t q] eqn:Ht; try discriminate.
  apply cf_token_progress in Ht as Hq; [| exact Hp].
  unfold mret, M_ret, ret. cbv beta iota.
  pose proof (sat_cf_body bounded_spec bounded_fputs bounded_remap bounded_stop t w) as Hb.
  destruct (cmdfileremap.body t w) as [tok' w'|o w']; [| simpl; intros [= ->]; now apply Hb].
  apply IH; lia.
Qed.

Theorem cf_remapFile_total pFile w :
  outcome_of (cmdfileremap.remapFile pFile w) <> Some NoFuel.
Proof.
  unfold cmdfileremap.remapFile, log, read_file, fopen_w. unfold_M.
  cbn [files streams trace].
  destruct (files w !! pFile) as [buffer|]; [| discriminate].
  destruct (writable _); [| discriminate].
  set (w2 := World _ _ _).
  pose proof (cf_loop_bounded buffer (S (length buffer)) 0 w2) as Hl.
  destruct (cmdfileremap.loop _ _ _ w2) as [[] w3|o w3].
  - unfold fclose. now destruct (streams w3) as [|[name data] rest].
  - apply Hl; lia.
Qed.
End Termination.

(** ** What a refused translation cuts off

    The same file under a host that grants more: the run goes the same way
    up to the refused request, and from there on only adds to the output.  So
    what the refused run leaves in the destination is the beginning of what
    the other run writes. *)

Section Grows.
Lemma grows_refl w : grows w w.
Proof. intros d out E. exists []. now rewrite app_nil_r. Qed.

Lemma grows_same w w' : streams w' = streams w -> grows w w'.
Proof. intros E d out El. exists []. now rewrite E, app_nil_r. Qed.

Lemma grows_trans w1 w2 w3 : grows w1 w2 -> grows w2 w3 -> grows w1 w3.
Proof.
  intros G1 G2 d out E. destruct (G1 d out E) as (m1 & E1).
  destruct (G2 d (out ++ m1) E1) as (m2 & E2). exists (m1 ++ m2).
  now rewrite app_assoc.
Qed.

Global Instance stack_spec_lawful : Lawful stack_spec.
Proof.
  split; simpl.
  - intros w. split; [reflexivity | apply grows_refl].
  - intros w1 w2 w3 [N1 G1] [N2 G2]. split; [congruence | now apply (grows_trans w1 w2)].
  - intros w1 w2 o w3 [N1 G1] [(st & N2) G2].
    split; [exists st; congruence | now apply (grows_trans w1 w2)].
Qed.

Context `{Host}.

Lemma stack_spec_fputs s : sat stack_spec (fputs s).
Proof.
  intros w. unfold fputs. destruct (streams w) as [|[name data] rest] eqn:E; simpl.
  - split; [reflexivity | apply grows_refl].
  - split; [unfold names; simpl; now rewrite E |].
    intros d out. rewrite E. simpl. destruct rest as [|s' rest'].
    + intros [= <- <-]. now exists s.
    + intros El. exists []. now rewrite app_nil_r.
Qed.

Lemma stack_spec_remap p n : sat stack_spec (remap p n).
Proof.
  intros w. unfold remap, log. unfold_M.
  destruct (wine_get_dos_file_name p); simpl.
  - split; [reflexivity | now apply grows_same].
  - split; [now exists [] | now apply grows_same].
Qed.

Lemma stack_spec_stop o w : fail stack_spec w o w.
Proof. split; [now exists [] | apply grows_refl]. Qed.

Lemma stack_spec_cm_loop remapFile pMode buffer fuel ptr tok :
  (forall p, sat stack_spec (remapFile p PCH)) ->
  sat stack_spec (cmaketricks.loop remapFile pMode buffer fuel ptr tok).
Proof.
  intros Hrf. apply sat_cm_loop; auto using stack_spec_fputs, stack_spec_remap.
  - typeclasses eauto.
  - intros o w _. apply stack_spec_stop.
  - intros w. apply stack_spec_stop.
Qed.

Lemma last_below (x : chars * chars) (l : list (chars * chars)) :
  l <> [] -> last (x :: l) = last l.
Proof. destruct l; [congruence | reflexivity]. Qed.

Lemma stack_spec_cm_body g_Debug (remapFile : chars -> Mode -> M unit) pFile pMode :
  (forall p, sat stack_spec (remapFile p PCH)) ->
  sat stack_spec (cmaketricks.remapFile_body g_Debug remapFile pFile pMode).
Proof.
  intros Hrf w. unfold cmaketricks.remapFile_body, log, read_file, fopen_w. unfold_M.
  cbn [files streams trace].
  destruct (files w !! pFile) as [buffer|].
  2:{ split; [now exists [] | now apply grows_same]. }
  destruct (writable _).
  2:{ split; [now exists [] | now apply grows_same]. }
  set (d := cmaketricks.destination g_Debug pFile).
  set (w2 := World _ ((d, []) :: _) _).
  assert (G2 : grows w w2).
  { intros dd out E. exists []. rewrite app_nil_r. unfold w2. simpl.
    rewrite last_below; [exact E |]. intros E'. rewrite E' in E. discriminate. }
  pose proof (stack_spec_cm_loop remapFile pMode buffer (S (length buffer)) (Some 0) []
                Hrf w2) as Hl.
  destruct (cmaketricks.loop _ _ _ _ _ _ w2) as [[] w3|o w3].
  - destruct Hl as [N G]. unfold fclose. unfold names in N. simpl in N.
    destruct (streams w3) as [|[name data] rest] eqn:E; simpl in N; [discriminate |].
    injection N as -> N. split; [unfold names; simpl; exact N |].
    intros dd out El. destruct (G2 dd out El) as (m1 & E1).
    destruct (G dd (out ++ m1) E1) as (m2 & E2). exists (m1 ++ m2).
    simpl. rewrite E in E2. rewrite last_below in E2; [now rewrite app_assoc |].
    intros ->. simpl in N. symmetry in N. apply fmap_nil_inv in N.
    rewrite N in El. discriminate.
  - destruct Hl as [(st & N) G]. split.
    + exists (st ++ [d]). rewrite N. unfold names. simpl. now rewrite <- app_assoc.
    + now apply (grows_trans w w2).
Qed.

Lemma stack_spec_cm_remapFile_at g_Debug depth pFile pMode :
  sat stack_spec (cmaketricks.remapFile_at g_Debug depth pFile pMode).
Proof.
  revert pFile pMode. induction depth as [|depth IH]; intros pFile pMode; simpl.
  - intros w. apply stack_spec_stop.
  - apply stack_spec_cm_body. intros p. apply IH.
Qed.
End Grows.

Section Sim.
Variables (H H' : Host).
Hypothesis granted : grants_more H H'.

Lemma names_nonempty w w' : names w' = names w -> streams w <> [] -> streams w' <> [].
Proof.
  unfold names. intros E Hne E'. rewrite E' in E. simpl in E.
  symmetry in E. now apply fmap_nil_inv in E.
Qed.

Lemma sim_of_sat {A} (m : M A) : sat stack_spec m -> sim m m.
Proof.
  intros Hm w _. specialize (Hm w). destruct (m w) as [a w1|o w1].
  - split; [reflexivity | apply Hm].
  - now left.
Qed.

Lemma sim_bind {A B} (m m' : M A) (k k' : A -> M B) :
  sim m m' -> (forall a, sim (k a) (k' a)) -> (forall a, sat stack_spec (k' a)) ->
  sim (m ≫= k) (m' ≫= k').
Proof.
  intros Hm Hk Hsat w Hne. unfold_M. specialize (Hm w Hne).
  destruct (m w) as [a w1|o w1].
  - destruct Hm as [-> N]. specialize (Hk a w1 (names_nonempty _ _ N Hne)).
    destruct (k a w1) as [b w2|o w2]; [| exact Hk].
    destruct Hk as [-> N2]. split; [reflexivity | congruence].
  - destruct Hm as [-> | [-> G]]; [now left |]. right. split; [reflexivity |].
    destruct (m' w) as [a w2|o w2]; [| exact G]. simpl in G.
    specialize (Hsat a w2). destruct (k' a w2) as [b w3|o w3]; simpl;
      apply (grows_trans w1 w2); [exact G | apply Hsat | exact G | apply Hsat].
Qed.

Lemma sim_remap p n : sim (@remap H p n) (@remap H' p n).
Proof.
  destruct granted as [_ Hw]. intros w _. unfold remap, log. unfold_M.
  cbn [files streams trace].
  destruct (@wine_get_dos_file_name H p) as [winPath|] eqn:E.
  - destruct (Hw p winPath E) as (winPath' & -> & Hsame). rewrite Hsame. now split.
  - destruct (@wine_get_dos_file_name H' p); [right | now left].
    split; [reflexivity | now apply grows_same].
Qed.

Ltac sat_stack :=
  repeat first
    [ match goal with |- Lawful _ => typeclasses eauto end
    | assumption
    | apply sat_ret
    | apply stack_spec_fputs
    | apply stack_spec_remap
    | apply sat_cm_next_token
    | match goal with |- fail stack_spec _ _ _ => apply stack_spec_stop end
    | match goal with |- sat _ (_ ≫= _) => apply sat_bind end
    | match goal with |- sat _ (let '(_, _) := ?a in _) => destruct a end
    | match goal with |- forall _, _ => intro end ].

Section Body.
Variables (remapFile remapFile' : chars -> Mode -> M unit).
Hypothesis sim_remapFile : forall p, sim (remapFile p PCH) (remapFile' p PCH).
Hypothesis sat_remapFile' : forall p, sat stack_spec (remapFile' p PCH).
Variables (pMode : Mode) (buffer : chars).

Lemma sim_body ptr tok :
  sim (@cmaketricks.body H remapFile pMode buffer ptr tok)
      (@cmaketricks.body H' remapFile' pMode buffer ptr tok).
Proof.
  unfold cmaketricks.body.
  destruct (Ascii.eqb (hd NUL tok) SPACE); [apply sim_of_sat; sat_stack |].
  destruct (is_newline (hd NUL tok)); [apply sim_of_sat; unfold fputc; sat_stack |].
  destruct pMode.
  - destruct (bool_decide _); [| apply sim_of_sat; sat_stack].
    apply sim_bind; [apply sim_of_sat; sat_stack | intros _ | intros _; sat_stack].
    apply sim_bind; [apply sim_of_sat; sat_stack | intros [ptr' tok'] | intros [? ?]; sat_stack].
    apply sim_bind; [apply sim_remap | intros path | intros; sat_stack].
    apply sim_of_sat; sat_stack.
  - destruct (classify tok).
    + apply sim_of_sat; sat_stack.
    + apply sim_bind; [apply sim_remap | intros path | intros; sat_stack].
      apply sim_of_sat; sat_stack.
    + apply sim_bind; [apply sim_remap | intros path | intros; sat_stack].
      apply sim_of_sat; sat_stack.
    + apply sim_bind; [apply sim_remap | intros path |].
      * apply sim_bind; [apply sim_of_sat; sat_stack | intros _ |].
        -- apply sim_bind; [| intros; apply sim_of_sat; sat_stack | intros; sat_stack].
           destruct (_ && _); [apply sim_remapFile | apply sim_of_sat; sat_stack].
        -- intros _. apply sat_bind; [typeclasses eauto | | intros; sat_stack].
           destruct (_ && _); [apply sat_remapFile' | sat_stack].
      * intros path. apply sat_bind; [typeclasses eauto | sat_stack | intros _].
        apply sat_bind; [typeclasses eauto | | intros; sat_stack].
        destruct (_ && _); [apply sat_remapFile' | sat_stack].
    + destruct (strchr tok ":"); [| apply sim_of_sat; intros w; apply stack_spec_stop].
      apply sim_bind; [apply sim_remap | intros path | intros; sat_stack].
      apply sim_of_sat; sat_stack.
Qed.

Lemma sat_body' ptr tok :
  sat stack_spec (@cmaketricks.body H' remapFile' pMode buffer ptr tok).
Proof.
  apply sat_cm_body; sat_stack.
Qed.

Lemma sim_loop fuel ptr tok :
  sim (@cmaketricks.loop H remapFile pMode buffer fuel ptr tok)
      (@cmaketricks.loop H' remapFile' pMode buffer fuel ptr tok).
Proof.
  revert ptr tok. induction fuel as [|fuel IH]; intros ptr tok; simpl.
  - apply sim_of_sat. intros w. apply stack_spec_stop.
  - apply sim_bind.
    + apply sim_of_sat. sat_stack.
    + intros [[p|] tok']; [| apply sim_of_sat; sat_stack].
      apply sim_bind; [apply sim_body | intros [ptr'' tok'']; apply IH |].
      intros [ptr'' tok'']. now apply (@stack_spec_cm_loop H').
    + intros [[p|] tok']; [| sat_stack].
      apply sat_bind; [typeclasses eauto | apply sat_body' |].
      intros [ptr'' tok'']. now apply (@stack_spec_cm_loop H').
Qed.
End Body.

Lemma sim_remapFile_body g_Debug (remapFile remapFile' : chars -> Mode -> M unit) pFile pMode :
  (forall p, sim (remapFile p PCH) (remapFile' p PCH)) ->
  (forall p, sat stack_spec (remapFile' p PCH)) ->
  sim (@cmaketricks.remapFile_body H g_Debug remapFile pFile pMode)
      (@cmaketricks.remapFile_body H' g_Debug remapFile' pFile pMode).
Proof.
  intros Hsim Hsat w Hne.
  unfold cmaketricks.remapFile_body, log, read_file, fopen_w. unfold_M.
  cbn [files streams trace].
  destruct (files w !! pFile) as [buffer|]; [| now left].
  destruct granted as [Hwr _]. rewrite <- Hwr.
  destruct (@writable H _); [| now left].
  set (d := cmaketricks.destination g_Debug pFile).
  set (w2 := World _ ((d, []) :: _) _).
  assert (Hne2 : streams w2 <> []) by discriminate.
  pose proof (sim_loop remapFile remapFile' Hsim Hsat pMode buffer (S (length buffer))
                (Some 0) [] w2 Hne2) as Hl.
  pose proof (@stack_spec_cm_loop H' remapFile' pMode buffer (S (length buffer)) (Some 0) []
                Hsat w2) as Hl'.
  destruct (@cmaketricks.loop H _ _ _ _ _ _ w2) as [[] w3|o w3].
  - destruct Hl as [-> N]. unfold fclose. unfold names in N. simpl in N.
    destruct (streams w3) as [|[name data] rest] eqn:E; simpl in N; [discriminate |].
    injection N as -> N. split; [reflexivity | exact N].
  - destruct Hl as [-> | [-> G]]; [now left |]. right. split; [reflexivity |].
    destruct (@cmaketricks.loop H' _ _ _ _ _ _ w2) as [[] w3'|o' w3']; [| exact G].
    simpl in G, Hl'. destruct Hl' as [N' _]. unfold fclose. unfold names in N'. simpl in N'.
    destruct (streams w3') as [|[name data] rest] eqn:E; simpl in N'; [discriminate |].
    injection N' as -> N'. simpl.
    intros dd out El. destruct (G dd out El) as (more & E2). exists more.
    rewrite E in E2. simpl. rewrite last_below in E2; [exact E2 |].
    intros ->. simpl in N'. symmetry in N'. apply fmap_nil_inv in N'. contradiction.
Qed.

Lemma sim_remapFile_at g_Debug depth pFile pMode :
  sim (@cmaketricks.remapFile_at H g_Debug depth pFile pMode)
      (@cmaketricks.remapFile_at H' g_Debug depth pFile pMode).
Proof.
  revert pFile pMode. induction depth as [|depth IH]; intros pFile pMode; simpl.
  - apply sim_of_sat. intros w. apply stack_spec_stop.
  - apply sim_remapFile_body; [intros p; apply IH |].
    intros p. apply (@stack_spec_cm_remapFile_at H').
Qed.

(** When a run is stopped by a refused translation, and the same run under
    the host that grants more returns, the destination of the first holds a
    beginning of what the destination of the second holds. *)
Theorem refused_run_leaves_a_prefix g_Debug pFile pMode w w1 w2 :
  streams w = [] ->
  @cmaketricks.remapFile H g_Debug pFile pMode w = Stop (Exit 4) w1 ->
  @cmaketricks.remapFile H' g_Debug pFile pMode w = Ret tt w2 ->
  exists out more,
    files (at_exit w1) !! cmaketricks.destination g_Debug pFile = Some out /\
    files w2 !! cmaketricks.destination g_Debug pFile = Some (out ++ more).
Proof.
  intros Hs.
  change (@cmaketricks.remapFile H g_Debug pFile pMode w)
    with (@cmaketricks.remapFile_body H g_Debug (@cmaketricks.remapFile_at H g_Debug 1)
            pFile pMode w).
  change (@cmaketricks.remapFile H' g_Debug pFile pMode w)
    with (@cmaketricks.remapFile_body H' g_Debug (@cmaketricks.remapFile_at H' g_Debug 1)
            pFile pMode w).
  unfold cmaketricks.remapFile_body, log, read_file, fopen_w. unfold_M.
  cbn [files streams trace].
  destruct (files w !! pFile) as [buffer|]; [| discriminate].
  destruct granted as [Hwr _]. rewrite <- Hwr.
  destruct (@writable H _); [| discriminate].
  set (d := cmaketricks.destination g_Debug pFile).
  set (w0 := World _ ((d, []) :: _) _).
  assert (Hne : streams w0 <> []) by discriminate.
  pose proof (sim_loop (@cmaketricks.remapFile_at H g_Debug 1)
                (@cmaketricks.remapFile_at H' g_Debug 1)
                (fun p => sim_remapFile_at g_Debug 1 p PCH)
                (fun p => @stack_spec_cm_remapFile_at H' g_Debug 1 p PCH)
                pMode buffer (S (length buffer)) (Some 0) [] w0 Hne) as Hl.
  pose proof (@stack_spec_cm_loop H (@cmaketricks.remapFile_at H g_Debug 1) pMode buffer
                (S (length buffer)) (Some 0) []
                (fun p => @stack_spec_cm_remapFile_at H g_Debug 1 p PCH) w0) as HlH.
  pose proof (@stack_spec_cm_loop H' (@cmaketricks.remapFile_at H' g_Debug 1) pMode buffer
                (S (length buffer)) (Some 0) []
                (fun p => @stack_spec_cm_remapFile_at H' g_Debug 1 p PCH) w0) as HlH'.
  destruct (@cmaketricks.loop H _ _ _ _ _ _ w0) as [[] w3|o w3].
  { unfold fclose. destruct (streams w3) as [|[? ?] ?]; discriminate. }
  intros [= -> ->].
  destruct Hl as [E | [_ G]]; [rewrite E; discriminate |].
  destruct (@cmaketricks.loop H' _ _ _ _ _ _ w0) as [[] w3'|o' w3']; [| discriminate].
  simpl in G, HlH, HlH'. destruct HlH as [(st & N) _]. destruct HlH' as [N' _].
  unfold names in N, N'. simpl in N, N'. rewrite Hs in N, N'. simpl in N, N'.
  apply names_bottom in N as (inner & out & E1).
  unfold fclose. destruct (streams w3') as [|[name data] rest] eqn:E3; [discriminate |].
  simpl in N'. injection N' as -> N'. apply fmap_nil_inv in N'. subst rest.
  intros [= <-]. simpl.
  destruct (G d out) as (more & E2); [rewrite E1; apply last_snoc |].
  rewrite E3 in E2. simpl in E2. injection E2 as ->.
  exists out, more. split; [now apply (at_exit_bottom _ inner) | apply lookup_insert_eq].
Qed.
End Sim.

(** ** C1: what a refused translation leaves behind *)

(** C1, as the program has it.  A run of [remapFile] ends with exit code 4
    exactly when Wine refuses a path the run asks it to translate.  The
    destination was opened for writing, and so emptied, before the first
    token was read; at the exit its stream is flushed, and the file then
    holds what had been written up to the refused request.  That is a
    beginning of the rewritten file: of what the run leaves there under a
    host that refuses nothing the run asks for. *)
Theorem C1_refused_translation_exits_4_and_flushes `{H : Host} g_Debug pFile pMode w :
  streams w = [] ->
  let r := cmaketricks.remapFile g_Debug pFile pMode w in
  let new := drop (length (trace w)) (trace (world_of r)) in
  let dest := cmaketricks.destination g_Debug pFile in
  (outcome_of r = Some (Exit 4) <->
   exists p, Translate p ∈ new /\ wine_get_dos_file_name p = None) /\
  (outcome_of r = Some (Exit 4) ->
   exists inner out,
     streams (world_of r) = inner ++ [(dest, out)] /\
     run (cmaketricks.remapFile g_Debug pFile pMode) w = (Some (Exit 4), at_exit (world_of r)) /\
     files (at_exit (world_of r)) !! dest = Some out) /\
  (forall (H' : Host) w',
     grants_more H H' ->
     outcome_of r = Some (Exit 4) ->
     @cmaketricks.remapFile H' g_Debug pFile pMode w = Ret tt w' ->
     exists out more,
       files (at_exit (world_of r)) !! dest = Some out /\
       files w' !! dest = Some (out ++ more)).
Proof.
  intros Hs r new dest.
  pose proof (cm_remapFile_body_cases g_Debug (cmaketricks.remapFile_at g_Debug 1)
                pFile pMode w (fun p => run_spec_cm_remapFile_at g_Debug 1 p PCH)) as Hc.
  assert (Hprefix : forall (H' : Host) w',
     grants_more H H' ->
     outcome_of r = Some (Exit 4) ->
     @cmaketricks.remapFile H' g_Debug pFile pMode w = Ret tt w' ->
     exists out more,
       files (at_exit (world_of r)) !! dest = Some out /\
       files w' !! dest = Some (out ++ more)).
  { intros H' w' Hg Ho Hr'. subst r.
    destruct (cmaketricks.remapFile g_Debug pFile pMode w) as [[] w1|o w1] eqn:Er;
      [discriminate |].
    simpl in Ho. injection Ho as ->.
    exact (refused_run_leaves_a_prefix H H' Hg g_Debug pFile pMode w w1 w' Hs Er Hr'). }
  split; [| split; [| exact Hprefix]]; clear Hprefix.
  all: unfold run; subst new;
    change (cmaketricks.remapFile g_Debug pFile pMode w)
      with (cmaketricks.remapFile_body g_Debug (cmaketricks.remapFile_at g_Debug 1) pFile pMode w)
      in *;
    subst r;
    destruct (cmaketricks.remapFile_body _ _ _ _ w) as [[] w'|o w']; simpl.
  - destruct Hc as [_ (new & T & F)]. rewrite T, drop_app_length.
    split; [discriminate |].
    intros (p & Hin & Hp). exfalso.
    apply elem_of_cons in Hin as [|Hin]; [discriminate |].
    eapply Forall_forall in F; [| exact Hin]. now apply F.
  - destruct Hc as (new & T & [(-> & (tr & p & -> & Hp & Htr) & (st & N)) | (Ho & F & _)]);
      rewrite T, drop_app_length.
    + split; [intros _ | reflexivity]. exists p. split; [| exact Hp].
      apply elem_of_cons. right. apply elem_of_app. right. now left.
    + split; [intros [= ->]; now destruct Ho |].
      intros (p & Hin & Hp). exfalso.
      apply elem_of_cons in Hin as [|Hin]; [discriminate |].
      eapply Forall_forall in F; [| exact Hin]. now apply F.
  - discriminate.
  - destruct Hc as (new & T & [(-> & _ & (st & N)) | (Ho & _ & _)]).
    + intros _. unfold names in N. rewrite Hs in N. simpl in N.
      apply names_bottom in N as (inner & out & E).
      exists inner, out. repeat split; [exact E |]. now apply (at_exit_bottom _ inner).
    + intros [= ->]. now destruct Ho.
Qed.

(** On the file of the counterexample below: the flushed destination, and
    its place at the head of the file the granting host leaves. *)
Lemma C1_refused_translation_witness :
  let w := one_file "f" "/usr/a /usr/c /usr/e" in
  let r := cmaketricks.remapFile (H := demo_host) false (cstr "f") CMD w in
  streams w = [] /\
  (exists inner out,
     streams (world_of r) = inner ++ [(cstr "f", out)] /\
     run (cmaketricks.remapFile (H := demo_host) false (cstr "f") CMD) w
       = (Some (Exit 4), at_exit (world_of r)) /\
     files (at_exit (world_of r)) !! cstr "f" = Some out) /\
  (exists out more,
     files (at_exit (world_of r)) !! cstr "f" = Some out /\
     files (world_of (cmaketricks.remapFile (H := granting_host) false (cstr "f") CMD w))
       !! cstr "f" = Some (out ++ more)).
Proof.
  intros w r.
  assert (Hg : grants_more demo_host granting_host).
  { split; [reflexivity |]. intros p winPath. simpl.
    destruct (bool_decide _); [discriminate |]. intros [= <-]. eauto. }
  destruct (C1_refused_translation_exits_4_and_flushes (H := demo_host) false (cstr "f") CMD
              w eq_refl) as (_ & Hflush & Hprefix).
  split; [reflexivity |]. split; [exact (Hflush eq_refl) |].
  exact (Hprefix granting_host _ Hg eq_refl eq_refl).
Defined.

(** C1 as stated fails: the second path of this file is refused, the run
    exits with code 4, and the file, which held the three paths, is left
    with the rewritten first one: the beginning of what the run writes when
    nothing is refused. *)
Lemma C1_counterexample :
  let w := one_file "f" "/usr/a /usr/c /usr/e" in
  let r := run (cmaketricks.remapFile (H := demo_host) false (cstr "f") CMD) w in
  let whole := run (cmaketricks.remapFile (H := granting_host) false (cstr "f") CMD) w in
  r.1 = Some (Exit 4) /\
  files w !! cstr "f" = Some (cstr "/usr/a /usr/c /usr/e") /\
  files r.2 !! cstr "f" = Some (cstr (in_quotes "Z:/usr/a" ++ " ")) /\
  whole.1 = None /\
  files whole.2 !! cstr "f" =
    Some (cstr (in_quotes "Z:/usr/a" ++ " " ++ in_quotes "Z:/usr/c" ++ " "
                ++ in_quotes "Z:/usr/e" ++ " ")).
Proof. vm_compute. repeat split. Qed.

(** * Further properties *)

(** ** The patterns, exactly *)

Section Languages.
Implicit Types (tok rest letters : chars) (c : ascii).

Lemma no_newline_dot s :
  no_newline s -> Forall (fun c => negb (is_newline c) = true) s.
Proof.
  intros Hs. eapply Forall_impl; [exact Hs |].
  intros c Hc. simpl in Hc. now rewrite Hc.
Qed.

Lemma lang_dot_star s : no_newline s -> lang (Star dot) s.
Proof. intros Hs. apply lang_star_sym. now apply no_newline_dot. Qed.

Lemma lang_dot_plus c s : is_newline c = false -> no_newline s -> lang (plus dot) (c :: s).
Proof.
  intros Hc Hs. apply (lang_cat _ _ [c] s); [| now apply lang_dot_star].
  apply lang_sym. now rewrite Hc.
Qed.

Lemma lang_option_char c : c = "-" \/ c = "/" -> lang dash_or_slash [c].
Proof. intros [-> | ->]; now apply lang_sym. Qed.

Lemma lang_chr c : lang (chr c) [c].
Proof. apply lang_sym. apply Ascii.eqb_refl. Qed.

Lemma ONE_PATH_matches c0 c1 rest :
  c0 = "-" \/ c0 = "/" -> is_alpha c1 = true -> no_newline rest ->
  regex_match (c0 :: c1 :: "/" :: rest) ONE_PATH = true.
Proof.
  intros H0 H1 Hr. apply regex_match_lang.
  apply (lang_cat _ _ [c0]); [now apply lang_option_char |].
  apply (lang_cat _ _ [c1]); [now apply lang_sym |].
  apply (lang_cat _ _ ["/"]); [apply lang_chr | now apply lang_dot_star].
Qed.

Lemma DUO_PATH_matches c0 c1 c2 rest :
  c0 = "-" \/ c0 = "/" -> is_alpha c1 = true -> is_alpha c2 = true -> no_newline rest ->
  regex_match (c0 :: c1 :: c2 :: "/" :: rest) DUO_PATH = true.
Proof.
  intros H0 H1 H2 Hr. apply regex_match_lang.
  apply (lang_cat _ _ [c0]); [now apply lang_option_char |].
  apply (lang_cat _ _ [c1; c2]).
  - apply (lang_cat _ _ [c1]); [now apply lang_sym |].
    apply (lang_cat _ _ [c2] []); [now apply lang_sym | apply lang_eps].
  - apply (lang_cat _ _ ["/"]); [apply lang_chr | now apply lang_dot_star].
Qed.

Lemma TRI_PATH_matches c0 letters rest :
  c0 = "-" \/ c0 = "/" -> 3 <= length letters ->
  Forall (fun c => is_alpha c = true) letters -> no_newline rest ->
  regex_match (c0 :: letters ++ ":" :: "/" :: rest) TRI_PATH = true.
Proof.
  intros H0 Hlen Hl Hr. apply regex_match_lang.
  destruct letters as [|a1 [|a2 [|a3 ls]]]; simpl in Hlen; try lia.
  inversion Hl as [|? ? Ha1 Hl1]; subst. inversion Hl1 as [|? ? Ha2 Hl2]; subst.
  inversion Hl2 as [|? ? Ha3 Hl3]; subst.
  apply (lang_cat _ _ [c0]); [now apply lang_option_char |].
  apply (lang_cat _ _ (a1 :: a2 :: a3 :: ls)).
  - apply (lang_cat _ _ [a1; a2; a3] ls); [| now apply lang_star_sym].
    apply (lang_cat _ _ [a1]); [now apply lang_sym |].
    apply (lang_cat _ _ [a2]); [now apply lang_sym |].
    apply (lang_cat _ _ [a3] []); [now apply lang_sym | apply lang_eps].
  - apply (lang_cat _ _ [":"]); [apply lang_chr |].
    apply (lang_cat _ _ ["/"]); [apply lang_chr | now apply lang_dot_star].
Qed.

Lemma JUS_PATH_matches a b :
  a <> [] -> b <> [] -> no_newline a -> no_newline b ->
  regex_match ("/" :: a ++ "/" :: b) JUS_PATH = true.
Proof.
  intros Ha Hb Hna Hnb. apply regex_match_lang.
  destruct a as [|x a']; [congruence |]. destruct b as [|y b']; [congruence |].
  inversion Hna; subst. inversion Hnb; subst.
  apply (lang_cat _ _ ["/"]); [apply lang_chr |].
  apply (lang_cat _ _ (x :: a')); [now apply lang_dot_plus |].
  apply (lang_cat _ _ ["/"]); [apply lang_chr | now apply lang_dot_plus].
Qed.

Lemma JUS_PATH_shape tok :
  regex_match tok JUS_PATH = true ->
  exists a b, tok = "/" :: a ++ "/" :: b /\ a <> [] /\ b <> [] /\
              no_newline a /\ no_newline b.
Proof.
  rewrite regex_match_lang. unfold JUS_PATH, plus, chr, dot. intros Hl. lang_inv.
  repeat match goal with
    | H : Ascii.eqb _ _ = true |- _ => apply Ascii.eqb_eq in H; subst
    end.
  match goal with
  | |- context [["/"] ++ ([?x] ++ ?l1) ++ ["/"] ++ [?y] ++ ?l2] =>
      exists (x :: l1), (y :: l2)
  end.
  split; [simpl; now rewrite <- ?app_assoc |].
  repeat split; try discriminate.
  - constructor; [now apply negb_true_iff | now apply dot_no_newline].
  - constructor; [now apply negb_true_iff | now apply dot_no_newline].
Qed.
End Languages.

(** X1.  What each of the four patterns matches, read as a whole-token
    match: a dash or slash, one letter, a slash and anything ([ONE_PATH]);
    the same with two letters ([DUO_PATH]); a dash or slash, three letters
    or more, a colon, a slash and anything ([TRI_PATH]); a slash, something,
    a slash, something ([JUS_PATH]) -- where anything and something hold
    neither carriage return nor line feed. *)
Theorem X1_pattern_languages tok :
  (regex_match tok ONE_PATH = true <->
   exists c0 c1 rest,
     tok = c0 :: c1 :: "/" :: rest /\ (c0 = "-" \/ c0 = "/") /\
     is_alpha c1 = true /\ no_newline rest) /\
  (regex_match tok DUO_PATH = true <->
   exists c0 c1 c2 rest,
     tok = c0 :: c1 :: c2 :: "/" :: rest /\ (c0 = "-" \/ c0 = "/") /\
     is_alpha c1 = true /\ is_alpha c2 = true /\ no_newline rest) /\
  (regex_match tok TRI_PATH = true <->
   exists c0 letters rest,
     tok = c0 :: letters ++ ":" :: "/" :: rest /\ (c0 = "-" \/ c0 = "/") /\
     3 <= length letters /\ Forall (fun c => is_alpha c = true) letters /\
     no_newline rest) /\
  (regex_match tok JUS_PATH = true <->
   exists a b,
     tok = "/" :: a ++ "/" :: b /\ a <> [] /\ b <> [] /\ no_newline a /\ no_newline b).
Proof.
  repeat split.
  - apply ONE_PATH_shape.
  - intros (c0 & c1 & rest & -> & H0 & H1 & Hr). now apply ONE_PATH_matches.
  - apply DUO_PATH_shape.
  - intros (c0 & c1 & c2 & rest & -> & H0 & H1 & H2 & Hr). now apply DUO_PATH_matches.
  - apply TRI_PATH_shape.
  - intros (c0 & ls & rest & -> & H0 & Hlen & Hl & Hr). now apply TRI_PATH_matches.
  - apply JUS_PATH_shape.
  - intros (a & b & -> & Ha & Hb & Hna & Hnb). now apply JUS_PATH_matches.
Qed.

Lemma is_alpha_not_slash c : is_alpha c = true -> c <> "/".
Proof. intros Hc ->. discriminate. Qed.

Lemma ONE_not_DUO tok :
  regex_match tok ONE_PATH = true -> regex_match tok DUO_PATH = true -> False.
Proof.
  intros H1 H2. apply ONE_PATH_shape in H1 as (c0 & c1 & rest & -> & _).
  apply DUO_PATH_shape in H2 as (? & ? & c2 & ? & E & _ & _ & H2 & _).
  injection E as _ _ <- _. discriminate.
Qed.

Lemma ONE_not_TRI tok :
  regex_match tok ONE_PATH = true -> regex_match tok TRI_PATH = true -> False.
Proof.
  intros H1 H3. apply ONE_PATH_shape in H1 as (c0 & c1 & rest & -> & _).
  apply TRI_PATH_shape in H3 as (? & ls & ? & E & _ & Hlen & Hl & _).
  destruct ls as [|a1 [|a2 ls]]; simpl in Hlen; try lia.
  injection E as _ _ <- _. inversion Hl as [|? ? _ Hl1]; subst.
  inversion Hl1 as [|? ? Ha2 _]; subst. discriminate.
Qed.

Lemma DUO_not_TRI tok :
  regex_match tok DUO_PATH = true -> regex_match tok TRI_PATH = true -> False.
Proof.
  intros H2 H3. apply DUO_PATH_shape in H2 as (c0 & c1 & c2 & rest & -> & _).
  apply TRI_PATH_shape in H3 as (? & ls & ? & E & _ & Hlen & Hl & _).
  destruct ls as [|a1 [|a2 [|a3 ls]]]; simpl in Hlen; try lia.
  injection E as _ _ _ <- _. inversion Hl as [|? ? _ Hl1]; subst.
  inversion Hl1 as [|? ? _ Hl2]; subst. inversion Hl2 as [|? ? Ha3 _]; subst.
  discriminate.
Qed.

Lemma classify_TRI tok :
  regex_match tok TRI_PATH = true -> classify tok = COLON_PREFIX_PATH.
Proof.
  intros H3. unfold classify.
  destruct (regex_match tok ONE_PATH) eqn:H1; [destruct (ONE_not_TRI tok H1 H3) |].
  destruct (regex_match tok DUO_PATH) eqn:H2; [destruct (DUO_not_TRI tok H2 H3) |].
  now rewrite H3.
Qed.

(** X2.  No token is matched by two of [ONE_PATH], [DUO_PATH] and
    [TRI_PATH], so each of them decides the class of every token it matches;
    the order of the chain matters for [JUS_PATH] only. *)
Theorem X2_option_patterns_are_disjoint tok :
  (classify tok = SINGLE_PREFIX_PATH <-> regex_match tok ONE_PATH = true) /\
  (classify tok = DOUBLE_PREFIX_PATH <-> regex_match tok DUO_PATH = true) /\
  (classify tok = COLON_PREFIX_PATH <-> regex_match tok TRI_PATH = true) /\
  (classify tok = BARE_PATH <->
   regex_match tok JUS_PATH = true /\ regex_match tok ONE_PATH = false /\
   regex_match tok DUO_PATH = false /\ regex_match tok TRI_PATH = false).
Proof.
  pose proof (ONE_not_DUO tok) as H12. pose proof (ONE_not_TRI tok) as H13.
  pose proof (DUO_not_TRI tok) as H23.
  pose proof (classify_first_match tok) as Hc.
  destruct (regex_match tok ONE_PATH) eqn:E1, (regex_match tok DUO_PATH) eqn:E2,
    (regex_match tok TRI_PATH) eqn:E3;
    try (exfalso; auto; fail);
    destruct (classify tok); intuition congruence.
Qed.

(** ** What one call of [token] returns *)

Section TokenText.
Implicit Types (buffer s t : chars) (pos next : nat) (cap : Z) (v : program).

Lemma token_of_progress v buffer pos cap t next :
  pos <= length buffer ->
  token_of v buffer pos cap = Tok t next -> pos < next <= length buffer.
Proof. destruct v; [apply cm_token_progress | apply cf_token_progress]. Qed.

Lemma span_blank_end s :
  is_nul (nth (span blank_cond s) s NUL) = true <->
  Forall (fun c => is_blank c = true) (up_to (fun _ => false) s).
Proof.
  induction s as [|c s IH]; simpl; [split; [constructor | reflexivity] |].
  unfold blank_cond at 1.
  destruct (is_nul c) eqn:Hn; simpl.
  - rewrite andb_false_r. simpl. rewrite Hn. split; [constructor | reflexivity].
  - rewrite andb_true_r. destruct (is_blank c) eqn:Hb; simpl.
    + rewrite IH. split; [now constructor | now inversion 1].
    + rewrite Hn. split; [discriminate |]. inversion 1; congruence.
Qed.

Lemma token_of_end v buffer pos cap :
  token_of v buffer pos cap = TokEnd <->
  is_nul (peek buffer (skip_blanks buffer pos)) = true.
Proof.
  destruct v; simpl.
  - unfold cmaketricks.token. destruct (is_nul (peek buffer (skip_blanks buffer pos))) eqn:Hn.
    + apply Ascii.eqb_eq in Hn. rewrite Hn. simpl. tauto.
    + destruct (is_newline _); [split; discriminate |].
      destruct (Ascii.eqb _ DQUOTE); destruct (_ <? _)%Z; split; discriminate.
  - unfold cmdfileremap.token. destruct (is_nul (peek buffer (skip_blanks buffer pos))) eqn:Hn.
    + tauto.
    + destruct (Ascii.eqb _ DQUOTE); destruct (_ <? _)%Z; split; discriminate.
Qed.

Lemma span_all cond s : Forall (fun c => cond c = true) s -> span cond s = length s.
Proof. induction 1 as [|c s Hc _ IH]; simpl; [reflexivity | now rewrite Hc, IH]. Qed.

Lemma take_take_drop n k (l : chars) : take n (drop k l) = take (length (take n (drop k l))) (drop k l).
Proof.
  rewrite length_take. destruct (Nat.le_ge_cases n (length (drop k l))) as [Hle|Hge].
  - now rewrite Nat.min_l.
  - rewrite Nat.min_r by exact Hge. now rewrite !take_ge.
Qed.
End TokenText.

(** X3.  A call of [token] that returns a token moves the pointer forward
    and leaves it inside the buffer, in both programs. *)
Theorem X3_token_moves_forward (v : program) buffer pos cap t next :
  pos <= length buffer ->
  token_of v buffer pos cap = Tok t next ->
  pos < next <= length buffer.
Proof. apply token_of_progress. Qed.

Lemma X3_witness :
  (2 <= length (cstr "  ab cd") /\
   token_of Cmdfileremap (cstr "  ab cd") 2 1024 = Tok (cstr "ab") 4) /\
  2 < 4 <= length (cstr "  ab cd").
Proof.
  split; [split; [simpl; lia | reflexivity] |].
  apply (X3_token_moves_forward Cmdfileremap (cstr "  ab cd") 2 1024 (cstr "ab") 4);
    [simpl; lia | reflexivity].
Defined.

Lemma token_of_end_blank (v : program) buffer pos cap :
  token_of v buffer pos cap = TokEnd <->
  Forall (fun c => is_blank c = true) (up_to (fun _ => false) (drop pos buffer)).
Proof.
  rewrite token_of_end. unfold skip_blanks. rewrite peek_drop. apply span_blank_end.
Qed.

(** X4.  [token] reports the end of the buffer exactly when only spaces and
    tabs are left before the terminator; an empty file is the first case of
    that.  In both programs, whatever the capacity. *)
Theorem X4_token_ends_on_blank_rest (v : program) buffer pos cap :
  token_of v buffer pos cap = TokEnd <->
  Forall (fun c => is_blank c = true) (up_to (fun _ => false) (drop pos buffer)).
Proof. apply token_of_end_blank. Qed.

Section TokenPieces.
Implicit Types (buffer s t : chars) (pos next : nat) (cap : Z) (v : program).

Lemma bare_cond_of_spec v c :
  bare_cond_of v c = true ->
  c <> NUL /\ is_blank c = false /\ (splits_lines v = true -> is_newline c = false).
Proof.
  destruct v; simpl.
  - rewrite cm_bare_cond_spec. simpl. rewrite negb_true_iff, !orb_false_iff.
    intros [[Hb Hnl] Hn]. auto using is_nul_false.
  - rewrite cf_bare_cond_spec. simpl. rewrite negb_true_iff, !orb_false_iff.
    intros [[Hb _] Hn]. repeat split; auto using is_nul_false. discriminate.
Qed.

Lemma quoted_cond_true c : quoted_cond c = true -> c <> DQUOTE /\ c <> NUL.
Proof.
  unfold quoted_cond. rewrite andb_true_iff, !negb_true_iff.
  intros [Hq Hn]. split; [now apply Ascii.eqb_neq | now apply is_nul_false].
Qed.

Lemma drop_peek buffer p :
  p < length buffer -> drop p buffer = peek buffer p :: drop (S p) buffer.
Proof.
  unfold peek. revert p. induction buffer as [|c s IH]; intros [|p] Hp; simpl in *;
    try lia; [reflexivity |].
  apply IH. lia.
Qed.

(** The three ways a token comes about, for either program. *)
Lemma token_of_cases v buffer pos cap t next :
  token_of v buffer pos cap = Tok t next ->
  let p := skip_blanks buffer pos in
  (splits_lines v = true /\ is_newline (peek buffer p) = true /\
   t = [peek buffer p] /\ next = p + 1)
  \/ (peek buffer p = DQUOTE /\
      t = take (span quoted_cond (drop (p + 1) buffer)) (drop (p + 1) buffer) /\
      next = p + 1 + span quoted_cond (drop (p + 1) buffer))
  \/ (peek buffer p <> DQUOTE /\ is_nul (peek buffer p) = false /\
      1 <= span (bare_cond_of v) (drop p buffer) /\
      t = take (span (bare_cond_of v) (drop p buffer)) (drop p buffer) /\
      next = p + span (bare_cond_of v) (drop p buffer)).
Proof.
  intros Ht p.
  assert (Hnn : is_nul (peek buffer p) = false).
  { destruct (is_nul (peek buffer p)) eqn:Hn; [| reflexivity].
    apply (token_of_end v buffer pos cap) in Hn. congruence. }
  pose proof (skip_blanks_not_blank buffer pos Hnn) as Hb. fold p in Hb.
  destruct (ascii_dec (peek buffer p) DQUOTE) as [Hq|Hq].
  { destruct (splits_lines v && is_newline (peek buffer p)) eqn:Hnl.
    { rewrite Hq in Hnl. now rewrite andb_false_r in Hnl. }
    right. left. rewrite token_of_quoted in Ht by exact Hq. cbv zeta in Ht. fold p in Ht.
    destruct (_ <? _)%Z; [| discriminate]. injection Ht as <- <-. auto. }
  destruct v; simpl in *.
  - destruct (is_newline (peek buffer p)) eqn:Hnl.
    + left. rewrite cm_token_newline in Ht by exact Hnl. injection Ht as <- <-. auto.
    + right. right. rewrite cm_token_bare in Ht by assumption. cbv zeta in Ht. fold p in Ht.
      destruct (_ <? _)%Z; [| discriminate]. injection Ht as <- <-.
      repeat split; auto.
      apply span_pos; [reflexivity |]. rewrite <- peek_drop0.
      now apply cm_bare_cond_first.
  - right. right. rewrite cf_token_bare in Ht by assumption. cbv zeta in Ht. fold p in Ht.
    destruct (_ <? _)%Z; [| discriminate]. injection Ht as <- <-.
    repeat split; auto.
    apply span_pos; [reflexivity |]. rewrite <- peek_drop0.
    now apply cf_bare_cond_first.
Qed.
End TokenPieces.

(** X5.  The text of a token is a piece of the buffer that ends where the
    returned pointer points, and never holds a ['\0'].  A quoted token holds
    no double quote; any other token is not empty and holds no space or tab,
    and in cmaketricks it holds no carriage return or line feed unless it is
    that one character. *)
Theorem X5_token_text (v : program) buffer pos cap t next :
  token_of v buffer pos cap = Tok t next ->
  let p := skip_blanks buffer pos in
  length t <= next /\
  t = take (length t) (drop (next - length t) buffer) /\
  Forall (fun c => c <> NUL) t /\
  (peek buffer p = DQUOTE ->
   next = p + 1 + length t /\ Forall (fun c => c <> DQUOTE) t) /\
  (peek buffer p <> DQUOTE ->
   next = p + length t /\ t <> [] /\ Forall (fun c => is_blank c = false) t /\
   (splits_lines v = true -> no_newline t \/ length t = 1)).
Proof.
  intros Ht p. apply token_of_cases in Ht. fold p in Ht.
  destruct Ht as [(Hv & Hnl & -> & ->) | [(Hq & -> & ->) | (Hq & Hn & Hpos & -> & ->)]].
  - assert (Hlt : p < length buffer).
    { apply peek_lt. intros E. rewrite E in Hnl. discriminate. }
    pose proof (drop_peek buffer p Hlt) as Hd.
    assert (Hnq : peek buffer p <> DQUOTE).
    { intros E. rewrite E in Hnl. discriminate. }
    simpl length. replace (p + 1 - 1) with p by lia.
    split; [lia |]. split; [now rewrite Hd |]. split; [| split].
    + repeat constructor. intros E. rewrite E in Hnl. discriminate.
    + intros Hq. contradiction.
    + intros _. split; [reflexivity |]. split; [discriminate |]. split; [| now right].
      repeat constructor. destruct (is_blank (peek buffer p)) eqn:Hb; [| reflexivity].
      unfold is_blank, is_newline in *. apply orb_true_iff in Hb as [Hb|Hb];
        apply Ascii.eqb_eq in Hb; rewrite Hb in Hnl; discriminate.
  - set (s := drop (p + 1) buffer). set (n := span quoted_cond s).
    pose proof (span_le quoted_cond s) as Hle. fold n in Hle.
    assert (Hlen : length (take n s) = n) by (rewrite length_take; lia).
    rewrite Hlen. replace (p + 1 + n - n) with (p + 1) by lia. fold s.
    pose proof (span_take quoted_cond s) as Hall. fold n in Hall.
    split; [lia |]. split; [reflexivity |]. split; [| split].
    + eapply Forall_impl; [exact Hall |]. intros c Hc. now apply quoted_cond_true in Hc.
    + intros _. split; [reflexivity |].
      eapply Forall_impl; [exact Hall |]. intros c Hc. now apply quoted_cond_true in Hc.
    + intros Hnq. contradiction.
  - set (s := drop p buffer) in *. set (n := span (bare_cond_of v) s) in *.
    pose proof (span_le (bare_cond_of v) s) as Hle. fold n in Hle.
    assert (Hlen : length (take n s) = n) by (rewrite length_take; lia).
    rewrite Hlen. replace (p + n - n) with p by lia. fold s.
    pose proof (span_take (bare_cond_of v) s) as Hall. fold n in Hall.
    split; [lia |]. split; [reflexivity |]. split; [| split].
    + eapply Forall_impl; [exact Hall |]. intros c Hc. now apply bare_cond_of_spec in Hc.
    + intros Hq'. contradiction.
    + intros _. split; [reflexivity |]. split; [| split].
      * intros E. apply (f_equal length) in E. rewrite Hlen in E. simpl in E. lia.
      * eapply Forall_impl; [exact Hall |]. intros c Hc. now apply bare_cond_of_spec in Hc.
      * intros Hv. left. eapply Forall_impl; [exact Hall |].
        intros c Hc. apply bare_cond_of_spec in Hc as (_ & _ & Hc). now apply Hc.
Qed.

Lemma X5_witness :
  let buffer := cstr ("  -I/usr " ++ in_quotes "a b") in
  token_of Cmaketricks buffer 0 1024 = Tok (cstr "-I/usr") 8 /\
  length (cstr "-I/usr") <= 8 /\
  cstr "-I/usr" = take (length (cstr "-I/usr")) (drop (8 - length (cstr "-I/usr")) buffer) /\
  Forall (fun c => c <> NUL) (cstr "-I/usr").
Proof.
  intros buffer. split; [reflexivity |].
  destruct (X5_token_text Cmaketricks buffer 0 1024 (cstr "-I/usr") 8 eq_refl)
    as (H1 & H2 & H3 & _).
  exact (conj H1 (conj H2 H3)).
Defined.

(** X6.  A quoted token whose closing quote is missing runs to the end of
    the buffer and is returned like any other, without the opening quote;
    the call after it reports the end. *)
Theorem X6_unterminated_quote (v : program) buffer pos cap :
  let start := skip_blanks buffer pos + 1 in
  peek buffer (skip_blanks buffer pos) = DQUOTE ->
  Forall (fun c => c <> DQUOTE /\ c <> NUL) (drop start buffer) ->
  (Z.of_nat (length (drop start buffer)) < cap - 1)%Z ->
  token_of v buffer pos cap = Tok (drop start buffer) (length buffer) /\
  token_of v buffer (length buffer) cap = TokEnd.
Proof.
  intros start Hq Hall Hcap.
  assert (Hlt : skip_blanks buffer pos < length buffer).
  { apply peek_lt. rewrite Hq. discriminate. }
  assert (Hspan : span quoted_cond (drop start buffer) = length (drop start buffer)).
  { apply span_all. eapply Forall_impl; [exact Hall |].
    intros c [Hc1 Hc2]. unfold quoted_cond, is_nul.
    apply Ascii.eqb_neq in Hc1, Hc2. now rewrite Hc1, Hc2. }
  split.
  - rewrite token_of_quoted by exact Hq. cbv zeta. fold start. rewrite Hspan.
    destruct (Z.ltb_spec (Z.of_nat (length (drop start buffer))) (cap - 1)); [| lia].
    rewrite take_ge by lia. f_equal. rewrite length_drop. unfold start. lia.
  - apply token_of_end_blank. rewrite drop_all. constructor.
Qed.

Lemma X6_witness :
  let buffer := cstr ("x " ++ String DQUOTE "a b") in
  (peek buffer (skip_blanks buffer 1) = DQUOTE /\
   Forall (fun c => c <> DQUOTE /\ c <> NUL) (drop (skip_blanks buffer 1 + 1) buffer) /\
   (Z.of_nat (length (drop (skip_blanks buffer 1 + 1) buffer)) < 1024 - 1)%Z) /\
  token_of Cmaketricks buffer 1 1024 = Tok (cstr "a b") 6 /\
  token_of Cmaketricks buffer 6 1024 = TokEnd.
Proof.
  intros buffer.
  assert (Hall : Forall (fun c => c <> DQUOTE /\ c <> NUL)
                        (drop (skip_blanks buffer 1 + 1) buffer)).
  { repeat constructor; discriminate. }
  split; [repeat split; exact Hall |].
  exact (X6_unterminated_quote Cmaketricks buffer 1 1024 eq_refl Hall eq_refl).
Defined.

(** ** One token in the loop body *)

Section BodyTokens.
Context `{Host}.
Implicit Types (tok : chars) (w : world).

Lemma classify_without_option_char tok :
  hd NUL tok <> "-" -> hd NUL tok <> "/" -> classify tok = NONE.
Proof.
  intros H1 H2. destruct (classify tok) eqn:Hc; [reflexivity | | | |];
    (assert (Hne : classify tok <> NONE) by congruence);
    destruct (classify_hd tok Hne); contradiction.
Qed.

Lemma cf_body_trace tok w :
  exists new, trace (world_of (cmdfileremap.body tok w)) = trace w ++ new /\
              Forall asks_for_slash_paths new.
Proof.
  pose proof (classify_first_match tok) as Hc. unfold cmdfileremap.body.
  assert (Hnone : forall w', trace w' = trace w ->
                             exists new, trace w' = trace w ++ new /\
                                         Forall asks_for_slash_paths new).
  { intros w' E. exists []. rewrite app_nil_r. now split. }
  assert (Hone : forall p (k f : chars -> chars), slash_path p ->
            exists new,
              trace (world_of ((path ← remap p 1024; fputs (f path);; mret (k path)) w))
              = trace w ++ new /\ Forall asks_for_slash_paths new).
  { intros p k f Hp. exists [Translate p]. split; [| now repeat constructor].
    unfold remap, log, fputs. unfold_M. cbn [files streams trace].
    destruct (wine_get_dos_file_name p); [| reflexivity].
    cbn [files streams trace]. now destruct (streams w) as [|[? ?] ?]. }
  destruct (classify tok).
  - apply Hnone. unfold fputs. unfold_M. now destruct (streams w) as [|[? ?] ?].
  - destruct Hc as (_ & _ & _ & Hj).
    apply JUS_PATH_shape in Hj as (a & b & -> & _ & _ & Ha & Hb).
    apply (Hone _ (fun path => path) (fun path => quoted path ++ [SPACE])).
    exists (a ++ "/" :: b). split; [reflexivity |].
    apply Forall_app. split; [exact Ha | now constructor].
  - apply ONE_PATH_shape in Hc as (c0 & c1 & rest & -> & _ & _ & Hr).
    apply (Hone _ (fun path => take 2 (c0 :: c1 :: "/" :: rest) ++ path)
             (fun path => quoted (width 2 (take 2 (c0 :: c1 :: "/" :: rest) ++ path)
                                  ++ take 2 (c0 :: c1 :: "/" :: rest) ++ path) ++ [SPACE])).
    now exists rest.
  - destruct Hc as (_ & Hc).
    apply DUO_PATH_shape in Hc as (c0 & c1 & c2 & rest & -> & _ & _ & _ & Hr).
    apply (Hone _ (fun path => take 3 (c0 :: c1 :: c2 :: "/" :: rest) ++ path)
             (fun path => quoted (width 3 (take 3 (c0 :: c1 :: c2 :: "/" :: rest) ++ path)
                                  ++ take 3 (c0 :: c1 :: c2 :: "/" :: rest) ++ path)
                          ++ [SPACE])).
    now exists rest.
  - destruct (strchr tok ":"); [destruct (_ <? _)%Z |]; now apply Hnone.
Qed.

Lemma cf_loop_trace buffer fuel ptr w :
  exists new, trace (world_of (cmdfileremap.loop buffer fuel ptr w)) = trace w ++ new /\
              Forall asks_for_slash_paths new.
Proof.
  revert ptr w. induction fuel as [|fuel IH]; intros ptr w; simpl.
  - exists []. rewrite app_nil_r. now split.
  - unfold_M. unfold cmdfileremap.next_token.
    destruct (cmdfileremap.token buffer ptr 1024) as [| |t q];
      try (exists []; rewrite app_nil_r; now split).
    unfold mret, M_ret, ret. cbv beta iota.
    destruct (cf_body_trace t w) as (n1 & T1 & F1).
    destruct (cmdfileremap.body t w) as [tok' w1|o w1]; simpl in T1.
    + destruct (IH q w1) as (n2 & T2 & F2). exists (n1 ++ n2).
      rewrite T2, T1, app_assoc. split; [reflexivity | now apply Forall_app].
    + exists n1. now split.
Qed.
End BodyTokens.

(** X7.  A token that begins with neither a dash nor a slash matches no
    pattern.  cmdfileremap copies it between double quotes with a space
    after it and asks for no translation; so does cmaketricks in
    [Mode::CMD], unless the token begins with a space, a carriage return or
    a line feed. *)
Theorem X7_other_tokens_are_copied `{Host} tok w d out rest :
  hd NUL tok <> "-" -> hd NUL tok <> "/" ->
  streams w = (d, out) :: rest ->
  let w' := World (files w) ((d, out ++ DQUOTE :: tok ++ [DQUOTE; SPACE]) :: rest) (trace w) in
  classify tok = NONE /\
  cmdfileremap.body tok w = Ret tok w' /\
  (hd NUL tok <> SPACE -> is_newline (hd NUL tok) = false ->
   forall remapFile buffer ptr,
     cmaketricks.body remapFile CMD buffer ptr tok w = Ret (ptr, tok) w').
Proof.
  intros H1 H2 Hs w'. pose proof (classify_without_option_char tok H1 H2) as Hc.
  assert (Hw : fputs (quoted tok ++ [SPACE]) w = Ret tt w').
  { unfold fputs. rewrite Hs. unfold w', quoted. simpl. now rewrite <- app_assoc. }
  split; [exact Hc |]. split.
  - unfold cmdfileremap.body. rewrite Hc. unfold_M. now rewrite Hw.
  - intros Hsp Hnl remapFile buffer ptr. unfold cmaketricks.body.
    apply Ascii.eqb_neq in Hsp. rewrite Hsp, Hnl, Hc. unfold_M. now rewrite Hw.
Qed.

Lemma X7_witness :
  let w := World ∅ [(cstr "f", [])] [] in
  (hd NUL (cstr "main.c") <> "-" /\ hd NUL (cstr "main.c") <> "/" /\
   streams w = [(cstr "f", [])]) /\
  cmdfileremap.body (H := demo_host) (cstr "main.c") w
  = Ret (cstr "main.c") (World ∅ [(cstr "f", cstr (in_quotes "main.c" ++ " "))] []).
Proof.
  intros w. split; [repeat split; discriminate |].
  apply (X7_other_tokens_are_copied (H := demo_host) (cstr "main.c") w (cstr "f") [] []);
    [discriminate | discriminate | reflexivity].
Defined.

(** X8.  cmdfileremap stops on every token that [TRI_PATH] matches: the
    length [tok - strchr( tok, ':' )] is at most -4, so the array size
    [len + 1] is negative.  Nothing has been written for the token and
    nothing has been translated. *)
Theorem X8_cmdfileremap_stops_on_colon_options `{Host} tok w :
  regex_match tok TRI_PATH = true ->
  cmdfileremap.body tok w = Stop Abort w.
Proof.
  intros H3. unfold cmdfileremap.body. rewrite (classify_TRI tok H3).
  apply TRI_PATH_colon in H3 as (colon & rest & -> & Hc & _).
  destruct (Z.ltb_spec (- Z.of_nat colon + 1) 0); [reflexivity | lia].
Qed.

Lemma X8_witness :
  regex_match (cstr "-MANIFESTINPUT:/x/y") TRI_PATH = true /\
  cmdfileremap.body (H := demo_host) (cstr "-MANIFESTINPUT:/x/y") (World ∅ [] [])
  = Stop Abort (World ∅ [] []).
Proof.
  split; [reflexivity |].
  apply (X8_cmdfileremap_stops_on_colon_options (H := demo_host)). reflexivity.
Defined.

(** X9.  Whatever the file holds, cmdfileremap hands Wine only texts that
    begin with a slash and hold no carriage return or line feed: the part
    of a matched token from its path offset on. *)
Theorem X9_cmdfileremap_translates_slash_paths_only `{Host} pFile w p :
  Translate p ∈ drop (length (trace w)) (trace (world_of (cmdfileremap.remapFile pFile w))) ->
  slash_path p.
Proof.
  unfold cmdfileremap.remapFile, log, read_file, fopen_w. unfold_M.
  cbn [files streams trace].
  assert (Hstart : forall w', trace w' = trace w ++ [Enter pFile CMD] ->
            Translate p ∈ drop (length (trace w)) (trace w') -> slash_path p).
  { intros w' -> Hin. rewrite drop_app_length in Hin.
    apply list_elem_of_singleton in Hin. discriminate. }
  destruct (files w !! pFile) as [buffer|]; [| now apply Hstart].
  destruct (writable pFile); [| now apply Hstart].
  set (w2 := World _ _ _).
  destruct (cf_loop_trace buffer (S (length buffer)) 0 w2) as (new & T & F).
  assert (Hin : forall w', trace w' = trace (world_of (cmdfileremap.loop buffer
                                                       (S (length buffer)) 0 w2)) ->
            Translate p ∈ drop (length (trace w)) (trace w') -> slash_path p).
  { intros w' -> Hp. rewrite T in Hp. unfold w2 in Hp. simpl in Hp.
    rewrite <- app_assoc, drop_app_length in Hp.
    apply elem_of_cons in Hp as [|Hp]; [discriminate |].
    eapply Forall_forall in F; [| exact Hp]. exact F. }
  destruct (cmdfileremap.loop buffer (S (length buffer)) 0 w2) as [[] w3|o w3].
  - apply Hin. unfold fclose. now destruct (streams w3) as [|[? ?] ?].
  - now apply Hin.
Qed.

Lemma X9_witness :
  slash_path (cstr "/usr/include").
Proof.
  apply (X9_cmdfileremap_translates_slash_paths_only (H := demo_host) (cstr "f")
           (one_file "f" "-I/usr/include x")).
  vm_compute. right. left.
Defined.

(** X10.  In [Mode::CMD], cmaketricks writes a token of a pattern class
    once: the characters before the path offset as they were, the
    translation of the rest in place of the rest, all between double quotes
    and followed by one space; [tok] holds the rewritten token afterwards.
    (A forced include goes on from there: C5.) *)
Theorem X10_cmaketricks_writes_the_token_once `{Host}
    remapFile buffer ptr tok k winPath w d out rest :
  path_offset tok = Some k ->
  wine_get_dos_file_name (drop k tok) = Some winPath ->
  streams w = (d, out) :: rest ->
  let tok' := take k tok ++ WideCharToMultiByte winPath cmaketricks.TOKEN_SIZE in
  classify tok <> DOUBLE_PREFIX_PATH \/ forced_include tok' = false ->
  cmaketricks.body remapFile CMD buffer ptr tok w =
    Ret (ptr, tok')
        (World (files w) ((d, out ++ DQUOTE :: tok' ++ [DQUOTE; SPACE]) :: rest)
               (trace w ++ [Translate (drop k tok)])).
Proof.
  intros Hk Hw Hs tok' Hnf.
  rewrite (cm_cmd_token remapFile buffer ptr tok k winPath w d out rest Hk Hw Hs).
  fold tok'.
  assert (Hif : bool_decide (classify tok = DOUBLE_PREFIX_PATH) && forced_include tok' = false).
  { destruct Hnf as [Hc | ->]; [| apply andb_false_r].
    now rewrite bool_decide_eq_false_2. }
  rewrite Hif. unfold_M. unfold quoted. simpl. now rewrite <- app_assoc.
Qed.

Lemma X10_witness :
  let w := World ∅ [(cstr "f", [])] [] in
  (path_offset (cstr "-Fo/build/out") = Some 3 /\
   wine_get_dos_file_name (Host := demo_host) (drop 3 (cstr "-Fo/build/out"))
   = Some (cstr "Z:/build/out") /\
   streams w = [(cstr "f", [])]) /\
  cmaketricks.body (H := demo_host) (fun _ _ => mret tt) CMD [] None (cstr "-Fo/build/out") w =
    Ret (None, cstr "-FoZ:/build/out")
        (World ∅ [(cstr "f", cstr (in_quotes "-FoZ:/build/out" ++ " "))]
               [Translate (cstr "/build/out")]).
Proof.
  intros w. split; [repeat split |].
  apply (X10_cmaketricks_writes_the_token_once (H := demo_host) (fun _ _ => mret tt) [] None
           (cstr "-Fo/build/out") 3 (cstr "Z:/build/out") w (cstr "f") [] []);
    try reflexivity. now right.
Defined.

(** X11.  For an option with a colon cmaketricks keeps everything up to and
    including the first colon and replaces what follows it, the path, by
    its translation. *)
Theorem X11_cmaketricks_colon_option `{Host}
    remapFile buffer ptr c0 letters path winPath w d out rest :
  c0 = "-" \/ c0 = "/" ->
  3 <= length letters -> Forall (fun c => is_alpha c = true) letters ->
  no_newline path ->
  wine_get_dos_file_name ("/" :: path) = Some winPath ->
  streams w = (d, out) :: rest ->
  let tok' := c0 :: letters ++ ":" :: WideCharToMultiByte winPath cmaketricks.TOKEN_SIZE in
  cmaketricks.body remapFile CMD buffer ptr (c0 :: letters ++ ":" :: "/" :: path) w =
    Ret (ptr, tok')
        (World (files w) ((d, out ++ DQUOTE :: tok' ++ [DQUOTE; SPACE]) :: rest)
               (trace w ++ [Translate ("/" :: path)])).
Proof.
  intros H0 Hlen Hl Hp Hw Hs tok'.
  set (tok := c0 :: letters ++ ":" :: "/" :: path).
  assert (H3 : regex_match tok TRI_PATH = true) by now apply TRI_PATH_matches.
  assert (Hcolon : strchr tok ":" = Some (S (length letters))).
  { change tok with ((c0 :: letters) ++ ":" :: "/" :: path).
    apply (strchr_skip (c0 :: letters)). constructor.
    - destruct H0 as [-> | ->]; discriminate.
    - eapply Forall_impl; [exact Hl |]. intros c Hc ->. discriminate. }
  assert (Hk : path_offset tok = Some (S (length letters) + 1)).
  { unfold path_offset. now rewrite (classify_TRI tok H3), Hcolon. }
  assert (Hsplit : tok = (c0 :: letters ++ [":"]) ++ "/" :: path).
  { unfold tok. simpl. now rewrite <- app_assoc. }
  assert (Hlen' : length (c0 :: letters ++ [":"]) = S (length letters) + 1).
  { simpl. rewrite length_app. simpl. lia. }
  assert (Hdrop : drop (S (length letters) + 1) tok = "/" :: path).
  { rewrite Hsplit, <- Hlen'. apply drop_app_length. }
  assert (Htake : take (S (length letters) + 1) tok = c0 :: letters ++ [":"]).
  { rewrite Hsplit, <- Hlen'. apply take_app_length. }
  rewrite (cm_cmd_token remapFile buffer ptr tok _ winPath w d out rest Hk);
    [| now rewrite Hdrop | exact Hs].
  rewrite Htake, Hdrop, (classify_TRI tok H3).
  rewrite bool_decide_eq_false_2 by discriminate. unfold_M. unfold quoted, tok'. simpl.
  now rewrite <- !app_assoc.
Qed.

Lemma X11_witness :
  let w := World ∅ [(cstr "f", [])] [] in
  cmaketricks.body (H := demo_host) (fun _ _ => mret tt) CMD [] None
    (cstr "-MANIFESTINPUT:/x/y") w =
    Ret (None, cstr "-MANIFESTINPUT:Z:/x/y")
        (World ∅ [(cstr "f", cstr (in_quotes "-MANIFESTINPUT:Z:/x/y" ++ " "))]
               [Translate (cstr "/x/y")]).
Proof.
  intros w.
  apply (X11_cmaketricks_colon_option (H := demo_host) (fun _ _ => mret tt) [] None
           "-" (cstr "MANIFESTINPUT") (cstr "x/y") (cstr "Z:/x/y") w (cstr "f") [] []);
    try reflexivity; [now left | simpl; lia | | ].
  - repeat constructor.
  - repeat constructor.
Defined.

(** ** Whole passes *)

(** X12.  The token loops of [remapFile] end on every file, in both
    programs: the pointer moves forward with every token, so the bound of
    one round more than the file has characters is never reached, and a run
    ends as the program does, by returning, exiting, aborting or
    faulting. *)
Theorem X12_remapFile_loops_end :
  (forall (H : Host) g_Debug pFile pMode w,
     outcome_of (cmaketricks.remapFile g_Debug pFile pMode w) <> Some NoFuel) /\
  (forall (H : Host) pFile w,
     outcome_of (cmdfileremap.remapFile pFile w) <> Some NoFuel).
Proof.
  split; intros; [apply cm_remapFile_total | apply cf_remapFile_total].
Qed.

Section ExitCodes.
Context `{Host}.

Global Instance exit_spec_lawful : Lawful exit_spec.
Proof. split; simpl; auto. Qed.

Lemma exit_spec_fputs s : sat exit_spec (fputs s).
Proof. intros w. unfold fputs. now destruct (streams w) as [|[? ?] ?]. Qed.

Lemma exit_spec_remap p n : sat exit_spec (remap p n).
Proof.
  intros w. unfold remap, log. unfold_M.
  destruct (wine_get_dos_file_name p); simpl; [exact I |].
  intros c [= <-]. now right.
Qed.

Lemma exit_spec_stop o w : o = Fault \/ o = Abort \/ o = NoFuel -> fail exit_spec w o w.
Proof. intros [-> | [-> | ->]] c; discriminate. Qed.

Lemma exit_spec_cm_body g_Debug (remapFile : chars -> Mode -> M unit) pFile pMode :
  (forall p, sat exit_spec (remapFile p PCH)) ->
  sat exit_spec (cmaketricks.remapFile_body g_Debug remapFile pFile pMode).
Proof.
  intros Hrf w. unfold cmaketricks.remapFile_body, log, read_file, fopen_w. unfold_M.
  cbn [files streams trace].
  destruct (files w !! pFile) as [buffer|]; [| intros c [= <-]; now left].
  destruct (writable _); [| intros c [= <-]; now left].
  set (w2 := World _ _ _).
  pose proof (sat_cm_loop exit_spec exit_spec_fputs exit_spec_remap
                (fun o w Ho => exit_spec_stop o w
                                 (match Ho with or_introl a => or_introl a
                                              | or_intror b => or_intror (or_introl b) end))
                remapFile Hrf pMode buffer (S (length buffer)) (Some 0) []
                (fun w => exit_spec_stop NoFuel w (or_intror (or_intror eq_refl))) w2) as Hl.
  destruct (cmaketricks.loop _ _ _ _ _ _ w2) as [[] w3|o w3]; [| exact Hl].
  unfold fclose. now destruct (streams w3) as [|[? ?] ?].
Qed.

Lemma exit_spec_cm_remapFile_at g_Debug depth pFile pMode :
  sat exit_spec (cmaketricks.remapFile_at g_Debug depth pFile pMode).
Proof.
  revert pFile pMode. induction depth as [|depth IH]; intros pFile pMode; simpl.
  - intros w c. discriminate.
  - apply exit_spec_cm_body. intros p. apply IH.
Qed.

Lemma exit_spec_cf_remapFile pFile : sat exit_spec (cmdfileremap.remapFile pFile).
Proof.
  intros w. unfold cmdfileremap.remapFile, log, read_file, fopen_w. unfold_M.
  cbn [files streams trace].
  destruct (files w !! pFile) as [buffer|]; [| intros c [= <-]; now left].
  destruct (writable _); [| intros c [= <-]; now left].
  set (w2 := World _ _ _).
  pose proof (sat_cf_loop exit_spec exit_spec_fputs exit_spec_remap
                (fun o w Ho => exit_spec_stop o w
                                 (match Ho with or_introl a => or_introl a
                                              | or_intror b => or_intror (or_introl b) end))
                buffer (S (length buffer)) 0
                (fun w => exit_spec_stop NoFuel w (or_intror (or_intror eq_refl))) w2) as Hl.
  destruct (cmdfileremap.loop _ _ _ w2) as [[] w3|o w3]; [| exact Hl].
  unfold fclose. now destruct (streams w3) as [|[? ?] ?].
Qed.
End ExitCodes.

(** X13.  [remapFile] exits with code 3 or with code 4 and no other, in
    both programs, nested passes included. *)
Theorem X13_remapFile_exit_codes `{Host} :
  (forall g_Debug pFile pMode w c,
     outcome_of (cmaketricks.remapFile g_Debug pFile pMode w) = Some (Exit c) ->
     c = 3%Z \/ c = 4%Z) /\
  (forall pFile w c,
     outcome_of (cmdfileremap.remapFile pFile w) = Some (Exit c) -> c = 3%Z \/ c = 4%Z).
Proof.
  split.
  - intros g_Debug pFile pMode w c.
    pose proof (exit_spec_cm_remapFile_at g_Debug 2 pFile pMode w) as Hs.
    change (cmaketricks.remapFile_at g_Debug 2 pFile pMode w)
      with (cmaketricks.remapFile g_Debug pFile pMode w) in Hs.
    destruct (cmaketricks.remapFile g_Debug pFile pMode w); simpl; [discriminate |].
    intros [= ->]. now apply Hs.
  - intros pFile w c. pose proof (exit_spec_cf_remapFile pFile w) as Hs.
    destruct (cmdfileremap.remapFile pFile w); simpl; [discriminate |].
    intros [= ->]. now apply Hs.
Qed.

Lemma X13_witness : 4%Z = 3%Z \/ 4%Z = 4%Z.
Proof.
  apply (proj2 (X13_remapFile_exit_codes (H := demo_host)) (cstr "f")
           (one_file "f" "/usr/c") 4%Z).
  reflexivity.
Defined.

Section Frame.
Context `{Host}.
Variable g_Debug : bool.

Lemma untouched_same new w w' : files w' = files w -> untouched g_Debug new w w'.
Proof. intros E p _. now rewrite E. Qed.

Lemma untouched_trans n1 n2 w1 w2 w3 :
  untouched g_Debug n1 w1 w2 -> untouched g_Debug n2 w2 w3 ->
  untouched g_Debug (n1 ++ n2) w1 w3.
Proof.
  intros U1 U2 p Hp. transitivity (files w2 !! p).
  - apply U2. intros q m Hin. apply (Hp q m). apply elem_of_app. now right.
  - apply U1. intros q m Hin. apply (Hp q m). apply elem_of_app. now left.
Qed.

Global Instance frame_spec_lawful : Lawful (frame_spec g_Debug).
Proof.
  split; simpl.
  - intros w. split; [reflexivity |]. exists []. rewrite app_nil_r.
    split; [reflexivity | now apply untouched_same].
  - intros w1 w2 w3 (N1 & n1 & T1 & U1) (N2 & n2 & T2 & U2).
    split; [congruence |]. exists (n1 ++ n2). rewrite T2, T1, app_assoc.
    split; [reflexivity | now apply (untouched_trans n1 n2 w1 w2)].
  - intros w1 w2 o w3 (N1 & n1 & T1 & U1) (n2 & st & T2 & N2 & D2 & U2).
    exists (n1 ++ n2), st. rewrite T2, T1, app_assoc, N2, N1.
    split; [reflexivity | split; [reflexivity | split;
      [| now apply (untouched_trans n1 n2 w1 w2)]]].
    intros d Hd. destruct (D2 d Hd) as (q & m & Hin & ->). exists q, m.
    split; [apply elem_of_app; auto | reflexivity].
Qed.

Lemma frame_spec_fputs s : sat (frame_spec g_Debug) (fputs s).
Proof.
  intros w. unfold fputs. destruct (streams w) as [|[name data] rest] eqn:E; simpl.
  - split; [reflexivity |]. exists []. rewrite app_nil_r.
    split; [reflexivity | now apply untouched_same].
  - split; [unfold names; simpl; now rewrite E |]. exists []. rewrite app_nil_r.
    split; [reflexivity | now apply untouched_same].
Qed.

Lemma frame_spec_remap p n : sat (frame_spec g_Debug) (remap p n).
Proof.
  intros w. unfold remap, log. unfold_M.
  destruct (wine_get_dos_file_name p); simpl.
  - split; [reflexivity |]. exists [Translate p].
    split; [reflexivity | now apply untouched_same].
  - exists [Translate p], []. split; [reflexivity | split; [reflexivity | split; [| now apply untouched_same]]].
    intros d Hd. inversion Hd.
Qed.

Lemma frame_spec_stop o w : fail (frame_spec g_Debug) w o w.
Proof.
  exists [], []. rewrite app_nil_r. split; [reflexivity | split; [reflexivity | split; [| now apply untouched_same]]].
  intros d Hd. inversion Hd.
Qed.

(** One pass over a file, whatever loop it runs on the contents. *)
Lemma frame_spec_pass (loop : chars -> M unit) pFile pMode :
  (forall buffer, sat (frame_spec g_Debug) (loop buffer)) ->
  sat (frame_spec g_Debug)
      (log (Enter pFile pMode);;
       file ← read_file pFile;
       match file with
       | None => exit 3
       | Some buffer =>
           opened ← fopen_w (cmaketricks.destination g_Debug pFile);
           if opened : bool then loop buffer;; fclose else exit 3
       end).
Proof.
  intros Hloop w. unfold log, read_file, fopen_w. unfold_M.
  cbn [files streams trace].
  assert (Hexit : forall o, fail (frame_spec g_Debug) w o
                    (World (files w) (streams w) (trace w ++ [Enter pFile pMode]))).
  { intros o. exists [Enter pFile pMode], [].
    split; [reflexivity | split; [reflexivity | split; [| now apply untouched_same]]].
    intros d Hd. inversion Hd. }
  destruct (files w !! pFile) as [buffer|]; [| apply Hexit].
  destruct (writable _); [| apply Hexit].
  set (d := cmaketricks.destination g_Debug pFile).
  set (w2 := World _ ((d, []) :: _) _).
  pose proof (Hloop buffer w2) as Hl.
  destruct (loop buffer w2) as [[] w3|o w3].
  - destruct Hl as (N & new & T & U). unfold fclose. unfold names in N. simpl in N.
    destruct (streams w3) as [|[name data] rest] eqn:E; simpl in N; [discriminate |].
    injection N as -> N. split; [unfold names; simpl; exact N |].
    exists (Enter pFile pMode :: new). simpl. split.
    + rewrite T. simpl. now rewrite <- app_assoc.
    + intros p Hp. simpl.
      assert (Hne : d <> p).
      { intros <-. apply (Hp pFile pMode); [left | reflexivity]. }
      rewrite lookup_insert_ne by exact Hne. rewrite U.
      * simpl. now rewrite lookup_insert_ne by exact Hne.
      * intros q m Hq. apply (Hp q m). now right.
  - destruct Hl as (new & st & T & N & D & U).
    exists (Enter pFile pMode :: new), (st ++ [d]). split; [| split; [| split]].
    + rewrite T. simpl. now rewrite <- app_assoc.
    + rewrite N. unfold names. simpl. now rewrite <- app_assoc.
    + intros d' Hd'. apply elem_of_app in Hd' as [Hd' | Hd'].
      * destruct (D d' Hd') as (q & m & Hq & ->). exists q, m. split; [now right | reflexivity].
      * apply list_elem_of_singleton in Hd' as ->. exists pFile, pMode.
        split; [left | reflexivity].
    + intros p Hp.
      assert (Hne : d <> p).
      { intros <-. apply (Hp pFile pMode); [left | reflexivity]. }
      rewrite U.
      * simpl. now rewrite lookup_insert_ne by exact Hne.
      * intros q m Hq. apply (Hp q m). now right.
Qed.

Lemma frame_spec_cm_body (remapFile : chars -> Mode -> M unit) pFile pMode :
  (forall p, sat (frame_spec g_Debug) (remapFile p PCH)) ->
  sat (frame_spec g_Debug) (cmaketricks.remapFile_body g_Debug remapFile pFile pMode).
Proof.
  intros Hrf.
  apply (frame_spec_pass
           (fun buffer => cmaketricks.loop remapFile pMode buffer (S (length buffer))
                            (Some 0) [])).
  intros buffer.
  exact (sat_cm_loop (frame_spec g_Debug) frame_spec_fputs frame_spec_remap
           (fun o w _ => frame_spec_stop o w) remapFile Hrf pMode buffer
           (S (length buffer)) (Some 0) [] (frame_spec_stop NoFuel)).
Qed.

Lemma frame_spec_cm_remapFile_at depth pFile pMode :
  sat (frame_spec g_Debug) (cmaketricks.remapFile_at g_Debug depth pFile pMode).
Proof.
  revert pFile pMode. induction depth as [|depth IH]; intros pFile pMode; simpl.
  - intros w. apply frame_spec_stop.
  - apply frame_spec_cm_body. intros p. apply IH.
Qed.

(** [exit] flushes the open streams, each to the file it was opened on. *)
Lemma at_exit_other w p : p ∉ names w -> files (at_exit w) !! p = files w !! p.
Proof.
  unfold at_exit, names. simpl. generalize (files w).
  induction (streams w) as [|[d out] ss IH]; intros m Hp; simpl; [reflexivity |].
  simpl in Hp. apply not_elem_of_cons in Hp as [Hne Hp].
  rewrite IH by exact Hp. now apply lookup_insert_ne.
Qed.

Lemma frame_run (m : M unit) w :
  sat (frame_spec g_Debug) m -> streams w = [] ->
  exists new, trace (run m w).2 = trace w ++ new /\ untouched g_Debug new w (run m w).2.
Proof.
  intros Hs Hw. specialize (Hs w). unfold run.
  destruct (m w) as [[] w'|o w'].
  - destruct Hs as (_ & new & T & U). now exists new.
  - destruct Hs as (new & st & T & N & D & U). exists new.
    assert (Hw' : names w = []) by (unfold names; now rewrite Hw).
    rewrite Hw', app_nil_r in N.
    destruct o; simpl; try (split; [exact T | exact U]).
    split; [exact T |]. intros p Hp. rewrite at_exit_other; [now apply U |].
    rewrite N. intros Hin. destruct (D p Hin) as (q & md & Hq & ->).
    now apply (Hp q md).
Qed.
End Frame.

Lemma frame_spec_cf_remapFile `{Host} pFile :
  sat (frame_spec false) (cmdfileremap.remapFile pFile).
Proof.
  apply (frame_spec_pass false
           (fun buffer => cmdfileremap.loop buffer (S (length buffer)) 0) pFile CMD).
  intros buffer.
  exact (sat_cf_loop (frame_spec false) (frame_spec_fputs false) (frame_spec_remap false)
           (fun o w _ => frame_spec_stop false o w) buffer
           (S (length buffer)) 0 (frame_spec_stop false NoFuel)).
Qed.

Lemma run_trace {A} (m : M A) w : trace (run m w).2 = trace (world_of (m w)).
Proof. unfold run. destruct (m w) as [a w'|[c| | |] w']; reflexivity. Qed.

Lemma cf_pass_trace `{Host} pFile w :
  exists new,
    trace (world_of (cmdfileremap.remapFile pFile w)) = trace w ++ Enter pFile CMD :: new /\
    Forall is_translate new.
Proof.
  unfold cmdfileremap.remapFile, log, read_file, fopen_w. unfold_M.
  cbn [files streams trace].
  destruct (files w !! pFile) as [buffer|]; [| exists []; now split].
  destruct (writable _); [| exists []; now split].
  set (w2 := World _ _ _).
  assert (Hstop : forall o w, fail translate_spec w o w).
  { intros o w0. exists []. now rewrite app_nil_r. }
  pose proof (sat_cf_loop translate_spec translate_spec_fputs translate_spec_remap
                (fun o w _ => Hstop o w) buffer (S (length buffer)) 0
                (Hstop NoFuel) w2) as Hl.
  destruct (cmdfileremap.loop _ _ _ w2) as [[] w3|o w3]; simpl in Hl;
    destruct Hl as (new & T & F); exists new.
  - unfold fclose. destruct (streams w3) as [|[name data] rest]; simpl;
      rewrite T; simpl; now rewrite <- app_assoc.
  - simpl. rewrite T. simpl. now rewrite <- app_assoc.
Qed.

(** A pass that enters no file but its own writes to its destination only. *)
Lemma frame_single `{Host} g_Debug (m : M unit) pFile pMode w p :
  sat (frame_spec g_Debug) m -> streams w = [] ->
  (exists new, trace (world_of (m w)) = trace w ++ Enter pFile pMode :: new /\
               Forall is_translate new) ->
  p <> cmaketricks.destination g_Debug pFile ->
  files (run m w).2 !! p = files w !! p.
Proof.
  intros Hs Hw (new & T & F) Hp.
  destruct (frame_run g_Debug m w Hs Hw) as (new' & T' & U).
  rewrite run_trace, T in T'. apply app_inv_head in T'. subst new'.
  apply U. intros q md Hin. apply elem_of_cons in Hin as [[= -> ->] | Hin]; [exact Hp |].
  rewrite Forall_forall in F. destruct (F _ Hin).
Qed.

(** X14.  A run of cmaketricks' [remapFile] that starts with no stream
    open writes to the destinations of the files it enters and to nothing
    else: every other file holds afterwards what it held before, also when
    the run stops half way and [exit] flushes the streams that are open. *)
Theorem X14_cmaketricks_writes_destinations_only `{Host} g_Debug pFile pMode w :
  streams w = [] ->
  let w' := (run (cmaketricks.remapFile g_Debug pFile pMode) w).2 in
  exists new,
    trace w' = trace w ++ new /\
    forall p,
      (forall q m, Enter q m ∈ new -> p <> cmaketricks.destination g_Debug q) ->
      files w' !! p = files w !! p.
Proof.
  intros Hw. apply (frame_run g_Debug); [| exact Hw].
  apply frame_spec_cm_remapFile_at.
Qed.

Lemma X14_witness :
  let w := two_files "f" "/FI/usr/h.h /usr/c x" "/usr/x" "kept" in
  let w' := (run (cmaketricks.remapFile (H := demo_host) false (cstr "f") CMD) w).2 in
  exists new,
    trace w' = trace w ++ new /\
    forall p,
      (forall q m, Enter q m ∈ new -> p <> cmaketricks.destination false q) ->
      files w' !! p = files w !! p.
Proof.
  apply (X14_cmaketricks_writes_destinations_only (H := demo_host) false (cstr "f") CMD
           (two_files "f" "/FI/usr/h.h /usr/c x" "/usr/x" "kept")).
  reflexivity.
Defined.

(** X15.  A run that starts with no stream open, of cmaketricks'
    [remapFile] in [Mode::PCH] or of cmdfileremap's [remapFile], changes no
    file but its destination, however it ends.  The destination of
    cmdfileremap is the file itself; that of cmaketricks with the debug flag
    set is another file, so that there the file the pass reads is left as it
    was. *)
Theorem X15_single_pass_writes_its_destination_only `{Host} g_Debug pFile w p :
  streams w = [] ->
  (p <> cmaketricks.destination g_Debug pFile ->
   files (run (cmaketricks.remapFile g_Debug pFile PCH) w).2 !! p = files w !! p) /\
  (p <> pFile ->
   files (run (cmdfileremap.remapFile pFile) w).2 !! p = files w !! p) /\
  files (run (cmaketricks.remapFile true pFile PCH) w).2 !! pFile = files w !! pFile.
Proof.
  intros Hw. split; [| split].
  - intros Hp. apply (frame_single g_Debug _ pFile PCH); auto.
    + apply frame_spec_cm_remapFile_at.
    + apply cm_pch_pass_trace.
  - intros Hp. apply (frame_single false _ pFile CMD); auto.
    + apply frame_spec_cf_remapFile.
    + apply cf_pass_trace.
  - apply (frame_single true _ pFile PCH); auto.
    + apply frame_spec_cm_remapFile_at.
    + apply cm_pch_pass_trace.
    + unfold cmaketricks.destination. intros E.
      apply (f_equal length) in E. rewrite length_app in E. simpl in E. lia.
Qed.

Lemma X15_witness :
  let w := two_files "h" "#include /usr/c x" "/usr/x" "kept" in
  files (run (cmdfileremap.remapFile (H := demo_host) (cstr "h")) w).2 !! cstr "/usr/x"
  = Some (cstr "kept").
Proof.
  intros w.
  rewrite (proj1 (proj2 (X15_single_pass_writes_its_destination_only (H := demo_host)
                           false (cstr "h") w (cstr "/usr/x") eq_refl)));
    [reflexivity | discriminate].
Defined.

(** ** A header that includes nothing *)

Section NoInclude.
Context `{Host}.

Lemma token_of_piece v buffer pos cap t next :
  token_of v buffer pos cap = Tok t next -> exists i n, t = take n (drop i buffer).
Proof.
  intros Ht. apply token_of_cases in Ht.
  destruct Ht as [(_ & Hnl & -> & _) | [(_ & -> & _) | (_ & _ & _ & -> & _)]]; eauto.
  exists (skip_blanks buffer pos), 1. rewrite drop_peek; [reflexivity |].
  apply peek_lt. intros E. rewrite E in Hnl. discriminate.
Qed.

Lemma piece_include buffer i n :
  take n (drop i buffer) = cstr "#include" -> take 8 (drop i buffer) = cstr "#include".
Proof.
  intros E. assert (Hn : 8 <= n).
  { apply (f_equal length) in E. rewrite length_take in E. simpl in E. lia. }
  transitivity (take 8 (take n (drop i buffer))).
  - rewrite take_take. f_equal. lia.
  - now rewrite E.
Qed.

Lemma fputs_ret s w : exists w', fputs s w = Ret tt w' /\ trace w' = trace w.
Proof. unfold fputs. destruct (streams w) as [|[name data] rest]; eauto. Qed.

Lemma cm_pch_plain_loop rf buffer :
  (forall i, take 8 (drop i buffer) <> cstr "#include") ->
  forall fuel p tok w,
    let r := cmaketricks.loop rf PCH buffer fuel (Some p) tok w in
    trace (world_of r) = trace w /\
    (outcome_of r = None \/ outcome_of r = Some Abort \/ outcome_of r = Some NoFuel).
Proof.
  intros Hno. induction fuel as [|fuel IH]; intros p tok w; simpl.
  - auto.
  - unfold_M. unfold cmaketricks.next_token.
    destruct (cmaketricks.token buffer p cmaketricks.TOKEN_SIZE) as [| |t q] eqn:Ht;
      simpl; auto.
    unfold mret, M_ret, ret. cbv beta iota. unfold cmaketricks.body.
    destruct (Ascii.eqb (hd NUL t) SPACE); [apply IH |].
    destruct (is_newline (hd NUL t)).
    { unfold fputc. unfold_M. destruct (fputs_ret [hd NUL t] w) as (w' & -> & <-). apply IH. }
    destruct (bool_decide (t = cstr "#include")) eqn:Hinc.
    { apply bool_decide_eq_true in Hinc. subst t.
      destruct (token_of_piece Cmaketricks buffer p cmaketricks.TOKEN_SIZE _ q Ht)
        as (i & n & E).
      symmetry in E. apply piece_include in E. now destruct (Hno i). }
    unfold_M. destruct (fputs_ret (t ++ [SPACE]) w) as (w' & -> & <-). apply IH.
Qed.
End NoInclude.

(** X16.  A [Mode::PCH] pass over a file in which the text [#include]
    does not occur asks for no translation and enters no other file; it
    returns, or stops at the capacity check of [token], or exits with code 3
    because the destination cannot be written.  It cannot exit with
    code 4. *)
Theorem X16_header_without_include `{Host} g_Debug (pFile buffer : chars) w :
  files w !! pFile = Some buffer ->
  (forall i, take 8 (drop i buffer) <> cstr "#include") ->
  let r := cmaketricks.remapFile g_Debug pFile PCH w in
  trace (world_of r) = trace w ++ [Enter pFile PCH] /\
  (outcome_of r = None \/ outcome_of r = Some Abort \/ outcome_of r = Some (Exit 3)).
Proof.
  intros Hf Hno r. pose proof (cm_remapFile_total g_Debug pFile PCH w) as Htot.
  fold r in Htot. revert Htot. unfold r. clear r.
  change (cmaketricks.remapFile g_Debug pFile PCH)
    with (cmaketricks.remapFile_body g_Debug (cmaketricks.remapFile_at g_Debug 1) pFile PCH).
  unfold cmaketricks.remapFile_body, log, read_file, fopen_w. unfold_M.
  cbn [files streams trace].
  destruct (files w !! pFile) as [b|] eqn:E; [| discriminate].
  injection Hf as ->.
  destruct (writable _); [| simpl; auto].
  set (w2 := World _ _ _).
  destruct (cm_pch_plain_loop (cmaketricks.remapFile_at g_Debug 1) buffer Hno
              (S (length buffer)) 0 [] w2) as [T O].
  destruct (cmaketricks.loop _ _ _ _ _ _ w2) as [[] w3|o w3]; simpl in T, O.
  - intros _. unfold fclose. destruct (streams w3) as [|[name data] rest]; simpl; auto.
  - simpl. intros Hnf. split; [exact T |].
    destruct O as [O | [O | O]]; [discriminate | auto | congruence].
Qed.

Lemma X16_witness :
  let r := cmaketricks.remapFile (H := demo_host) false (cstr "h") PCH
             (one_file "h" "int  /usr/c ;") in
  trace (world_of r) = [Enter (cstr "h") PCH] /\
  (outcome_of r = None \/ outcome_of r = Some Abort \/ outcome_of r = Some (Exit 3)).
Proof.
  apply (X16_header_without_include (H := demo_host) false (cstr "h")
           (cstr "int  /usr/c ;") (one_file "h" "int  /usr/c ;")).
  - reflexivity.
  - intros i. do 14 (destruct i as [|i]; [discriminate |]). discriminate.
Defined.

(** ** The entry points *)

Section ProcessFiles.
Context `{Host}.

Lemma sat_process_files (S : spec) `{!Lawful S} (f : chars -> M unit) args :
  (forall arg, arg ∈ args -> is_file_argument arg -> sat S (f arg)) ->
  sat S (process_files f args).
Proof.
  induction args as [|arg rest IH]; intros Hf; simpl.
  - apply sat_ret; typeclasses eauto.
  - apply sat_bind; [typeclasses eauto | |].
    + destruct (Ascii.eqb (hd NUL arg) "-") eqn:E.
      * apply sat_ret; typeclasses eauto.
      * apply Hf; [left |]. now apply Ascii.eqb_neq in E.
    + intros _. apply IH. intros a Ha. apply Hf. now right.
Qed.

Lemma process_files_app (f : chars -> M unit) l1 l2 w :
  process_files f (l1 ++ l2) w = (process_files f l1;; process_files f l2) w.
Proof.
  revert w. induction l1 as [|arg rest IH]; intros w; simpl; [reflexivity |].
  unfold_M. destruct (Ascii.eqb (hd NUL arg) "-").
  - apply IH.
  - destruct (f arg w) as [[] w1|o w1]; [apply IH | reflexivity].
Qed.

Lemma process_files_filter (f : chars -> M unit) args w :
  process_files f args w = process_files f (filter is_file_argument args) w.
Proof.
  revert w. induction args as [|arg rest IH]; intros w; simpl; [reflexivity |].
  unfold filter. simpl. fold (filter is_file_argument rest).
  destruct (decide (is_file_argument arg)) as [Hd|Hd]; unfold is_file_argument in Hd.
  - simpl. apply Ascii.eqb_neq in Hd. rewrite Hd. unfold_M.
    destruct (f arg w) as [[] w1|o w1]; [apply IH | reflexivity].
  - destruct (Ascii.eqb (hd NUL arg) "-") eqn:E.
    + unfold_M. apply IH.
    + apply Ascii.eqb_neq in E. contradiction.
Qed.

Lemma process_files_stops (f : chars -> M unit) before arg after w w1 o w2 :
  process_files f before w = Ret tt w1 ->
  is_file_argument arg ->
  f arg w1 = Stop o w2 ->
  process_files f (before ++ arg :: after) w = Stop o w2.
Proof.
  intros Hb Ha Hs. rewrite process_files_app. unfold_M. rewrite Hb. simpl.
  apply Ascii.eqb_neq in Ha. rewrite Ha. unfold_M. now rewrite Hs.
Qed.

Global Instance enters_spec_lawful ok : Lawful (enters_spec ok).
Proof.
  split; simpl.
  - intros w. exists []. now rewrite app_nil_r.
  - intros w1 w2 w3 (n1 & T1 & F1) (n2 & T2 & F2). exists (n1 ++ n2).
    rewrite T2, T1, app_assoc. split; [reflexivity | now apply Forall_app].
  - intros w1 w2 o w3 (n1 & T1 & F1) (n2 & T2 & F2). exists (n1 ++ n2).
    rewrite T2, T1, app_assoc. split; [reflexivity | now apply Forall_app].
Qed.

Lemma enters_spec_cf_remapFile (ok : chars -> Prop) pFile :
  ok pFile -> sat (enters_spec ok) (cmdfileremap.remapFile pFile).
Proof.
  intros Hok w. destruct (cf_pass_trace pFile w) as (new & T & F).
  assert (Hall : Forall (enters ok) (Enter pFile CMD :: new)).
  { constructor; [exact Hok |]. eapply Forall_impl; [exact F |].
    intros [p|q m]; simpl; [auto | contradiction]. }
  destruct (cmdfileremap.remapFile pFile w) as [[] w'|o w']; simpl in *; eauto.
Qed.
End ProcessFiles.

(** X17.  cmdfileremap changes no file but those named by the arguments
    after the program name that do not begin with a dash, however the run
    ends. *)
Theorem X17_cmdfileremap_changes_its_file_arguments_only `{Host} loaded argv w p :
  streams w = [] ->
  (forall arg, arg ∈ drop 1 argv -> is_file_argument arg -> p <> arg) ->
  files (run (cmdfileremap_main.main loaded argv) w).2 !! p = files w !! p.
Proof.
  intros Hw Hp. unfold cmdfileremap_main.main.
  assert (Hstop : forall o, files (run (stop (A := unit) o) w).2 !! p = files w !! p).
  { intros o. unfold run, stop. destruct o; try reflexivity.
    unfold at_exit. simpl. now rewrite Hw. }
  destruct (Nat.eqb _ _); [apply Hstop |].
  destruct (argv !! 1) as [arg1|]; [| apply Hstop].
  destruct (bool_decide _); [reflexivity |].
  destruct loaded; [| apply Hstop].
  set (ok := fun q : chars => q ∈ drop 1 argv /\ is_file_argument q).
  set (m := process_files cmdfileremap.remapFile (drop 1 argv)).
  assert (Hf : sat (frame_spec false) m).
  { apply sat_process_files; [typeclasses eauto |].
    intros a _ _. apply frame_spec_cf_remapFile. }
  assert (He : sat (enters_spec ok) m).
  { apply sat_process_files; [typeclasses eauto |].
    intros a Ha Hd. apply enters_spec_cf_remapFile. now split. }
  destruct (frame_run false m w Hf Hw) as (new & T & U).
  apply U. intros q md Hin. simpl.
  assert (Hq : enters ok (Enter q md)).
  { specialize (He w). rewrite run_trace in T.
    destruct (m w) as [[] w'|o w']; simpl in *; destruct He as (new' & T' & F');
      rewrite T' in T; apply app_inv_head in T; subst new';
      rewrite Forall_forall in F'; exact (F' _ Hin). }
  destruct Hq as [Hq1 Hq2]. now apply Hp.
Qed.

Lemma X17_witness :
  let w := two_files "-f" "/usr/a" "g" "/usr/c /usr/e" in
  files (run (cmdfileremap_main.main (H := demo_host) true
                [cstr "cmdfileremap"; cstr "-f"; cstr "g"]) w).2 !! cstr "-f"
  = Some (cstr "/usr/a").
Proof.
  intros w.
  rewrite (X17_cmdfileremap_changes_its_file_arguments_only (H := demo_host) true
             [cstr "cmdfileremap"; cstr "-f"; cstr "g"] w (cstr "-f") eq_refl).
  - reflexivity.
  - intros arg Hin Hd <-. now apply Hd.
Defined.

Lemma hasArgument_apart literal argv :
  apart literal argv ->
  forall pOption, cmaketricks_main.hasArgument literal argv pOption = false.
Proof.
  intros Ha pOption. unfold cmaketricks_main.hasArgument.
  destruct (existsb _ argv) eqn:E; [| reflexivity].
  apply existsb_exists in E as (arg & Hin & E). apply N.eqb_eq in E.
  apply list_elem_of_In in Hin. now destruct (Ha arg (cstr pOption) Hin).
Qed.

(** X18.  cmaketricks recognises none of its options.  [hasArgument]
    compares the addresses of the arguments with the address of a string
    literal, and an argument is never stored in a literal, so every test
    fails whatever the arguments say: [--help] and [-h] print nothing and
    do not end the run, [--debug] does not redirect the output and [--pch]
    does not select [Mode::PCH].  With more or fewer than one element in
    [argv], the run is the loop over the arguments in [Mode::CMD], each
    file rewritten in place, or [exit( 2 )] without Wine. *)
Theorem X18_cmaketricks_recognises_no_option `{Host} literal loaded argv w :
  apart literal argv ->
  cmaketricks_main.main literal loaded argv w
  = if Nat.eqb (length argv) 1 then Stop (Exit 1) w
    else if loaded
         then process_files (fun pFile => cmaketricks.remapFile false pFile CMD)
                            (text <$> drop 1 argv) w
         else Stop (Exit 2) w.
Proof.
  intros Ha. unfold cmaketricks_main.main.
  pose proof (hasArgument_apart literal argv Ha) as Hno.
  rewrite !Hno. simpl. destruct (Nat.eqb _ _); [reflexivity |].
  now destruct loaded.
Qed.

Lemma X18_witness :
  let argv := [Pointer 100 (cstr "cmaketricks"); Pointer 112 (cstr "--pch");
               Pointer 118 (cstr "h")] in
  files (run (cmaketricks_main.main (H := demo_host) (fun _ => 0%N) true argv)
             (one_file "h" "#include /usr/x")).2 !! cstr "h"
  = Some (cstr (in_quotes "#include" ++ " " ++ in_quotes "Z:/usr/x" ++ " ")).
Proof.
  intros argv. unfold run.
  rewrite (X18_cmaketricks_recognises_no_option (H := demo_host) (fun _ => 0%N) true argv).
  - reflexivity.
  - intros arg pOption Hin. unfold argv in Hin.
    repeat (apply elem_of_cons in Hin as [-> | Hin]; [discriminate |]).
    inversion Hin.
Defined.

(** X19.  The files are processed in the order of the arguments, and the
    first one on which [remapFile] stops ends the run: [main] stops there
    with the same outcome, and the arguments after it are not looked at.  So
    it is in both programs; in cmaketricks the pass is the one in
    [Mode::CMD], whatever the options (X18). *)
Theorem X19_first_failure_ends_the_run `{Host} literal prog arg1 before arg after :
  is_file_argument arg ->
  (forall w w1 o w2,
     arg1 <> cstr "--help" ->
     process_files cmdfileremap.remapFile (arg1 :: before) w = Ret tt w1 ->
     cmdfileremap.remapFile arg w1 = Stop o w2 ->
     cmdfileremap_main.main true (prog :: arg1 :: before ++ arg :: after) w
     = Stop o w2) /\
  (forall ptrs w w1 o w2,
     apart literal ptrs ->
     text <$> ptrs = prog :: arg1 :: before ++ arg :: after ->
     process_files (fun pFile => cmaketricks.remapFile false pFile CMD)
                   (arg1 :: before) w = Ret tt w1 ->
     cmaketricks.remapFile false arg CMD w1 = Stop o w2 ->
     cmaketricks_main.main literal true ptrs w = Stop o w2).
Proof.
  intros Ha. split.
  - intros w w1 o w2 Hh Hb Hs. unfold cmdfileremap_main.main.
    replace (Nat.eqb _ 1) with false
      by (symmetry; apply Nat.eqb_neq; simpl; rewrite length_app; simpl; lia).
    change ((prog :: arg1 :: before ++ arg :: after) !! 1) with (Some arg1).
    cbv iota beta. rewrite bool_decide_eq_false_2 by exact Hh.
    simpl drop. rewrite app_comm_cons.
    now apply (process_files_stops _ (arg1 :: before) arg after w w1 o w2).
  - intros ptrs w w1 o w2 Hap Ht Hb Hs.
    pose proof (hasArgument_apart literal ptrs Hap) as Hno.
    unfold cmaketricks_main.main. rewrite !Hno. simpl orb. cbv iota.
    assert (Hlen : length ptrs = length (prog :: arg1 :: before ++ arg :: after))
      by (rewrite <- Ht; now rewrite length_fmap).
    replace (Nat.eqb (length ptrs) 1) with false
      by (symmetry; apply Nat.eqb_neq; rewrite Hlen; simpl; rewrite length_app; simpl; lia).
    rewrite fmap_drop, Ht. simpl drop. rewrite app_comm_cons.
    now apply (process_files_stops _ (arg1 :: before) arg after w w1 o w2).
Qed.

Lemma X19_witness :
  let w := two_files "f" "/usr/a" "h" "/usr/e" in
  exists w2,
    cmdfileremap_main.main (H := demo_host) true
      [cstr "cmdfileremap"; cstr "f"; cstr "g"; cstr "h"] w = Stop (Exit 3) w2 /\
    files w2 !! cstr "h" = Some (cstr "/usr/e").
Proof.
  intros w.
  pose (r := cmdfileremap.remapFile (H := demo_host) (cstr "g")
               (world_of (process_files (cmdfileremap.remapFile (H := demo_host))
                            [cstr "f"] w))).
  exists (world_of r). split.
  - apply (proj1 (X19_first_failure_ends_the_run (H := demo_host) (fun _ => 0%N)
                    (cstr "cmdfileremap") (cstr "f") [] (cstr "g") [cstr "h"]
                    ltac:(discriminate))
             w (world_of (process_files (cmdfileremap.remapFile (H := demo_host))
                            [cstr "f"] w)) (Exit 3) (world_of r)).
    + discriminate.
    + reflexivity.
    + reflexivity.
  - reflexivity.
Defined.

(** X20.  cmdfileremap looks for [--help] in its first argument only.
    There it ends the run before anything is done, Wine or no Wine; in any
    later place it is passed over, as is every argument after the first that
    begins with a dash: the run is the run without those arguments. *)
Theorem X20_cmdfileremap_options `{Host} loaded prog arg1 rest w :
  (arg1 = cstr "--help" ->
   cmdfileremap_main.main loaded (prog :: arg1 :: rest) w = Ret tt w) /\
  (arg1 <> cstr "--help" ->
   cmdfileremap_main.main loaded (prog :: arg1 :: rest) w
   = cmdfileremap_main.main loaded (prog :: arg1 :: filter is_file_argument rest) w).
Proof.
  unfold cmdfileremap_main.main. simpl. split.
  - intros ->. reflexivity.
  - intros Hh. rewrite bool_decide_eq_false_2 by exact Hh.
    destruct loaded; [| reflexivity]. unfold_M.
    destruct (if Ascii.eqb (hd NUL arg1) "-" then _ else _) as [[] w1|o w1];
      [| reflexivity].
    apply process_files_filter.
Qed.

Lemma X20_witness :
  cmdfileremap_main.main (H := demo_host) true
    [cstr "cmdfileremap"; cstr "f"; cstr "--help"; cstr "-q"] (one_file "f" "x")
  = cmdfileremap_main.main (H := demo_host) true
      [cstr "cmdfileremap"; cstr "f"] (one_file "f" "x").
Proof.
  apply (proj2 (X20_cmdfileremap_options (H := demo_host) true (cstr "cmdfileremap")
                  (cstr "f") [cstr "--help"; cstr "-q"] (one_file "f" "x"))).
  discriminate.
Defined.

(** X21.  The exit codes of the two programs.  [main] exits with code 1
    exactly when [argv] has one element, with code 2 only when Wine's
    function was not found, and otherwise with code 3 or 4, which come from
    [remapFile]; there is no other code. *)
Theorem X21_exit_codes_of_main `{Host} literal loaded :
  (forall argv w c,
     outcome_of (cmdfileremap_main.main loaded argv w) = Some (Exit c) ->
     (c = 1%Z /\ length argv = 1) \/
     (c = 2%Z /\ loaded = false /\ length argv <> 1) \/
     ((c = 3%Z \/ c = 4%Z) /\ loaded = true /\ length argv <> 1)) /\
  (forall argv w c,
     outcome_of (cmaketricks_main.main literal loaded argv w) = Some (Exit c) ->
     (c = 1%Z /\ length argv = 1) \/
     (c = 2%Z /\ loaded = false /\ length argv <> 1) \/
     ((c = 3%Z \/ c = 4%Z) /\ loaded = true /\ length argv <> 1)).
Proof.
  split; intros argv w c.
  - unfold cmdfileremap_main.main.
    destruct (Nat.eqb (length argv) 1) eqn:E.
    { apply Nat.eqb_eq in E. simpl. intros [= <-]. now left. }
    apply Nat.eqb_neq in E.
    destruct (argv !! 1) as [arg1|]; [| discriminate].
    destruct (bool_decide _); [discriminate |].
    destruct loaded; [| simpl; intros [= <-]; right; left; auto].
    assert (Hs : sat exit_spec (process_files cmdfileremap.remapFile (drop 1 argv))).
    { apply sat_process_files; [typeclasses eauto |].
      intros a _ _. apply exit_spec_cf_remapFile. }
    specialize (Hs w).
    destruct (process_files _ _ w) as [[] w1|o w1]; simpl; [discriminate |].
    intros [= ->]. right. right. split; [now apply Hs | auto].
  - unfold cmaketricks_main.main.
    destruct (Nat.eqb (length argv) 1) eqn:E.
    { apply Nat.eqb_eq in E. simpl. intros [= <-]. now left. }
    apply Nat.eqb_neq in E.
    destruct (_ || _); [discriminate |]. cbv zeta.
    destruct loaded; [| simpl; intros [= <-]; right; left; auto].
    set (g := cmaketricks_main.hasArgument literal argv "--debug").
    set (md := if cmaketricks_main.hasArgument literal argv "--pch" then PCH else CMD).
    assert (Hs : sat exit_spec
                   (process_files (fun pFile => cmaketricks.remapFile g pFile md)
                      (text <$> drop 1 argv))).
    { apply sat_process_files; [typeclasses eauto |].
      intros a _ _. apply (exit_spec_cm_remapFile_at g 2). }
    specialize (Hs w).
    destruct (process_files _ _ w) as [[] w1|o w1]; simpl; [discriminate |].
    intros [= ->]. right. right. split; [now apply Hs | auto].
Qed.

Lemma X21_witness :
  (2%Z = 1%Z /\ 2 = 1) \/
  (2%Z = 2%Z /\ false = false /\ 2 <> 1) \/
  ((2%Z = 3%Z \/ 2%Z = 4%Z) /\ false = true /\ 2 <> 1).
Proof.
  apply (proj1 (X21_exit_codes_of_main (H := demo_host) (fun _ => 0%N) false)
           [cstr "cmdfileremap"; cstr "f"] (one_file "f" "x") 2%Z).
  reflexivity.
Defined.

(** ** Reading back what was written *)

Section ReadBack.
Context `{Host}.







Lemma world_eta w d out rest :
  streams w = (d, out) :: rest ->
  w = World (files w) ((d, out ++ []) :: rest) (trace w).
Proof. destruct w as [f s t]. simpl. intros ->. now rewrite app_nil_r. Qed.

Lemma cm_loop_step rf pMode buffer fuel ptr tok w :
  cmaketricks.loop rf pMode buffer (S fuel) ptr tok w
  = match cmaketricks.next_token buffer ptr tok w with
    | Ret (Some p, t) w1 =>
        match cmaketricks.body rf pMode buffer (Some p) t w1 with
        | Ret (ptr', tok') w2 => cmaketricks.loop rf pMode buffer fuel ptr' tok' w2
        | Stop o w2 => Stop o w2
        end
    | Ret (None, _) w1 => Ret tt w1
    | Stop o w1 => Stop o w1
    end.
Proof.
  simpl. unfold_M. destruct (cmaketricks.next_token buffer ptr tok w) as [[[p|] t] w1|o w1];
    try reflexivity.
  now destruct (cmaketricks.body rf pMode buffer (Some p) t w1) as [[ptr' tok'] w2|o w2].
Qed.

End ReadBack.



Section ReadBackCmdfileremap.
Context `{Host}.



End ReadBackCmdfileremap.



(** ** Headers without directives *)

Section Respace.
Context `{Host}.

Lemma cm_bare_cond_true c :
  cmaketricks.bare_cond c = true ->
  is_nul c = false /\ is_blank c = false /\ is_newline c = false.
Proof.
  rewrite cm_bare_cond_spec. simpl.
  destruct (is_nul c), (is_blank c), (is_newline c); simpl; auto; discriminate.
Qed.

Lemma flush_cons c cur : flush (c :: cur) = [Word (c :: cur)].
Proof. reflexivity. Qed.

Lemma flush_snoc cur c : flush (cur ++ [c]) = [Word (cur ++ [c])].
Proof. now destruct cur. Qed.

Lemma items_word cur w r :
  Forall (fun c => cmaketricks.bare_cond c = true) w ->
  items cur (w ++ r) = items (cur ++ w) r.
Proof.
  intros Hw. revert cur. induction Hw as [|c w Hc _ IH]; intros cur; simpl.
  - now rewrite app_nil_r.
  - apply cm_bare_cond_true in Hc as (-> & -> & ->).
    rewrite IH. now rewrite <- app_assoc.
Qed.

Lemma items_stop cur s :
  cmaketricks.bare_cond (nth 0 s NUL) = false -> items cur s = flush cur ++ items [] s.
Proof.
  destruct s as [|c s]; simpl; [now rewrite app_nil_r |]. intros Hc.
  destruct (is_nul c) eqn:Hn; [now rewrite app_nil_r |].
  destruct (is_blank c) eqn:Hb; [reflexivity |].
  destruct (is_newline c) eqn:Hl; [reflexivity |].
  rewrite cm_bare_cond_first in Hc by assumption. discriminate.
Qed.

Lemma items_blanks s : items [] (drop (span blank_cond s) s) = items [] s.
Proof.
  induction s as [|c s IH]; simpl; [reflexivity |].
  unfold blank_cond at 1.
  destruct (is_blank c) eqn:Hb, (is_nul c) eqn:Hn; simpl; rewrite ?Hn, ?Hb;
    try reflexivity.
  exact IH.
Qed.

Lemma items_length cur s : length (items cur s) <= length s + length (flush cur).
Proof.
  revert cur. induction s as [|c s IH]; intros cur; simpl; [lia |].
  destruct (is_nul c); [lia |].
  destruct (is_blank c); [rewrite length_app; specialize (IH []); simpl in IH; lia |].
  destruct (is_newline c);
    [rewrite length_app; simpl; specialize (IH []); simpl in IH; lia |].
  specialize (IH (cur ++ [c])). rewrite flush_snoc in IH. simpl in IH. lia.
Qed.

Lemma items_well_formed cur s :
  Forall (fun c => cmaketricks.bare_cond c = true) cur ->
  Forall well_formed (items cur s).
Proof.
  assert (Hflush : forall cur, Forall (fun c => cmaketricks.bare_cond c = true) cur ->
                               Forall well_formed (flush cur)).
  { intros [|c cur'] Hc; simpl; [constructor |].
    constructor; [split; [discriminate | exact Hc] | constructor]. }
  revert cur. induction s as [|c s IH]; intros cur Hcur; simpl; [now apply Hflush |].
  destruct (is_nul c) eqn:Hn; [now apply Hflush |].
  destruct (is_blank c) eqn:Hb.
  { apply Forall_app. split; [now apply Hflush | now apply IH]. }
  destruct (is_newline c) eqn:Hl.
  { apply Forall_app. split; [now apply Hflush |]. constructor; [exact Hl | now apply IH]. }
  apply IH. apply Forall_app. split; [exact Hcur |]. repeat constructor.
  now apply cm_bare_cond_first.
Qed.

(** Taking apart what was put together gives the parts. *)
Lemma respaced_cons it its : respaced (it :: its) = shown it ++ respaced its.
Proof. reflexivity. Qed.

Lemma items_respaced its : Forall well_formed its -> items [] (respaced its) = its.
Proof.
  induction 1 as [|[w|c] its Hit _ IH]; [reflexivity | |]; rewrite respaced_cons.
  - destruct Hit as [Hne Hw]. simpl shown.
    rewrite <- app_assoc, items_word by exact Hw.
    change (items ([] ++ w) ([SPACE] ++ respaced its))
      with (flush w ++ items [] (respaced its)).
    rewrite IH. now destruct w.
  - simpl in Hit. simpl shown.
    assert (Hn : is_nul c = false).
    { destruct (is_nul c) eqn:Hn; [| reflexivity]. apply Ascii.eqb_eq in Hn.
      now rewrite Hn in Hit. }
    assert (Hb : is_blank c = false).
    { unfold is_blank, is_newline in *.
      destruct (Ascii.eqb c SPACE) eqn:E1; [apply Ascii.eqb_eq in E1; now rewrite E1 in Hit |].
      destruct (Ascii.eqb c TAB) eqn:E2; [apply Ascii.eqb_eq in E2; now rewrite E2 in Hit |].
      reflexivity. }
    change (items [] ([c] ++ respaced its))
      with (if is_nul c then flush []
            else if is_blank c then flush [] ++ items [] (respaced its)
            else if is_newline c then flush [] ++ Line c :: items [] (respaced its)
            else items ([] ++ [c]) (respaced its)).
    now rewrite Hn, Hb, Hit, IH.
Qed.

(** What [token] returns, read off the items of the text that is left. *)
Lemma cm_token_items buffer p :
  match items [] (drop p buffer) with
  | [] => cmaketricks.token buffer p 1024 = TokEnd
  | Line c :: its =>
      is_newline c = true /\
      exists next, cmaketricks.token buffer p 1024 = Tok [c] next /\
                   items [] (drop next buffer) = its
  | Word w :: its =>
      cmaketricks.bare_cond (hd NUL w) = true /\
      (hd NUL w <> DQUOTE -> (Z.of_nat (length w) < 1023)%Z ->
       exists next, cmaketricks.token buffer p 1024 = Tok w next /\
                    items [] (drop next buffer) = its)
  end.
Proof.
  set (q := skip_blanks buffer p).
  assert (Eq : items [] (drop p buffer) = items [] (drop q buffer)).
  { unfold q, skip_blanks. rewrite <- drop_drop. symmetry. apply items_blanks. }
  rewrite Eq. set (c := peek buffer q).
  destruct (is_nul c) eqn:Hn.
  { assert (E : items [] (drop q buffer) = []).
    { unfold c in Hn. rewrite peek_drop0 in Hn.
      destruct (drop q buffer) as [|c' s]; [reflexivity |]. simpl in *. now rewrite Hn. }
    rewrite E. now apply (token_of_end Cmaketricks). }
  assert (Hlt : q < length buffer).
  { apply peek_lt. fold c. intros E. rewrite E in Hn. discriminate. }
  pose proof (drop_peek buffer q Hlt) as Hd. fold c in Hd.
  pose proof (skip_blanks_not_blank buffer p Hn) as Hb. fold q c in Hb.
  destruct (is_newline c) eqn:Hl.
  { rewrite Hd. simpl. rewrite Hn, Hb, Hl. simpl. split; [exact Hl |].
    exists (q + 1). split; [| now rewrite Nat.add_1_r].
    now apply cm_token_newline. }
  set (s := drop q buffer) in *. set (n := span cmaketricks.bare_cond s).
  assert (Hc : cmaketricks.bare_cond c = true) by now apply cm_bare_cond_first.
  assert (Hn1 : 1 <= n).
  { apply span_pos; [reflexivity |]. unfold s. now rewrite <- peek_drop0. }
  assert (Es : items [] s = Word (take n s) :: items [] (drop (q + n) buffer)).
  { rewrite <- (take_drop n s) at 1.
    rewrite items_word by apply span_take. simpl.
    rewrite items_stop by (rewrite <- peek_drop0; now apply span_stop).
    rewrite <- drop_drop. fold s.
    rewrite Hd. destruct n; [lia | reflexivity]. }
  rewrite Es.
  assert (Ehd : hd NUL (take n s) = c).
  { rewrite Hd. destruct n; [lia | reflexivity]. }
  rewrite Ehd. split; [exact Hc |]. intros Hq Hlen. exists (q + n). split; [| reflexivity].
  rewrite cm_token_bare; fold q c; try assumption. cbv zeta. fold s n.
  assert (En : length (take n s) = n).
  { rewrite length_take. pose proof (span_le cmaketricks.bare_cond s). fold n in H0. lia. }
  rewrite En in Hlen.
  destruct (Z.ltb_spec (Z.of_nat n) (1024 - 1)); [reflexivity | lia].
Qed.

Lemma cm_loop_items rf buffer its :
  Forall echoed its ->
  forall fuel p tok w d out rest,
    length its < fuel ->
    items [] (drop p buffer) = its ->
    streams w = (d, out) :: rest ->
    cmaketricks.loop rf PCH buffer fuel (Some p) tok w
    = Ret tt (World (files w) ((d, out ++ respaced its) :: rest) (trace w)).
Proof.
  induction 1 as [|it its Hit _ IH]; intros fuel p tok w d out rest Hfuel Hd Hw;
    (destruct fuel as [|fuel]; [simpl in Hfuel; lia |]);
    pose proof (cm_token_items buffer p) as Ht; rewrite Hd in Ht;
    rewrite cm_loop_step; unfold cmaketricks.next_token, cmaketricks.TOKEN_SIZE.
  - rewrite Ht. unfold_M. f_equal. now apply world_eta.
  - simpl in Hfuel. destruct it as [t|c].
    + destruct Hit as (Hq & Hinc & Hlen). destruct Ht as [Hc Ht].
      destruct (Ht Hq Hlen) as (next & -> & Hd'). unfold_M.
      apply cm_bare_cond_true in Hc as (_ & Hb & Hl).
      unfold cmaketricks.body.
      assert (Hsp : Ascii.eqb (hd NUL t) SPACE = false).
      { unfold is_blank in Hb. now apply orb_false_iff in Hb as [-> _]. }
      rewrite Hsp, Hl. rewrite bool_decide_eq_false_2 by exact Hinc.
      unfold_M. unfold fputs at 1. rewrite Hw.
      rewrite (IH fuel next t _ d (out ++ t ++ [SPACE]) rest); [| lia | exact Hd' | reflexivity].
      simpl. unfold respaced. simpl. now rewrite <- !app_assoc.
    + destruct Ht as (Hl & next & -> & Hd'). unfold_M.
      unfold cmaketricks.body. simpl hd.
      assert (Hsp : Ascii.eqb c SPACE = false).
      { destruct (Ascii.eqb c SPACE) eqn:E; [| reflexivity].
        apply Ascii.eqb_eq in E. now rewrite E in Hl. }
      change (hd NUL [c]) with c.
      rewrite Hsp, Hl. unfold fputc. unfold_M. unfold fputs at 1. rewrite Hw.
      rewrite (IH fuel next [c] _ d (out ++ [c]) rest); [| lia | exact Hd' | reflexivity].
      simpl. unfold respaced. simpl. now rewrite <- !app_assoc.
Qed.

Lemma cm_pch_pass_respaces g_Debug pFile buffer w :
  Forall echoed (items [] buffer) ->
  files w !! pFile = Some buffer ->
  writable (cmaketricks.destination g_Debug pFile) = true ->
  cmaketricks.remapFile g_Debug pFile PCH w
  = Ret tt (World (<[cmaketricks.destination g_Debug pFile := respaced (items [] buffer)]>
                     (files w))
                  (streams w) (trace w ++ [Enter pFile PCH])).
Proof.
  intros Hall Hf Hwr.
  change (cmaketricks.remapFile g_Debug pFile PCH)
    with (cmaketricks.remapFile_body g_Debug (cmaketricks.remapFile_at g_Debug 1) pFile PCH).
  unfold cmaketricks.remapFile_body, log, read_file, fopen_w. unfold_M.
  cbn [files streams trace].
  destruct (files w !! pFile) as [b|] eqn:E; [| discriminate]. injection Hf as ->.
  rewrite Hwr. set (d := cmaketricks.destination g_Debug pFile).
  set (w2 := World _ _ _).
  rewrite (cm_loop_items _ buffer (items [] buffer) Hall
             (S (length buffer)) 0 [] w2 d [] (streams w));
    [| pose proof (items_length [] buffer); simpl in *; lia | reflexivity | reflexivity].
  unfold fclose. simpl. now rewrite insert_insert_eq.
Qed.
End Respace.

Lemma respaced_app its1 its2 : respaced (its1 ++ its2) = respaced its1 ++ respaced its2.
Proof. unfold respaced. now rewrite fmap_app, concat_app. Qed.

(** Taking a text apart and putting it together brings in no character but
    the space. *)
Lemma respaced_items_chars (P : ascii -> Prop) cur s :
  P SPACE -> Forall P cur -> Forall P s -> Forall P (respaced (items cur s)).
Proof.
  intros Hsp.
  assert (Hflush : forall cur, Forall P cur -> Forall P (respaced (flush cur))).
  { intros [|c cur'] Hc; [constructor |]. unfold respaced. simpl.
    rewrite app_nil_r. apply (Forall_app P (c :: cur') [SPACE]).
    split; [exact Hc | now constructor]. }
  revert cur. induction s as [|c s IH]; intros cur Hcur Hs; simpl; [now apply Hflush |].
  apply Forall_cons in Hs as [Hc Hs].
  destruct (is_nul c); [now apply Hflush |].
  destruct (is_blank c).
  { rewrite respaced_app. apply Forall_app. split; [now apply Hflush | now apply IH]. }
  destruct (is_newline c).
  { rewrite respaced_app. apply Forall_app. split; [now apply Hflush |].
    rewrite respaced_cons. simpl. constructor; [exact Hc | now apply IH]. }
  apply IH; [| exact Hs]. apply Forall_app. split; [exact Hcur | now constructor].
Qed.

(** X24.  What a pass in [Mode::PCH] does to the words of a header.  Take
    a header that holds no carriage return, line feed or Ctrl-Z, so that it
    is read and written byte for byte, and in which no word is [#include],
    begins with a double quote or is too long for [tok].  The pass asks for
    no translation and leaves in the destination the words of the file, each
    followed by one space, in their order: spaces and tabs between words
    become one space, those before the first word go, and the last word gets
    a space after it too.  What it leaves holds no carriage return, line
    feed or Ctrl-Z either. *)
Theorem X24_header_is_respaced `{Host} g_Debug pFile buffer w :
  Forall same_in_text_mode buffer ->
  Forall echoed (items [] buffer) ->
  files w !! pFile = Some buffer ->
  writable (cmaketricks.destination g_Debug pFile) = true ->
  cmaketricks.remapFile g_Debug pFile PCH w
  = Ret tt (World (<[cmaketricks.destination g_Debug pFile := respaced (items [] buffer)]>
                     (files w))
                  (streams w) (trace w ++ [Enter pFile PCH])) /\
  Forall same_in_text_mode (respaced (items [] buffer)).
Proof.
  intros Htext Hall Hf Hwr. split; [now apply cm_pch_pass_respaces |].
  apply respaced_items_chars; [repeat split; discriminate | constructor | exact Htext].
Qed.

Lemma X24_witness :
  let text := "  int   x ;  y"%string in
  let text' := "int x ; y "%string in
  cmaketricks.remapFile (H := demo_host) false (cstr "h") PCH (one_file "h" text)
  = Ret tt (World {[ cstr "h" := cstr text' ]} [] [Enter (cstr "h") PCH]) /\
  Forall same_in_text_mode (cstr text').
Proof.
  intros text text'.
  apply (X24_header_is_respaced (H := demo_host) false (cstr "h") (cstr text)
           (one_file "h" text)).
  - repeat constructor; discriminate.
  - repeat constructor; try discriminate; simpl; lia.
  - reflexivity.
  - reflexivity.
Defined.

(** X25.  A second pass in [Mode::PCH] over such a header changes
    nothing: the first pass returns and leaves a text that is again read
    and written byte for byte, and the pass over what it left returns with
    every file as it found it. *)
Theorem X25_second_header_pass_changes_nothing `{Host} pFile buffer w :
  Forall same_in_text_mode buffer ->
  Forall echoed (items [] buffer) ->
  files w !! pFile = Some buffer ->
  writable pFile = true ->
  exists w1 out,
    cmaketricks.remapFile false pFile PCH w = Ret tt w1 /\
    files w1 !! pFile = Some out /\
    Forall same_in_text_mode out /\
    cmaketricks.remapFile false pFile PCH w1
    = Ret tt (World (files w1) (streams w1) (trace w1 ++ [Enter pFile PCH])).
Proof.
  intros Htext Hall Hf Hwr. set (out := respaced (items [] buffer)).
  eexists. exists out.
  split; [exact (cm_pch_pass_respaces false pFile buffer w Hall Hf Hwr) |].
  split; [simpl; apply lookup_insert_eq |].
  split.
  { apply respaced_items_chars; [repeat split; discriminate | constructor | exact Htext]. }
  assert (Eit : items [] out = items [] buffer).
  { apply items_respaced. now apply items_well_formed. }
  rewrite (cm_pch_pass_respaces false pFile out).
  - simpl. rewrite Eit. fold out. now rewrite insert_insert_eq.
  - now rewrite Eit.
  - simpl. apply lookup_insert_eq.
  - exact Hwr.
Qed.

Lemma X25_witness :
  exists w1 out,
    cmaketricks.remapFile (H := demo_host) false (cstr "h") PCH (one_file "h" " a  b")
    = Ret tt w1 /\
    files w1 !! cstr "h" = Some out /\
    Forall same_in_text_mode out /\
    cmaketricks.remapFile (H := demo_host) false (cstr "h") PCH w1
    = Ret tt (World (files w1) (streams w1) (trace w1 ++ [Enter (cstr "h") PCH])).
Proof.
  apply (X25_second_header_pass_changes_nothing (H := demo_host) (cstr "h") (cstr " a  b")
           (one_file "h" " a  b")).
  - repeat constructor; discriminate.
  - repeat constructor; try discriminate; simpl; lia.
  - reflexivity.
  - reflexivity.
Defined.
